(** * InterfaceVillas: the sample-based adapter between DPsim and a VILLASnode node

    A shallow embedding of [src/InterfaceVillas.cpp].  The member functions
    of the class are state transformers over the object's members, the
    sample memory, the host's state and the answers of the node.  Every
    run yields an outcome (normal return, a C++ exception, [std::exit], a
    null dereference, or a loop that the node never lets finish), the
    final state and the events it caused, in order. *)

From Stdlib Require Import ZArith Lia.
From stdpp Require Import base list strings.

Set Default Proof Using "Type".

(** ** The node library's data, as the adapter sees it *)

Module node.

Record timespec := { tv_sec : Z; tv_nsec : Z }.

(** The list of signals a node declares (a [shared_ptr<SignalList>] in the
    sample; [None] is the empty pointer). *)
Definition SignalList := list string.

(** [struct Sample]: floats are kept as their 32-bit patterns, so the
    pattern 0 is the float 0.0 that [memset] writes. *)
Record Sample := {
  sequence : Z;
  ts_origin : timespec;
  flags : Z;
  signals : option SignalList;
  length : nat;
  capacity : nat;
  data : list Z
}.

Record NodeType := { type_name : string }.

(** A pool is a queue of free blocks; [pool_state] follows
    [pool_init] and [pool_destroy]. *)
Inductive PoolState := Uninitialized | Initialized | Destroyed.

Record Pool := {
  pool_state : PoolState;
  pool_blocks : nat;
  pool_capacity : nat;
  pool_queue : list nat
}.

End node.

Definition ptr := nat.

Inductive Owner := FromSamplePool | FromTransport.

(** A block of sample memory: the reference count, the pool it goes back
    to, and the sample it holds. *)
Record Block := {
  refcnt : Z;
  owner : Owner;
  smp : node.Sample
}.

Record json_error_t := {
  err_line : Z;
  err_column : Z;
  err_position : Z;
  err_text : string
}.

Definition json_t := string.

Inductive LogArg := ArgInt (z : Z) | ArgStr (s : string).
Inductive LogLevel := Info | Error.

(** The exceptions of the program.  [HookError] and [NodeError] stand for
    the [std::exception] objects a host hook or the node's read and write
    raise; [Foreign] stands for a thrown object whose class does not derive
    from [std::exception] (an [int], a string, an exception object of the
    host language); [std_exception] is the object that [throw exc] makes
    from a caught [std::exception&]: a copy of the static type. *)
Inductive exception :=
| JsonError (config : option json_t) (error : json_error_t)
| RuntimeError (fmt : string) (args : list LogArg)
| HookError (what : string)
| NodeError (what : string)
| Foreign (what : string)
| std_exception.

(** What [catch (std::exception&)] catches. *)
Definition is_std_exception (e : exception) : bool :=
  match e with
  | Foreign _ => false
  | _ => true
  end.

(** What a hook throws: an object of a class derived from
    [std::exception], or any other object. *)
Inductive Raised := StdError (what : string) | OtherObject (what : string).

Definition what_of (r : Raised) : string :=
  match r with
  | StdError what | OtherObject what => what
  end.

Definition thrown (r : Raised) : exception :=
  match r with
  | StdError what => HookError what
  | OtherObject what => Foreign what
  end.

(** What a call of the node's read or write does. *)
Inductive Response := Returns (code : Z) | Throws (what : string).

(** A read may overwrite the caller's sample pointer with a sample of the
    transport. *)
Record ReadResponse := {
  rd_response : Response;
  rd_sample : option node.Sample
}.

Inductive Event :=
| EvLog (level : LogLevel) (fmt : string) (args : list LogArg)
| EvNodeNew (t : string)
| EvNodeParse (code : Z)
| EvNodeCheck (code : Z)
| EvMemoryInit (code : Z)
| EvPoolInit (code : Z)
| EvNodePrepare (code : Z)
| EvTypeStart (code : Z)
| EvNodeStart (code : Z)
| EvNodeStop (code : Z)
| EvPoolDestroy (code : Z)
| EvAlloc (p : option ptr)
| EvDecref (p : ptr)
| EvExport (i : nat) (threw : option string)
| EvImport (i : nat) (threw : option string)
| EvWrite (p : option ptr) (s : option node.Sample) (r : Response)
| EvRead (r : Response) (p : option ptr)
| EvCatch (e : exception).

(** ** Outcomes *)

Inductive Abrupt :=
| Throw (e : exception)
| Exit (code : Z)
| Crash
| Diverge.

Inductive Res (A : Type) :=
| Val (a : A)
| Abort (c : Abrupt).
Arguments Val {A} a.
Arguments Abort {A} c.

(** ** What the adapter does not define: the libraries and the machine *)

Record Env := {
  node_type_lookup : string -> option node.NodeType;
  json_loads : string -> json_error_t + json_t;
  uuid_generate_random : Z;
  node_parse : json_t -> Z -> Z;
  node_check : Z;
  memory_init : Z -> Z;
  pool_init : nat -> nat -> Z;
  node_prepare : Z;
  node_type_start : node.NodeType -> Z;
  node_start : Z;
  node_stop : Z;
  pool_destroy : Z;
  getInputSignals : node.SignalList;
  clock_realtime : nat -> node.timespec;
  (** the memory of the pool's blocks before their first use *)
  pool_memory : nat -> node.Sample;
  (** the members [mSequence], [mOpened] and [mLastSample] before a member
      function assigns them: the initialiser list does not, and their
      declarations are in the class header *)
  indeterminate_mSequence : Z;
  indeterminate_mOpened : bool;
  indeterminate_mLastSample : option nat;
  (** [villas::node::SampleFlags::HAS_DATA] *)
  HAS_DATA : Z
}.

Section Adapter.

Context {H : Type}.
Variable E : Env.

(** A hook is a callable of the host that gets the sample pointer.  With
    a sample behind the pointer it may change the sample and the host's
    state, and it may raise.  With the null pointer it may change the
    host's state and raise, or it dereferences the pointer and the process
    dies ([None]). *)
Record Hook := {
  on_sample : H -> node.Sample -> H * node.Sample * option Raised;
  on_null : H -> option (H * option Raised)
}.

(** The members of [InterfaceVillas] (with those of its base class that
    the file uses). *)
Record InterfaceVillas := {
  mNodeType : string;
  mNodeConfig : string;
  mQueueLenght : nat;
  mSampleLenght : nat;
  mNode : option node.NodeType;
  mSamplePool : node.Pool;
  mOpened : bool;
  mSequence : Z;
  mLastSample : option ptr;
  mImports : list Hook;
  mExports : list Hook
}.

Record World := {
  host : H;
  heap : list Block;
  node_writes : list Response;
  node_reads : list ReadResponse;
  ticks : nat
}.

(** The locals of [readValues] and [writeValues], which the handlers read. *)
Record Locals := {
  sample : option ptr;
  ret : Z;
  done : bool
}.

Record State := {
  this : InterfaceVillas;
  world : World;
  locals : Locals
}.

(** ** The monad: state, events and abrupt ends *)

Definition M (A : Type) : Type := State -> Res A * State * list Event.

#[global] Instance M_ret : MRet M := fun A a st => (Val a, st, []).

#[global] Instance M_bind : MBind M := fun A B k m st =>
  match m st with
  | (Val a, st1, e1) =>
      match k a st1 with
      | (r, st2, e2) => (r, st2, e1 ++ e2)
      end
  | (Abort c, st1, e1) => (Abort c, st1, e1)
  end.

Definition gets {A} (f : State -> A) : M A := fun st => (Val (f st), st, []).
Definition modify (f : State -> State) : M unit := fun st => (Val tt, f st, []).
Definition emit (e : Event) : M unit := fun st => (Val tt, st, [e]).
Definition abort {A} (c : Abrupt) : M A := fun st => (Abort c, st, []).

Definition throw {A} (e : exception) : M A := abort (Throw e).
Definition std_exit {A} (code : Z) : M A := abort (Exit code).

(** [try { body } catch (std::exception& exc) { handler }]: an object
    that is not a [std::exception] passes through. *)
Definition try_catch {A} (body : M A) (handler : exception -> M A) : M A :=
  fun st =>
    match body st with
    | (Abort (Throw e), st1, e1) =>
        if is_std_exception e then
          match handler e st1 with
          | (r, st2, e2) => (r, st2, e1 ++ EvCatch e :: e2)
          end
        else (Abort (Throw e), st1, e1)
    | other => other
    end.

Definition when (b : bool) (m : M unit) : M unit := if b then m else mret tt.

(** [while (cond) body], with the number of turns bounded by [fuel]. *)
Fixpoint while (fuel : nat) (cond : M bool) (body : M unit) : M unit :=
  match fuel with
  | O => abort Diverge
  | S n => c ← cond; if c : bool then body;; while n cond body else mret tt
  end.

(** [do body while (cond)] *)
Definition do_while (fuel : nat) (body : M unit) (cond : M bool) : M unit :=
  body;; while fuel cond body.

(** ** State updates *)

Definition with_this (f : InterfaceVillas -> InterfaceVillas) (st : State) : State :=
  {| this := f (this st); world := world st; locals := locals st |}.
Definition with_world (f : World -> World) (st : State) : State :=
  {| this := this st; world := f (world st); locals := locals st |}.
Definition with_locals (f : Locals -> Locals) (st : State) : State :=
  {| this := this st; world := world st; locals := f (locals st) |}.

Definition set_mNode (n : option node.NodeType) (t : InterfaceVillas) :=
  {| mNodeType := mNodeType t; mNodeConfig := mNodeConfig t;
     mQueueLenght := mQueueLenght t; mSampleLenght := mSampleLenght t;
     mNode := n; mSamplePool := mSamplePool t; mOpened := mOpened t;
     mSequence := mSequence t; mLastSample := mLastSample t;
     mImports := mImports t; mExports := mExports t |}.
Definition set_mSamplePool (p : node.Pool) (t : InterfaceVillas) :=
  {| mNodeType := mNodeType t; mNodeConfig := mNodeConfig t;
     mQueueLenght := mQueueLenght t; mSampleLenght := mSampleLenght t;
     mNode := mNode t; mSamplePool := p; mOpened := mOpened t;
     mSequence := mSequence t; mLastSample := mLastSample t;
     mImports := mImports t; mExports := mExports t |}.
Definition set_mOpened (b : bool) (t : InterfaceVillas) :=
  {| mNodeType := mNodeType t; mNodeConfig := mNodeConfig t;
     mQueueLenght := mQueueLenght t; mSampleLenght := mSampleLenght t;
     mNode := mNode t; mSamplePool := mSamplePool t; mOpened := b;
     mSequence := mSequence t; mLastSample := mLastSample t;
     mImports := mImports t; mExports := mExports t |}.
Definition set_mSequence (z : Z) (t : InterfaceVillas) :=
  {| mNodeType := mNodeType t; mNodeConfig := mNodeConfig t;
     mQueueLenght := mQueueLenght t; mSampleLenght := mSampleLenght t;
     mNode := mNode t; mSamplePool := mSamplePool t; mOpened := mOpened t;
     mSequence := z; mLastSample := mLastSample t;
     mImports := mImports t; mExports := mExports t |}.
Definition set_mLastSample (p : option ptr) (t : InterfaceVillas) :=
  {| mNodeType := mNodeType t; mNodeConfig := mNodeConfig t;
     mQueueLenght := mQueueLenght t; mSampleLenght := mSampleLenght t;
     mNode := mNode t; mSamplePool := mSamplePool t; mOpened := mOpened t;
     mSequence := mSequence t; mLastSample := p;
     mImports := mImports t; mExports := mExports t |}.
Definition set_mImports (l : list Hook) (t : InterfaceVillas) :=
  {| mNodeType := mNodeType t; mNodeConfig := mNodeConfig t;
     mQueueLenght := mQueueLenght t; mSampleLenght := mSampleLenght t;
     mNode := mNode t; mSamplePool := mSamplePool t; mOpened := mOpened t;
     mSequence := mSequence t; mLastSample := mLastSample t;
     mImports := l; mExports := mExports t |}.
Definition set_mExports (l : list Hook) (t : InterfaceVillas) :=
  {| mNodeType := mNodeType t; mNodeConfig := mNodeConfig t;
     mQueueLenght := mQueueLenght t; mSampleLenght := mSampleLenght t;
     mNode := mNode t; mSamplePool := mSamplePool t; mOpened := mOpened t;
     mSequence := mSequence t; mLastSample := mLastSample t;
     mImports := mImports t; mExports := l |}.

Definition set_host (h : H) (w : World) :=
  {| host := h; heap := heap w; node_writes := node_writes w;
     node_reads := node_reads w; ticks := ticks w |}.
Definition set_heap (m : list Block) (w : World) :=
  {| host := host w; heap := m; node_writes := node_writes w;
     node_reads := node_reads w; ticks := ticks w |}.
Definition set_node_writes (l : list Response) (w : World) :=
  {| host := host w; heap := heap w; node_writes := l;
     node_reads := node_reads w; ticks := ticks w |}.
Definition set_node_reads (l : list ReadResponse) (w : World) :=
  {| host := host w; heap := heap w; node_writes := node_writes w;
     node_reads := l; ticks := ticks w |}.
Definition set_ticks (n : nat) (w : World) :=
  {| host := host w; heap := heap w; node_writes := node_writes w;
     node_reads := node_reads w; ticks := n |}.

Definition set_sample (p : option ptr) (l : Locals) :=
  {| sample := p; ret := ret l; done := done l |}.
Definition set_ret (z : Z) (l : Locals) :=
  {| sample := sample l; ret := z; done := done l |}.
Definition set_done (b : bool) (l : Locals) :=
  {| sample := sample l; ret := ret l; done := b |}.

Definition get_sample : M (option ptr) := gets (fun st => sample (locals st)).
Definition get_ret : M Z := gets (fun st => ret (locals st)).
Definition get_done : M bool := gets (fun st => done (locals st)).
Definition put_sample (p : option ptr) : M unit := modify (with_locals (set_sample p)).
Definition put_ret (z : Z) : M unit := modify (with_locals (set_ret z)).
Definition put_done (b : bool) : M unit := modify (with_locals (set_done b)).

Definition log_info (fmt : string) (args : list LogArg) : M unit :=
  emit (EvLog Info fmt args).
Definition log_error (fmt : string) (args : list LogArg) : M unit :=
  emit (EvLog Error fmt args).

(** ** Sample memory *)

(** [p->...]: a null or dangling pointer ends the run. *)
Definition deref (p : option ptr) : M (ptr * Block) := fun st =>
  match p with
  | None => (Abort Crash, st, [])
  | Some a =>
      match heap (world st) !! a with
      | Some b => (Val (a, b), st, [])
      | None => (Abort Crash, st, [])
      end
  end.

Definition store (a : ptr) (b : Block) : M unit :=
  modify (with_world (fun w => set_heap (<[a:=b]> (heap w)) w)).

Definition set_refcnt (n : Z) (b : Block) : Block :=
  {| refcnt := n; owner := owner b; smp := smp b |}.
Definition set_smp (s : node.Sample) (b : Block) : Block :=
  {| refcnt := refcnt b; owner := owner b; smp := s |}.

(** [sample-> field = ...] on the local [sample] *)
Definition sample_update (f : node.Sample -> node.Sample) : M unit :=
  p ← get_sample;
  '(a, b) ← deref p;
  store a (set_smp (f (smp b)) b).

Definition set_sequence (z : Z) (s : node.Sample) : node.Sample :=
  {| node.sequence := z; node.ts_origin := node.ts_origin s;
     node.flags := node.flags s; node.signals := node.signals s;
     node.length := node.length s; node.capacity := node.capacity s;
     node.data := node.data s |}.
Definition set_ts_origin (t : node.timespec) (s : node.Sample) : node.Sample :=
  {| node.sequence := node.sequence s; node.ts_origin := t;
     node.flags := node.flags s; node.signals := node.signals s;
     node.length := node.length s; node.capacity := node.capacity s;
     node.data := node.data s |}.
Definition set_flags (f : Z) (s : node.Sample) : node.Sample :=
  {| node.sequence := node.sequence s; node.ts_origin := node.ts_origin s;
     node.flags := f; node.signals := node.signals s;
     node.length := node.length s; node.capacity := node.capacity s;
     node.data := node.data s |}.
Definition set_signals (l : option node.SignalList) (s : node.Sample) : node.Sample :=
  {| node.sequence := node.sequence s; node.ts_origin := node.ts_origin s;
     node.flags := node.flags s; node.signals := l;
     node.length := node.length s; node.capacity := node.capacity s;
     node.data := node.data s |}.
Definition set_data (d : list Z) (s : node.Sample) : node.Sample :=
  {| node.sequence := node.sequence s; node.ts_origin := node.ts_origin s;
     node.flags := node.flags s; node.signals := node.signals s;
     node.length := node.length s; node.capacity := node.capacity s;
     node.data := d |}.

(** [sample_init]: what [sample_alloc] sets in a block it hands out; the
    other fields keep what the memory held. *)
Definition sample_init (cap : nat) (s : node.Sample) : node.Sample :=
  {| node.sequence := node.sequence s; node.ts_origin := node.ts_origin s;
     node.flags := node.flags s; node.signals := None;
     node.length := 0; node.capacity := cap;
     node.data := node.data s |}.

Definition set_pool_queue (q : list ptr) (p : node.Pool) : node.Pool :=
  {| node.pool_state := node.pool_state p; node.pool_blocks := node.pool_blocks p;
     node.pool_capacity := node.pool_capacity p; node.pool_queue := q |}.

(** [node::sample_alloc(&mSamplePool)]: the first free block, with one
    reference, or the null pointer when the pool has none. *)
Definition sample_alloc : M (option ptr) :=
  pool ← gets (fun st => mSamplePool (this st));
  match node.pool_queue pool with
  | [] => emit (EvAlloc None);; mret None
  | a :: q =>
      modify (with_this (set_mSamplePool (set_pool_queue q pool)));;
      modify (with_world (fun w =>
        set_heap (alter (fun b => set_refcnt 1 (set_smp (sample_init (node.pool_capacity pool) (smp b)) b))
                        a (heap w)) w));;
      emit (EvAlloc (Some a));;
      mret (Some a)
  end.

(** [sample_decref]: one reference less; the block of a sample without
    references goes back to the end of its pool's queue. *)
Definition sample_decref (p : option ptr) : M unit :=
  '(a, b) ← deref p;
  store a (set_refcnt (refcnt b - 1) b);;
  emit (EvDecref a);;
  when (refcnt b - 1 =? 0)%Z
    match owner b with
    | FromSamplePool =>
        modify (with_this (fun t =>
          set_mSamplePool (set_pool_queue (node.pool_queue (mSamplePool t) ++ [a]) (mSamplePool t)) t))
    | FromTransport => mret tt
    end.

(** [sample_copy(dst, src)] of the node library: the framing fields, and
    as many data values as the source holds and the destination takes. *)
Definition copy_fields (dst src : node.Sample) : node.Sample :=
  let n := min (node.length src) (node.capacity dst) in
  {| node.sequence := node.sequence src; node.ts_origin := node.ts_origin src;
     node.flags := node.flags src; node.signals := node.signals src;
     node.length := n; node.capacity := node.capacity dst;
     node.data := take n (node.data src) ++ drop n (node.data dst) |}.

Definition sample_copy (dst src : option ptr) : M unit :=
  '(d, db) ← deref dst;
  '(_, sb) ← deref src;
  store d (set_smp (copy_fields (smp db) (smp sb)) db).

(** ** The node *)

(** [mNode->...]: the [unique_ptr] must hold a node. *)
Definition the_node : M node.NodeType := fun st =>
  match mNode (this st) with
  | Some n => (Val n, st, [])
  | None => (Abort Crash, st, [])
  end.

(** [mNode->write(&sample, 1)]: the node's next answer.  A node that has
    no answer left never returns. *)
Definition node_write (p : option ptr) : M Z := fun st =>
  match mNode (this st) with
  | None => (Abort Crash, st, [])
  | Some _ =>
      match node_writes (world st) with
      | [] => (Abort Diverge, st, [])
      | r :: rest =>
          let ev := EvWrite p (smp <$> (p ≫= fun a => heap (world st) !! a)) r in
          let st' := with_world (set_node_writes rest) st in
          match r with
          | Returns c => (Val c, st', [ev])
          | Throws w => (Abort (Throw (NodeError w)), st', [ev])
          end
      end
  end.

(** [mNode->read(&sample, 1)]: the node may store a pointer to a sample of
    its own in the local [sample]. *)
Definition node_read : M Z := fun st =>
  match mNode (this st) with
  | None => (Abort Crash, st, [])
  | Some _ =>
      match node_reads (world st) with
      | [] => (Abort Diverge, st, [])
      | r :: rest =>
          let st1 := with_world (set_node_reads rest) st in
          let st2 :=
            match rd_sample r with
            | Some s =>
                with_locals (set_sample (Some (length (heap (world st1)))))
                  (with_world (fun w =>
                     set_heap (heap w ++ [{| refcnt := 1; owner := FromTransport; smp := s |}]) w) st1)
            | None => st1
            end in
          let ev := EvRead (rd_response r) (sample (locals st2)) in
          match rd_response r with
          | Returns c => (Val c, st2, [ev])
          | Throws w => (Abort (Throw (NodeError w)), st2, [ev])
          end
      end
  end.

(** ** Hooks *)

(** [hk(sample)]: the hook gets the pointer as it is, null or not.  With
    the null pointer the hook runs as [on_null] says; with a sample behind
    the pointer it works on that sample.  A pointer that is not null is the
    fresh block of [sample_alloc] or the block the node's read has just
    made; with a pointer to no block the call is undefined. *)
Definition call_hook (ev : nat -> option string -> Event) (i : nat) (hk : Hook) : M unit :=
  p ← get_sample;
  h ← gets (fun st => host (world st));
  match p with
  | None =>
      match on_null hk h with
      | None => abort Crash
      | Some (h', thr) =>
          modify (with_world (set_host h'));;
          emit (ev i (what_of <$> thr));;
          match thr with
          | Some r => throw (thrown r)
          | None => mret tt
          end
      end
  | Some _ =>
      '(a, b) ← deref p;
      match on_sample hk h (smp b) with
      | (h', s', thr) =>
          modify (with_world (set_host h'));;
          store a (set_smp s' b);;
          emit (ev i (what_of <$> thr));;
          match thr with
          | Some r => throw (thrown r)
          | None => mret tt
          end
      end
  end.

(** [for (auto hk : hooks) hk(sample);] *)
Fixpoint for_hooks (ev : nat -> option string -> Event) (i : nat) (hooks : list Hook) : M unit :=
  match hooks with
  | [] => mret tt
  | hk :: rest => call_hook ev i hk;; for_hooks ev (S i) rest
  end.

(** Modelled from the spec: [addImport] and [addExport] are defined in the
    class header, which is not in src; the registries are append-only
    and keep the order of registration. *)
Definition addImport (l : Hook) : M unit :=
  modify (with_this (fun t => set_mImports (mImports t ++ [l]) t)).
Definition addExport (l : Hook) : M unit :=
  modify (with_this (fun t => set_mExports (mExports t ++ [l]) t)).

(** ** The member functions *)

(** Modelled from the spec: the declaration of [mSequence] is in the class
    header, which is not in src; the sequence number is a 64-bit counter,
    so [mSequence++] wraps at 2^64. *)
Definition next_sequence (z : Z) : Z := ((z + 1) mod 2 ^ 64)%Z.

Definition fresh_pool : node.Pool :=
  {| node.pool_state := node.Uninitialized; node.pool_blocks := 0;
     node.pool_capacity := 0; node.pool_queue := [] |}.

(** The members as the initialiser list leaves them. *)
Definition members (nodeType nodeConfig : string) (queueLenght sampleLenght : nat) : InterfaceVillas :=
  {| mNodeType := nodeType; mNodeConfig := nodeConfig;
     mQueueLenght := queueLenght; mSampleLenght := sampleLenght;
     mNode := None; mSamplePool := fresh_pool; mOpened := indeterminate_mOpened E;
     mSequence := indeterminate_mSequence E; mLastSample := indeterminate_mLastSample E;
     mImports := []; mExports := [] |}.

(** [node::pool_init(&mSamplePool, cnt, blocksz)]: on success the pool owns
    [cnt] new blocks, each with room for [cap] values, all free. *)
Definition do_pool_init (cnt cap : nat) : M Z :=
  let code := pool_init E cnt cap in
  emit (EvPoolInit code);;
  when (0 <=? code)%Z
    (base ← gets (fun st => length (heap (world st)));
     modify (with_world (fun w => set_heap (heap w ++
       map (fun i => {| refcnt := 0; owner := FromSamplePool;
                        smp := set_data (resize cap 0%Z (node.data (pool_memory E i))) (pool_memory E i) |})
           (seq 0 cnt)) w));;
     modify (with_this (set_mSamplePool
       {| node.pool_state := node.Initialized; node.pool_blocks := cnt;
          node.pool_capacity := cap; node.pool_queue := seq base cnt |})));;
  mret code.

(** [node::pool_destroy(&mSamplePool)] *)
Definition do_pool_destroy : M Z :=
  let code := pool_destroy E in
  emit (EvPoolDestroy code);;
  when (0 <=? code)%Z
    (modify (with_this (fun t => set_mSamplePool
       {| node.pool_state := node.Destroyed; node.pool_blocks := node.pool_blocks (mSamplePool t);
          node.pool_capacity := node.pool_capacity (mSamplePool t); node.pool_queue := [] |} t)));;
  mret code.

(** [InterfaceVillas::InterfaceVillas], the body after the initialiser list *)
Definition constructor_body : M unit :=
  mNodeType_ ← gets (fun st => mNodeType (this st));
  match node_type_lookup E mNodeType_ with
  | Some nodeTypeStruct =>
      modify (with_this (set_mNode (Some nodeTypeStruct)));;
      emit (EvNodeNew (node.type_name nodeTypeStruct));;
      mNodeConfig_ ← gets (fun st => mNodeConfig (this st));
      match json_loads E mNodeConfig_ with
      | inl error => throw (JsonError None error)
      | inr config =>
          let fakeSuperNodeUUID := uuid_generate_random E in
          _ ← the_node;
          let ret := node_parse E config fakeSuperNodeUUID in
          emit (EvNodeParse ret);;
          when (ret <? 0)%Z
            (log_error "Error: Node in InterfaceVillas failed to parse config. Parse returned code {}" [ArgInt ret];;
             std_exit 1);;
          let ret := node_check E in
          emit (EvNodeCheck ret);;
          when (ret <? 0)%Z
            (log_error "Error: Node in InterfaceVillas failed check. Check returned code {}" [ArgInt ret];;
             std_exit 1);;
          let ret := memory_init E 100 in
          emit (EvMemoryInit ret);;
          when (negb (ret =? 0)%Z)
            (throw (RuntimeError "Error: VillasNode failed to initialize memory system" []));;
          mQueueLenght_ ← gets (fun st => mQueueLenght (this st));
          mSampleLenght_ ← gets (fun st => mSampleLenght (this st));
          ret ← do_pool_init mQueueLenght_ mSampleLenght_;
          when (ret <? 0)%Z
            (log_error "Error: InterfaceVillas failed to init sample pool. pool_init returned code {}" [ArgInt ret];;
             std_exit 1);;
          let ret := node_prepare E in
          emit (EvNodePrepare ret);;
          when (ret <? 0)%Z
            (log_error "Error: Node in InterfaceVillas failed to prepare. Prepare returned code {}" [ArgInt ret];;
             std_exit 1)
      end
  | None =>
      log_error "Error: NodeType {} is not known to VILLASnode!" [ArgStr mNodeType_];;
      std_exit 1
  end.

(** [new InterfaceVillas(name, nodeType, nodeConfig, queueLenght,
    sampleLenght, downsampling)] in the world [w].  [name] and
    [downsampling] only go to the base class. *)
Definition construct (name nodeType nodeConfig : string)
    (queueLenght sampleLenght downsampling : nat) (w : World) : Res unit * State * list Event :=
  constructor_body
    {| this := members nodeType nodeConfig queueLenght sampleLenght;
       world := w;
       locals := {| sample := None; ret := 0; done := false |} |}.

(** [InterfaceVillas::close] *)
Definition close : M unit :=
  log_info "Closing InterfaceVillas..." [];;
  _ ← the_node;
  let ret := node_stop E in
  emit (EvNodeStop ret);;
  when (ret <? 0)%Z
    (log_error "Error: failed to stop node in InterfaceVillas. Stop returned code {}" [ArgInt ret];;
     std_exit 1);;
  modify (with_this (set_mOpened false));;
  ret ← do_pool_destroy;
  when (ret <? 0)%Z
    (log_error "Error: failed to destroy SamplePool in InterfaceVillas. pool_destroy returned code {}" [ArgInt ret];;
     std_exit 1).

(** [mLastSample->field = ...] *)
Definition last_sample_update (f : node.Sample -> node.Sample) : M unit :=
  p ← gets (fun st => mLastSample (this st));
  '(a, b) ← deref p;
  store a (set_smp (f (smp b)) b).

(** [std::memset(&s->data, 0, s->capacity * sizeof(float))] *)
Definition memset_data (s : node.Sample) : node.Sample :=
  set_data (replicate (node.capacity s) 0%Z ++ drop (node.capacity s) (node.data s)) s.

(** [InterfaceVillas::open]; the logger handle it stores is not modelled. *)
Definition open : M unit :=
  log_info "Opening InterfaceVillas..." [];;
  type ← the_node;
  let ret := node_type_start E type in
  emit (EvTypeStart ret);;
  when (negb (ret =? 0)%Z)
    (throw (RuntimeError "Failed to start node-type: {}" [ArgStr (node.type_name type)]));;
  let ret := node_start E in
  emit (EvNodeStart ret);;
  when (ret <? 0)%Z
    (log_error "Fatal error: failed to start node in InterfaceVillas. Start returned code {}" [ArgInt ret];;
     close;;
     std_exit 1);;
  modify (with_this (set_mOpened true));;
  modify (with_this (set_mSequence 0));;
  p ← sample_alloc;
  modify (with_this (set_mLastSample p));;
  last_sample_update (set_signals (Some (getInputSignals E)));;
  last_sample_update (set_sequence 0);;
  last_sample_update (set_ts_origin {| node.tv_sec := 0; node.tv_nsec := 0 |});;
  last_sample_update memset_data.

(** [InterfaceVillas::readValues] *)
Definition readValues (blocking : bool) : M unit :=
  put_sample None;;
  put_ret 0;;
  try_catch
    (fuel ← gets (fun st => S (length (node_reads (world st))));
     while fuel (r ← get_ret; mret (r =? 0)%Z)
       (r ← node_read; put_ret r);;
     ret ← get_ret;
     when (ret <? 0)%Z
       (log_error "Fatal error: failed to read sample from InterfaceVillas. Read returned code {}" [ArgInt ret];;
        close;;
        std_exit 1);;
     mImports_ ← gets (fun st => mImports (this st));
     for_hooks EvImport 0 mImports_;;
     sample ← get_sample;
     sample_decref sample)
    (fun exc =>
       sample ← get_sample;
       when (bool_decide (is_Some sample)) (sample_decref sample);;
       throw std_exception).

(** [clock_gettime(CLOCK_REALTIME, ...)] *)
Definition clock_gettime : M node.timespec :=
  n ← gets (fun st => ticks (world st));
  modify (with_world (set_ticks (S n)));;
  mret (clock_realtime E n).

(** [InterfaceVillas::writeValues] *)
Definition writeValues : M unit :=
  put_sample None;;
  put_ret 0;;
  put_done false;;
  try_catch
    (p ← sample_alloc;
     put_sample p;;
     _ ← the_node;
     sample_update (set_signals (Some (getInputSignals E)));;
     mExports_ ← gets (fun st => mExports (this st));
     for_hooks EvExport 0 mExports_;;
     mSequence_ ← gets (fun st => mSequence (this st));
     modify (with_this (set_mSequence (next_sequence mSequence_)));;
     sample_update (set_sequence mSequence_);;
     sample_update (fun s => set_flags (Z.lor (node.flags s) (HAS_DATA E)) s);;
     now ← clock_gettime;
     sample_update (set_ts_origin now);;
     put_done true;;
     fuel ← gets (fun st => length (node_writes (world st)));
     do_while fuel
       (sample ← get_sample; r ← node_write sample; put_ret r)
       (r ← get_ret; mret (r =? 0)%Z);;
     ret ← get_ret;
     when (ret <? 0)%Z
       (log_error "Failed to write samples to InterfaceVillas. Write returned code {}" [ArgInt ret]);;
     mLastSample_ ← gets (fun st => mLastSample (this st));
     sample ← get_sample;
     sample_copy mLastSample_ sample)
    (fun exc =>
       done ← get_done;
       when (negb done)
         (mLastSample_ ← gets (fun st => mLastSample (this st));
          put_sample mLastSample_);;
       fuel ← gets (fun st => S (length (node_writes (world st))));
       while fuel (r ← get_ret; mret (r =? 0)%Z)
         (sample ← get_sample; r ← node_write sample; put_ret r);;
       ret ← get_ret;
       when (ret <? 0)%Z
         (log_error "Failed to write samples to InterfaceVillas. Write returned code {}" [ArgInt ret])).

(** The operations the host calls on the object. *)
Inductive Call :=
| CallOpen
| CallClose
| CallReadValues (blocking : bool)
| CallWriteValues.

Definition call (c : Call) : M unit :=
  match c with
  | CallOpen => open
  | CallClose => close
  | CallReadValues blocking => readValues blocking
  | CallWriteValues => writeValues
  end.

End Adapter.

(** ** The loops, as functions of their inputs *)

Section Runs.

Context {H : Type}.
Variable E : Env.

Local Abbreviation M := (@M H).
Local Abbreviation State := (@State H).
Local Abbreviation Run A := (Res A * State * list Event)%type.

(** What [for_hooks] does to the host's state and to the sample: the hooks
    run in order up to the first that raises.  The list holds what each
    called hook did. *)
Fixpoint run_hooks (hooks : list (@Hook H)) (h : H) (s : node.Sample)
    : H * node.Sample * list (option string) * option Raised :=
  match hooks with
  | [] => (h, s, [], None)
  | hk :: rest =>
      match on_sample hk h s with
      | (h1, s1, Some r) => (h1, s1, [Some (what_of r)], Some r)
      | (h1, s1, None) =>
          match run_hooks rest h1 s1 with
          | (h2, s2, calls, thr) => (h2, s2, None :: calls, thr)
          end
      end
  end.

(** What [for_hooks] does when the pointer is null: the hooks run in order
    up to the first that raises or dereferences the pointer. *)
Fixpoint run_hooks_null (hooks : list (@Hook H)) (h : H)
    : H * list (option string) * Res unit :=
  match hooks with
  | [] => (h, [], Val tt)
  | hk :: rest =>
      match on_null hk h with
      | None => (h, [], Abort Crash)
      | Some (h1, Some r) => (h1, [Some (what_of r)], Abort (Throw (thrown r)))
      | Some (h1, None) =>
          match run_hooks_null rest h1 with
          | (h2, calls, res) => (h2, None :: calls, res)
          end
      end
  end.

Fixpoint hook_events (ev : nat -> option string -> Event) (i : nat)
    (calls : list (option string)) : list Event :=
  match calls with
  | [] => []
  | c :: rest => ev i c :: hook_events ev (S i) rest
  end.

Definition hooks_outcome (thr : option Raised) : Res unit :=
  match thr with
  | Some r => Abort (Throw (thrown r))
  | None => Val tt
  end.

(** What a retry loop around the node's write sees: the answers up to the
    first that is not the code 0. *)
Fixpoint write_retry (p : option ptr) (s : option node.Sample) (ws : list Response)
    : Res Z * list Response * list Event :=
  match ws with
  | [] => (Abort Diverge, [], [])
  | Returns c :: rest =>
      if (c =? 0)%Z then
        match write_retry p s rest with
        | (r, rest', evs) => (r, rest', EvWrite p s (Returns c) :: evs)
        end
      else (Val c, rest, [EvWrite p s (Returns c)])
  | Throws what :: rest =>
      (Abort (Throw (NodeError what)), rest, [EvWrite p s (Throws what)])
  end.

Definition retry_code (r : Res Z) : Z :=
  match r with
  | Val c => c
  | Abort _ => 0
  end.

Definition retry_outcome (r : Res Z) : Res unit :=
  match r with
  | Val _ => Val tt
  | Abort c => Abort c
  end.

(** ** What a run shows *)

Definition is_write (e : Event) : bool :=
  match e with
  | EvWrite _ _ _ => true
  | _ => false
  end.

(** The calls of the node's write among the events of a run. *)
Definition writes_of (evs : list Event) : list Event := List.filter is_write evs.

Definition is_import (e : Event) : bool :=
  match e with
  | EvImport _ _ => true
  | _ => false
  end.

(** The calls of importer hooks among the events of a run. *)
Definition imports_of (evs : list Event) : list Event := List.filter is_import evs.

Definition no_decref (e : Event) : bool :=
  match e with
  | EvDecref _ => false
  | _ => true
  end.

Definition no_import (e : Event) : bool :=
  match e with
  | EvImport _ _ => false
  | _ => true
  end.

Definition no_catch (e : Event) : bool :=
  match e with
  | EvCatch _ => false
  | _ => true
  end.

Definition no_raising_export (e : Event) : bool :=
  match e with
  | EvExport _ (Some _) => false
  | _ => true
  end.

(** [flags & flag] is [flag] *)
Definition has_flag (flags flag : Z) : bool := (Z.land flags flag =? flag)%Z.

(** The sample behind a pointer. *)
Definition content (st : State) (p : option ptr) : option node.Sample :=
  smp <$> (p ≫= fun a => heap (world st) !! a).

(** The events of a call without an exception and without a negative
    code from the node's write. *)
Definition acknowledged (e : Event) : bool :=
  match e with
  | EvCatch _ => false
  | EvWrite _ _ (Returns c) => (0 <=? c)%Z
  | EvWrite _ _ (Throws _) => false
  | _ => true
  end.

(** Successful calls of [writeValues], one after the other, with the
    events of each call; calls of [readValues] that return may come between
    them. *)
Inductive successful_writes : State -> list (list Event) -> State -> Prop :=
| no_write st : successful_writes st [] st
| one_more_write st st1 st' evs tr :
    writeValues E st = (Val tt, st1, evs) ->
    forallb acknowledged evs = true ->
    successful_writes st1 tr st' ->
    successful_writes st (evs :: tr) st'
| read_between st st1 st' blocking evs tr :
    readValues E blocking st = (Val tt, st1, evs) ->
    successful_writes st1 tr st' ->
    successful_writes st tr st'.

(** The last-good sample is not among the free blocks of the pool. *)
Definition last_sample_held (st : State) : Prop :=
  forall l, mLastSample (this st) = Some l ->
            l ∉ node.pool_queue (mSamplePool (this st)).

(** The states of an adapter between its construction and [open]. *)
Inductive configured : State -> Prop :=
| after_construct name nodeType nodeConfig q len d w st evs :
    construct E name nodeType nodeConfig q len d w = (Val tt, st, evs) ->
    configured st
| after_addImport st st' evs l :
    configured st -> addImport l st = (Val tt, st', evs) -> configured st'
| after_addExport st st' evs l :
    configured st -> addExport l st = (Val tt, st', evs) -> configured st'.

(** The states of an open adapter. *)
Inductive running : State -> Prop :=
| after_open st0 st evs :
    configured st0 -> open E st0 = (Val tt, st, evs) -> running st
| after_writeValues st st' evs :
    running st -> writeValues E st = (Val tt, st', evs) -> running st'
| after_readValues st st' blocking evs :
    running st -> readValues E blocking st = (Val tt, st', evs) -> running st'.

(** Calls of [readValues] and [writeValues] on an open adapter, one after
    the other, each of them returning. *)
Definition is_tick (c : Call) : bool :=
  match c with
  | CallReadValues _ | CallWriteValues => true
  | CallOpen | CallClose => false
  end.

Definition is_send (c : Call) : bool :=
  match c with
  | CallWriteValues => true
  | _ => false
  end.

Inductive ticks_returned : State -> list Call -> State -> Prop :=
| no_tick st : ticks_returned st [] st
| one_more_tick st st1 st' c evs cs :
    is_tick c = true ->
    call E c st = (Val tt, st1, evs) ->
    ticks_returned st1 cs st' ->
    ticks_returned st (c :: cs) st'.

(** The local [sample] is null or the only reference to a sample of the
    transport. *)
Definition sample_owned (st : State) : Prop :=
  forall a, sample (locals st) = Some a ->
    exists b, heap (world st) !! a = Some b /\ refcnt b = 1%Z /\ owner b = FromTransport.

Definition is_decref (e : Event) : bool :=
  match e with
  | EvDecref _ => true
  | _ => false
  end.

Definition is_read (e : Event) : bool :=
  match e with
  | EvRead _ _ => true
  | _ => false
  end.

(** The events of the receiving side: no block is taken from the pool, no
    exporter is called, nothing is written to the node. *)
Definition no_send (e : Event) : bool :=
  match e with
  | EvAlloc _ | EvExport _ _ | EvWrite _ _ _ => false
  | _ => true
  end.

(** A read on which the node had nothing yet (the code 0). *)
Definition busy_read (e : Event) : Prop := exists p, e = EvRead (Returns 0) p.

(** The object exists: the constructor has made the node. *)
Definition constructed (st : State) : Prop := is_Some (mNode (this st)).

(** ** Runs, step by step *)

Definition with_events {A} (es : list Event) (x : Run A) : Run A :=
  match x with (r, st, e2) => (r, st, es ++ e2) end.

Definition bind_res {A B} (x : Run A) (k : A -> M B) : Run B :=
  match x with
  | (Val a, st1, e1) => with_events e1 (k a st1)
  | (Abort c, st1, e1) => (Abort c, st1, e1)
  end.

Definition catch_res {A} (x : Run A) (handler : exception -> M A) : Run A :=
  match x with
  | (Abort (Throw e), st1, e1) =>
      if is_std_exception e then with_events (e1 ++ [EvCatch e]) (handler e st1)
      else (Abort (Throw e), st1, e1)
  | other => other
  end.

(** The state after the hooks ran on the sample at [a]. *)
Definition hooked (a : ptr) (b : Block) (h' : H) (s' : node.Sample) (st : State) : State :=
  with_world (fun w => set_heap (<[a := set_smp s' b]> (heap w)) (set_host h' w)) st.

(** The state after a retry loop. *)
Definition written (r : Res Z) (rest : list Response) (st : State) : State :=
  with_locals (set_ret (retry_code r)) (with_world (set_node_writes rest) st).

(** The sample of a fresh block when the exporters get it. *)
Definition fresh_sample (cap : nat) (s : node.Sample) : node.Sample :=
  set_signals (Some (getInputSignals E)) (sample_init cap s).

(** The framing of [writeValues]: sequence number, flag and time. *)
Definition framed (z : Z) (t : node.timespec) (s : node.Sample) : node.Sample :=
  set_ts_origin t (set_flags (Z.lor (node.flags s) (HAS_DATA E)) (set_sequence z s)).

(** What [writeValues] does after the exporters, when the block [a] holds
    the framed sample [s]: it writes this sample, and it may catch and
    log. *)
Definition sends (a : ptr) (s : node.Sample) (e : Event) : Prop :=
  match e with
  | EvWrite p x _ => p = Some a /\ x = Some s
  | EvLog _ _ _ | EvCatch _ => True
  | _ => False
  end.

(** The log entry after a retry loop that ended with a negative code. *)
Definition write_failed_log (r : Res Z) : list Event :=
  match r with
  | Val c =>
      if (c <? 0)%Z
      then [EvLog Error "Failed to write samples to InterfaceVillas. Write returned code {}" [ArgInt c]]
      else []
  | Abort _ => []
  end.

(** The members after [close] has destroyed the pool. *)
Definition closed_pool (t : @InterfaceVillas H) : @InterfaceVillas H :=
  set_mSamplePool
    {| node.pool_state := node.Destroyed; node.pool_blocks := node.pool_blocks (mSamplePool t);
       node.pool_capacity := node.pool_capacity (mSamplePool t); node.pool_queue := [] |}
    (set_mOpened false t).

(** All events of every run of [m] satisfy [P]. *)
Definition emits {A} (P : Event -> Prop) (m : M A) : Prop :=
  forall st r st' evs, m st = (r, st', evs) -> Forall P evs.

(** Every run of [m] leaves [g] of the members as it was. *)
Definition keeps {A X} (g : InterfaceVillas -> X) (m : M A) : Prop :=
  forall st r st' evs, m st = (r, st', evs) -> g (this st') = g (this st).

End Runs.

(** ** A concrete instance: a loopback node, zeroed pool memory *)

Module Demo.

Definition zeroed : node.Sample :=
  {| node.sequence := 0; node.ts_origin := {| node.tv_sec := 0; node.tv_nsec := 0 |};
     node.flags := 0; node.signals := None; node.length := 0; node.capacity := 0;
     node.data := [] |}.

Definition parse_error : json_error_t :=
  {| err_line := 1; err_column := 1; err_position := 1;
     err_text := "string or '}' expected near end of file" |}.

(** [memory] is the code of [memory::init], [type_start] the code of
    [node_type_start]. *)
Definition env (memory type_start : Z) : Env :=
  {| node_type_lookup := fun s =>
       if String.eqb s "loopback" then Some {| node.type_name := "loopback" |} else None;
     json_loads := fun s => if String.eqb s "{}" then inr s else inl parse_error;
     uuid_generate_random := 42;
     node_parse := fun _ _ => 0%Z;
     node_check := 0;
     memory_init := fun _ => memory;
     pool_init := fun _ _ => 0%Z;
     node_prepare := 0;
     node_type_start := fun _ => type_start;
     node_start := 0;
     node_stop := 0;
     pool_destroy := 0;
     getInputSignals := ["v1"; "v2"];
     clock_realtime := fun n => {| node.tv_sec := 1000 + Z.of_nat n; node.tv_nsec := 0 |};
     pool_memory := fun _ => zeroed;
     indeterminate_mSequence := 12345;
     indeterminate_mOpened := true;
     indeterminate_mLastSample := Some 9;
     HAS_DATA := Z.shiftl 1 4 |}.

(** The host counts its ticks; the exporter writes the count to [data[0]]
    and so dereferences the pointer it gets. *)
Definition export_tick : @Hook nat :=
  {| on_sample := fun h s =>
       (S h,
        {| node.sequence := node.sequence s; node.ts_origin := node.ts_origin s;
           node.flags := node.flags s; node.signals := node.signals s;
           node.length := 1; node.capacity := node.capacity s;
           node.data := <[0 := Z.of_nat h]> (node.data s) |},
        None);
     on_null := fun _ => None |}.

(** A hook that raises a [std::exception], and one that raises another
    object; neither looks at the sample. *)
Definition raising : @Hook nat :=
  {| on_sample := fun h s => (h, s, Some (StdError "boom"));
     on_null := fun h => Some (h, Some (StdError "boom")) |}.

Definition raising_other : @Hook nat :=
  {| on_sample := fun h s => (h, s, Some (OtherObject "boom"));
     on_null := fun h => Some (h, Some (OtherObject "boom")) |}.

(** An importer that counts the calls and does not look at the sample. *)
Definition import_tick : @Hook nat :=
  {| on_sample := fun h s => (S h, s, None);
     on_null := fun h => Some (S h, None) |}.

Definition arrived : node.Sample :=
  {| node.sequence := 7; node.ts_origin := {| node.tv_sec := 999; node.tv_nsec := 5 |};
     node.flags := 16; node.signals := None; node.length := 2; node.capacity := 2;
     node.data := [3; 4]%Z |}.

Definition world0 (ws : list Response) (rs : list ReadResponse) : @World nat :=
  {| host := 0; heap := []; node_writes := ws; node_reads := rs; ticks := 0 |}.

Fixpoint register (add : @Hook nat -> @M nat unit) (hooks : list (@Hook nat)) : @M nat unit :=
  match hooks with
  | [] => mret tt
  | hook :: rest => add hook;; register add rest
  end.

(** A new adapter on the loopback node with [queue] samples of two values
    each, its hooks registered. *)
Definition built (E : Env) (config : string) (queue : nat) (exports imports : list (@Hook nat))
    (ws : list Response) (rs : list ReadResponse) : Res unit * @State nat * list Event :=
  bind_res (construct E "dpsim" "loopback" config queue 2 1 (world0 ws rs))
    (fun _ => register addExport exports;; register addImport imports).

(** The same adapter after [open]. *)
Definition opened (queue : nat) (exports imports : list (@Hook nat))
    (ws : list Response) (rs : list ReadResponse) : Res unit * @State nat * list Event :=
  bind_res (built (env 0 0) "{}" queue exports imports ws rs) (fun _ => open (env 0 0)).

(** Three ticks: the node is busy once, then takes every sample; a sample
    arrives after the first tick. *)
Definition before_open : @State nat :=
  (built (env 0 0) "{}" 5 [export_tick] [import_tick]
     [Returns 0; Returns 1; Returns 1; Returns 1]
     [{| rd_response := Returns 1; rd_sample := Some arrived |}]).1.2.
Definition run_open := open (env 0 0) before_open.
Definition tick1 := writeValues (env 0 0) run_open.1.2.
Definition read1 := readValues (env 0 0) true tick1.1.2.
Definition tick2 := writeValues (env 0 0) read1.1.2.
Definition tick3 := writeValues (env 0 0) tick2.1.2.

(** The exporter raises on the first tick. *)
Definition before_failing_export : @State nat :=
  (built (env 0 0) "{}" 5 [raising] [] [Returns 0; Returns 1] []).1.2.
Definition failing_export :=
  writeValues (env 0 0) (open (env 0 0) before_failing_export).1.2.



(** The node refuses the sample with a negative code. *)
Definition before_refused_write : @State nat :=
  (opened 5 [export_tick] [] [Returns (-1)] []).1.2.
Definition refused_write := writeValues (env 0 0) before_refused_write.

(** A pool of two samples: one is the last-good sample, one is left. *)
Definition before_leak : @State nat :=
  (opened 2 [export_tick] [] [Returns 1; Returns 1] []).1.2.
Definition leak := writeValues (env 0 0) before_leak.

(** A sample arrives and the second importer raises. *)
Definition before_failing_import : @State nat :=
  (opened 5 [] [import_tick; raising; import_tick] []
     [{| rd_response := Returns 0; rd_sample := None |};
      {| rd_response := Returns 1; rd_sample := Some arrived |}]).1.2.
Definition failing_import := readValues (env 0 0) true before_failing_import.

(** The environment of a node whose lifecycle steps answer with the given
    codes. *)
Definition env_codes (parse check pool prepare start stop destroy : Z) : Env :=
  {| node_type_lookup := node_type_lookup (env 0 0);
     json_loads := json_loads (env 0 0);
     uuid_generate_random := 42;
     node_parse := fun _ _ => parse;
     node_check := check;
     memory_init := fun _ => 0%Z;
     pool_init := fun _ _ => pool;
     node_prepare := prepare;
     node_type_start := fun _ => 0%Z;
     node_start := start;
     node_stop := stop;
     pool_destroy := destroy;
     getInputSignals := ["v1"; "v2"];
     clock_realtime := clock_realtime (env 0 0);
     pool_memory := fun _ => zeroed;
     indeterminate_mSequence := 12345;
     indeterminate_mOpened := true;
     indeterminate_mLastSample := Some 9;
     HAS_DATA := Z.shiftl 1 4 |}.

(** An exporter that raises from the second tick on. *)
Definition export_once : @Hook nat :=
  {| on_sample := fun h s =>
       if (h =? 0)%nat then on_sample export_tick h s else (h, s, Some (StdError "late"));
     on_null := fun _ => None |}.

(** The node takes the first sample; on the second tick the exporter
    raises. *)
Definition before_late_export : @State nat :=
  (opened 5 [export_once] [] [Returns 1; Returns 0; Returns 1] []).1.2.
Definition accepted := writeValues (env 0 0) before_late_export.
Definition late_export := writeValues (env 0 0) accepted.1.2.

(** The block at the address [a]. *)
Definition block (st : @State nat) (a : ptr) : Block :=
  default {| refcnt := 0; owner := FromSamplePool; smp := zeroed |} (heap (world st) !! a).

(** The sample in the block [a] after a run. *)
Definition held (run : Res unit * @State nat * list Event) (a : ptr) : node.Sample :=
  default zeroed (content run.1.2 (Some a)).

(** The node's read fails with the code -1. *)
Definition before_failing_read : @State nat :=
  (opened 5 [] [import_tick] []
     [{| rd_response := Returns 0; rd_sample := None |};
      {| rd_response := Returns (-1); rd_sample := None |}]).1.2.
Definition failing_read := readValues (env 0 0) true before_failing_read.

(** The node's read raises after it has handed over a sample. *)
Definition before_raising_read : @State nat :=
  (opened 5 [] [import_tick] []
     [{| rd_response := Returns 0; rd_sample := Some arrived |};
      {| rd_response := Throws "down"; rd_sample := None |}]).1.2.
Definition raising_read := readValues (env 0 0) true before_raising_read.

(** A node that does not start, and a pool without samples. *)
Definition before_failing_start : @State nat :=
  (built (env_codes 0 0 0 0 (-1) 0 0) "{}" 5 [] [] [] []).1.2.
Definition before_empty_pool : @State nat :=
  (built (env 0 0) "{}" 0 [] [] [] []).1.2.


(** A sample arrives and the second importer raises an object that is not
    a [std::exception]. *)
Definition before_foreign_import : @State nat :=
  (opened 5 [] [import_tick; raising_other; import_tick] []
     [{| rd_response := Returns 1; rd_sample := Some arrived |}]).1.2.
Definition foreign_import := readValues (env 0 0) true before_foreign_import.

(** The node's read answers 1 without handing over a sample, and the
    second importer raises. *)
Definition before_null_import : @State nat :=
  (opened 5 [] [import_tick; raising; import_tick] []
     [{| rd_response := Returns 1; rd_sample := None |}]).1.2.
Definition null_import := readValues (env 0 0) true before_null_import.

End Demo.

(** * Properties *)

Section Properties.

Context {H : Type}.
Variable E : Env.

Local Abbreviation M := (@M H).
Local Abbreviation State := (@State H).
Local Abbreviation World := (@World H).
Local Abbreviation Run A := (Res A * State * list Event)%type.

(** ** Running a sequence of operations *)

Lemma run_bind {A B} (m : M A) (k : A -> M B) st : (m ≫= k) st = bind_res (m st) k.
Proof.
  unfold mbind, M_bind, bind_res, with_events.
  destruct (m st) as [[[a|c] st1] e1]; reflexivity.
Qed.

Lemma run_try_catch {A} (body : M A) handler st :
  try_catch body handler st = catch_res (body st) handler.
Proof.
  unfold try_catch, catch_res, with_events.
  destruct (body st) as [[[a|[e| | |]] st1] e1]; try reflexivity.
  destruct (is_std_exception e); [|done].
  destruct (handler e st1) as [[r st2] e2]. by rewrite <- app_assoc.
Qed.

Lemma with_events_nil {A} (x : Run A) : with_events [] x = x.
Proof. by destruct x as [[? ?] ?]. Qed.

Lemma with_events_app {A} es1 es2 (x : Run A) :
  with_events es1 (with_events es2 x) = with_events (es1 ++ es2) x.
Proof. destruct x as [[? ?] ?]; simpl. by rewrite app_assoc. Qed.

Lemma catch_res_with_events {A} es (x : Run A) handler :
  catch_res (with_events es x) handler = with_events es (catch_res x handler).
Proof.
  destruct x as [[[a|[e| | |]] st1] e1]; try reflexivity.
  simpl. destruct (is_std_exception e); [|done].
  rewrite with_events_app. by rewrite app_assoc.
Qed.

Lemma run_ret {A B} (a : A) (k : A -> M B) st : (mret a ≫= k) st = k a st.
Proof. rewrite run_bind. apply with_events_nil. Qed.

Lemma run_gets {A B} (f : State -> A) (k : A -> M B) st : (gets f ≫= k) st = k (f st) st.
Proof. rewrite run_bind. apply with_events_nil. Qed.

Lemma run_modify {B} f (k : unit -> M B) st : (modify f ≫= k) st = k tt (f st).
Proof. rewrite run_bind. apply with_events_nil. Qed.

Lemma run_emit {B} e (k : unit -> M B) st : (emit e ≫= k) st = with_events [e] (k tt st).
Proof. by rewrite run_bind. Qed.

Lemma run_abort {A B} c (k : A -> M B) st : (abort c ≫= k) st = (Abort c, st, []).
Proof. by rewrite run_bind. Qed.

Lemma run_throw {A B} e (k : A -> M B) st : (throw e ≫= k) st = (Abort (Throw e), st, []).
Proof. apply run_abort. Qed.

Lemma run_std_exit {A B} c (k : A -> M B) st : (std_exit c ≫= k) st = (Abort (Exit c), st, []).
Proof. apply run_abort. Qed.

Lemma run_assoc {A B C} (m : M A) (f : A -> M B) (k : B -> M C) st :
  ((m ≫= f) ≫= k) st = (m ≫= (fun x => f x ≫= k)) st.
Proof.
  rewrite !run_bind. destruct (m st) as [[[a|c] st1] e1]; simpl; [|done].
  rewrite run_bind. destruct (f a st1) as [[[b|c] st2] e2]; simpl; [|done].
  destruct (k b st2) as [[? ?] ?]; simpl. by rewrite app_assoc.
Qed.

Lemma run_tail {A} (m : M A) st : m st = (m ≫= mret) st.
Proof.
  rewrite run_bind. destruct (m st) as [[[a|c] st1] e1]; simpl; [|done].
  by rewrite app_nil_r.
Qed.

Lemma run_deref {B} p (k : ptr * Block -> M B) st :
  (deref p ≫= k) st =
  match p with
  | Some a =>
      match heap (world st) !! a with
      | Some b => k (a, b) st
      | None => (Abort Crash, st, [])
      end
  | None => (Abort Crash, st, [])
  end.
Proof.
  rewrite run_bind. unfold deref. destruct p as [a|]; [|done].
  destruct (heap (world st) !! a); [|done]. apply with_events_nil.
Qed.

Lemma run_the_node {B} (k : node.NodeType -> M B) st :
  (the_node ≫= k) st =
  match mNode (this st) with
  | Some n => k n st
  | None => (Abort Crash, st, [])
  end.
Proof.
  rewrite run_bind. unfold the_node.
  destruct (mNode (this st)); [|done]. apply with_events_nil.
Qed.

Lemma run_get_sample {B} (k : option ptr -> M B) (st : State) :
  (get_sample ≫= k) st = k (sample (locals st)) st.
Proof. exact (run_gets _ k st). Qed.

Lemma run_get_ret {B} (k : Z -> M B) (st : State) :
  (get_ret ≫= k) st = k (ret (locals st)) st.
Proof. exact (run_gets _ k st). Qed.

Lemma run_get_done {B} (k : bool -> M B) (st : State) :
  (get_done ≫= k) st = k (done (locals st)) st.
Proof. exact (run_gets _ k st). Qed.

Lemma run_put_sample {B} p (k : unit -> M B) (st : State) :
  (put_sample p ≫= k) st = k tt (with_locals (set_sample p) st).
Proof. exact (run_modify _ k st). Qed.

Lemma run_put_ret {B} z (k : unit -> M B) (st : State) :
  (put_ret z ≫= k) st = k tt (with_locals (set_ret z) st).
Proof. exact (run_modify _ k st). Qed.

Lemma run_put_done {B} b (k : unit -> M B) (st : State) :
  (put_done b ≫= k) st = k tt (with_locals (set_done b) st).
Proof. exact (run_modify _ k st). Qed.

Lemma run_log_error {B} fmt args (k : unit -> M B) (st : State) :
  (log_error fmt args ≫= k) st = with_events [EvLog Error fmt args] (k tt st).
Proof. exact (run_emit _ k st). Qed.

Lemma run_log_info {B} fmt args (k : unit -> M B) (st : State) :
  (log_info fmt args ≫= k) st = with_events [EvLog Info fmt args] (k tt st).
Proof. exact (run_emit _ k st). Qed.

Lemma run_clock_gettime {B} (k : node.timespec -> M B) (st : State) :
  (clock_gettime E ≫= k) st =
  k (clock_realtime E (ticks (world st))) (with_world (set_ticks (S (ticks (world st)))) st).
Proof. unfold clock_gettime. by rewrite run_assoc, run_gets, run_assoc, run_modify, run_ret. Qed.

Lemma run_sample_update {B} f (k : unit -> M B) (st : State) :
  (sample_update f ≫= k) st =
  match sample (locals st) with
  | Some a =>
      match heap (world st) !! a with
      | Some b => k tt (with_world (fun w => set_heap (<[a := set_smp (f (smp b)) b]> (heap w)) w) st)
      | None => (Abort Crash, st, [])
      end
  | None => (Abort Crash, st, [])
  end.
Proof.
  unfold sample_update, get_sample, store.
  rewrite run_assoc, run_gets. cbn beta. rewrite run_assoc, run_deref.
  destruct (sample (locals st)) as [a|]; [|done].
  destruct (heap (world st) !! a) as [b|]; [|done].
  by rewrite run_modify.
Qed.

Lemma run_last_sample_update {B} f (k : unit -> M B) (st : State) :
  (last_sample_update f ≫= k) st =
  match mLastSample (this st) with
  | Some a =>
      match heap (world st) !! a with
      | Some b => k tt (with_world (fun w => set_heap (<[a := set_smp (f (smp b)) b]> (heap w)) w) st)
      | None => (Abort Crash, st, [])
      end
  | None => (Abort Crash, st, [])
  end.
Proof.
  unfold last_sample_update, store.
  rewrite run_assoc, run_gets. cbn beta. rewrite run_assoc, run_deref.
  destruct (mLastSample (this st)) as [a|]; [|done].
  destruct (heap (world st) !! a) as [b|]; [|done].
  by rewrite run_modify.
Qed.

Lemma run_sample_alloc {B} (k : option ptr -> M B) (st : State) :
  (sample_alloc ≫= k) st =
  match node.pool_queue (mSamplePool (this st)) with
  | [] => with_events [EvAlloc None] (k None st)
  | a :: q =>
      with_events [EvAlloc (Some a)]
        (k (Some a)
           (with_world (fun w =>
              set_heap (alter (fun b => set_refcnt 1
                 (set_smp (sample_init (node.pool_capacity (mSamplePool (this st))) (smp b)) b))
                 a (heap w)) w)
              (with_this (set_mSamplePool (set_pool_queue q (mSamplePool (this st)))) st)))
  end.
Proof.
  unfold sample_alloc. rewrite run_assoc, run_gets. cbn beta.
  destruct (node.pool_queue (mSamplePool (this st))) as [|a q].
  - by rewrite run_assoc, run_emit, run_ret.
  - by rewrite run_assoc, run_modify, run_assoc, run_modify, run_assoc, run_emit, run_ret.
Qed.

Ltac mstep :=
  first [ rewrite run_assoc | rewrite run_ret | rewrite run_gets | rewrite run_modify
        | rewrite run_emit | rewrite run_abort | rewrite run_throw | rewrite run_std_exit
        | rewrite run_get_sample | rewrite run_get_ret | rewrite run_get_done
        | rewrite run_put_sample | rewrite run_put_ret | rewrite run_put_done
        | rewrite run_log_error | rewrite run_log_info | rewrite run_clock_gettime ];
  cbn beta.

(** States as records of their fields. *)
Ltac norm :=
  cbv [with_this with_world with_locals hooked written
       members set_mNode set_mSamplePool set_mOpened set_mSequence set_mLastSample
       set_mImports set_mExports set_host set_heap set_node_writes set_node_reads
       set_ticks set_sample set_ret set_done set_pool_queue
       set_smp set_refcnt smp refcnt owner
       this world locals
       mNodeType mNodeConfig mQueueLenght mSampleLenght mNode mSamplePool mOpened
       mSequence mLastSample mImports mExports
       host heap node_writes node_reads ticks sample ret done
       node.pool_state node.pool_blocks node.pool_capacity node.pool_queue].

(** The events of a finished run. *)
Ltac finish := cbn [with_events bind_res catch_res is_std_exception app].

Ltac msteps := cbn; repeat (progress (repeat mstep; cbn)).

(** ** States *)

Lemma set_smp_id (b : Block) : set_smp (smp b) b = b.
Proof. by destruct b. Qed.

Lemma hooked_id a b (st : State) :
  heap (world st) !! a = Some b -> hooked a b (host (world st)) (smp b) st = st.
Proof.
  intros Hb. destruct st as [t w l]; destruct w; unfold hooked, with_world; cbn in *.
  by rewrite set_smp_id, list_insert_id.
Qed.

Lemma hooked_hooked a b h1 s1 h2 s2 (st : State) :
  hooked a (set_smp s1 b) h2 s2 (hooked a b h1 s1 st) = hooked a b h2 s2 st.
Proof.
  destruct st as [t w l]; destruct w; unfold hooked, with_world; cbn.
  by rewrite list_insert_insert_eq.
Qed.

Lemma written_id (st : State) :
  ret (locals st) = 0%Z -> written (Abort Diverge) (node_writes (world st)) st = st.
Proof.
  intros Hr. destruct st as [t w l]; destruct w, l; cbn in *. by subst.
Qed.

Lemma written_throw what rest (st : State) :
  ret (locals st) = 0%Z ->
  written (Abort (Throw (NodeError what))) rest st = with_world (set_node_writes rest) st.
Proof.
  intros Hr. destruct st as [t w l]; destruct w, l; cbn in *. by subst.
Qed.

Lemma written_written r rest r' rest' (st : State) :
  written r' rest' (written r rest st) = written r' rest' st.
Proof. by destruct st as [t w l]; destruct w, l. Qed.

(** ** The hooks *)

Lemma for_hooks_run ev hooks : forall i (st : State) a b,
  sample (locals st) = Some a ->
  heap (world st) !! a = Some b ->
  for_hooks ev i hooks st =
    match run_hooks hooks (host (world st)) (smp b) with
    | (h', s', calls, thr) =>
        (hooks_outcome thr, hooked a b h' s' st, hook_events ev i calls)
    end.
Proof.
  induction hooks as [|hk rest IH]; intros i st a b Hs Hb; simpl.
  - by rewrite hooked_id.
  - unfold call_hook, get_sample, store.
    rewrite run_assoc, run_gets, Hs. cbn beta.
    rewrite run_assoc, run_gets. cbn beta iota.
    rewrite run_assoc, run_deref, Hb. cbn beta iota.
    destruct (on_sample hk (host (world st)) (smp b)) as [[h1 s1] thr] eqn:Hhk.
    rewrite !run_assoc, run_modify, run_assoc, run_modify, run_assoc, run_emit.
    change (with_world _ (with_world (set_host h1) st)) with (hooked a b h1 s1 st).
    destruct thr as [r|].
    + unfold throw. by rewrite run_abort.
    + rewrite run_ret.
      rewrite (IH (S i) _ a (set_smp s1 b)); first last.
      { cbn. apply list_lookup_insert_eq. by eapply lookup_lt_Some. }
      { done. }
      cbn [hooked with_world world host set_heap set_host smp set_smp].
      destruct (run_hooks rest h1 s1) as [[[h2 s2] calls] thr].
      cbn [with_events app]. by rewrite hooked_hooked.
Qed.

(** With the null pointer the hooks run all the same. *)
Lemma for_hooks_null_run ev hooks : forall i (st : State),
  sample (locals st) = None ->
  for_hooks ev i hooks st =
    match run_hooks_null hooks (host (world st)) with
    | (h', calls, res) => (res, with_world (set_host h') st, hook_events ev i calls)
    end.
Proof.
  induction hooks as [|hk rest IH]; intros i st Hs; simpl.
  - by destruct st as [t w l]; destruct w.
  - unfold call_hook, get_sample.
    rewrite run_assoc, run_gets, Hs. cbn beta.
    rewrite run_assoc, run_gets. cbn beta iota.
    destruct (on_null hk (host (world st))) as [[h1 thr]|] eqn:Hhk.
    + rewrite !run_assoc, run_modify, run_assoc, run_emit.
      destruct thr as [r|].
      * unfold throw. by rewrite run_abort.
      * rewrite run_ret. rewrite (IH (S i)) by done.
        cbn [with_world world host set_host].
        destruct (run_hooks_null rest h1) as [[h2 calls] res].
        cbn [with_events app]. by destruct st as [t w l]; destruct w.
    + rewrite run_abort. by destruct st as [t w l]; destruct w.
Qed.

(** With a dangling pointer the call of the first hook is undefined. *)
Lemma for_hooks_dangling ev (hooks : list (@Hook H)) i (st : State) a :
  sample (locals st) = Some a ->
  heap (world st) !! a = None ->
  for_hooks ev i hooks st =
    (match hooks with [] => Val tt | _ => Abort Crash end, st, []).
Proof.
  intros Hs Hb. destruct hooks as [|hk rest]; [done|]. simpl.
  unfold call_hook. rewrite !run_assoc, run_get_sample, Hs, run_assoc, run_gets.
  cbn beta iota. by rewrite run_assoc, run_deref, Hb.
Qed.

Lemma run_hooks_calls (hooks : list (@Hook H)) : forall h s h' s' calls thr,
  run_hooks hooks h s = (h', s', calls, thr) ->
  length calls <= length hooks /\
  match thr with
  | Some r => exists pre, calls = pre ++ [Some (what_of r)] /\ Forall (fun c => c = None) pre
  | None => Forall (fun c => c = None) calls
  end.
Proof.
  induction hooks as [|hk rest IH]; intros h s h' s' calls thr; simpl.
  - intros [= <- <- <- <-]. split; [done|constructor].
  - destruct (on_sample hk h s) as [[h1 s1] [r|]].
    + intros [= <- <- <- <-]. split; [simpl; lia|]. exists []. by split; [|constructor].
    + destruct (run_hooks rest h1 s1) as [[[h2 s2] calls2] thr2] eqn:Hrest.
      intros [= <- <- <- <-]. destruct (IH _ _ _ _ _ _ Hrest) as [Hlen Hthr].
      split; [simpl; lia|]. destruct thr2 as [r|].
      * destruct Hthr as (pre & -> & Hpre). exists (None :: pre). split; [done|by constructor].
      * by constructor.
Qed.

Lemma run_hooks_null_calls (hooks : list (@Hook H)) : forall h h' calls res,
  run_hooks_null hooks h = (h', calls, res) ->
  length calls <= length hooks /\
  match res with
  | Val _ => Forall (fun c => c = None) calls /\ length calls = length hooks
  | Abort (Throw e) =>
      exists r pre, e = thrown r /\ calls = pre ++ [Some (what_of r)] /\
                    Forall (fun c => c = None) pre
  | Abort Crash => Forall (fun c => c = None) calls
  | Abort _ => False
  end.
Proof.
  induction hooks as [|hk rest IH]; intros h h' calls res; simpl.
  - intros [= <- <- <-]. by split; [|split; [constructor|]].
  - destruct (on_null hk h) as [[h1 [r|]]|].
    + intros [= <- <- <-]. split; [simpl; lia|]. exists r, []. by split; [|split; [|constructor]].
    + destruct (run_hooks_null rest h1) as [[h2 calls2] res2] eqn:Hrest.
      intros [= <- <- <-]. destruct (IH _ _ _ _ Hrest) as [Hlen Hres].
      split; [simpl; lia|]. destruct res2 as [[]|[e|c| |]].
      * destruct Hres as [Hall Hl]. split; [by constructor|simpl; lia].
      * destruct Hres as (r & pre & -> & -> & Hpre). exists r, (None :: pre).
        split; [done|]. split; [done|by constructor].
      * done.
      * by constructor.
      * done.
    + intros [= <- <- <-]. split; [simpl; lia|]. constructor.
Qed.

(** ** The retry loop around the node's write *)

(** What the retry loop raises is what the node's write raised. *)
Lemma write_retry_node_error p s ws : forall e rest wevs,
  write_retry p s ws = (Abort (Throw e), rest, wevs) -> exists what, e = NodeError what.
Proof.
  induction ws as [|[c|what] ws IH]; intros e rest wevs; simpl; [done| |].
  - destruct (c =? 0)%Z; [|done].
    destruct (write_retry p s ws) as [[r rest'] evs'] eqn:Hrest.
    intros [= -> <- <-]. by eapply IH.
  - intros [= <- <- <-]. eauto.
Qed.

Lemma write_loop_run ws : forall fuel (st : State),
  node_writes (world st) = ws ->
  ret (locals st) = 0%Z ->
  constructed st ->
  length ws < fuel ->
  while fuel (r ← get_ret; mret (r =? 0)%Z)
    (sample ← get_sample; r ← node_write sample; put_ret r) st =
  match write_retry (sample (locals st)) (content st (sample (locals st))) ws with
  | (r, rest, evs) => (retry_outcome r, written r rest st, evs)
  end.
Proof.
  induction ws as [|w ws IH]; intros fuel st Hws Hret [n Hn] Hfuel;
    (destruct fuel as [|fuel]; [simpl in Hfuel; lia|]); simpl while;
    unfold get_ret, get_sample, put_ret;
    rewrite run_assoc, run_gets, run_ret, Hret; cbn beta iota;
    change (0 =? 0)%Z with true; cbn iota;
    rewrite !run_assoc, run_gets, run_assoc, run_bind;
    unfold node_write at 1; rewrite Hn, Hws.
  - simpl. by rewrite <- Hws, written_id.
  - destruct w as [c|what]; cbn [bind_res].
    + rewrite run_modify.
      destruct (Z.eqb_spec c 0) as [->|Hc].
      * rewrite IH; first last.
        { simpl in *; lia. } { by exists n. } { done. } { done. }
        simpl write_retry. change (0 =? 0)%Z with true. cbn iota.
        change (content _ _) with (content st (sample (locals st))).
        destruct (write_retry _ _ ws) as [[r rest] evs].
        cbn [with_events app]. unfold content.
        by rewrite <- (written_written (Val 0%Z) ws r rest st).
      * destruct fuel as [|fuel]; [simpl in Hfuel; lia|]. simpl while.
        unfold get_ret. rewrite run_assoc, run_gets, run_ret.
        cbn [ret locals with_locals set_ret]. simpl write_retry.
        destruct (Z.eqb_spec c 0) as [?|_]; [done|]. done.
    + simpl write_retry. unfold content. by rewrite written_throw.
Qed.

Lemma do_while_run fuel (body : M unit) (st : State) :
  ret (locals st) = 0%Z ->
  do_while fuel body (r ← get_ret; mret (r =? 0)%Z) st =
  while (S fuel) (r ← get_ret; mret (r =? 0)%Z) body st.
Proof.
  intros Hret. unfold do_while. simpl while. unfold get_ret at 3.
  by rewrite run_assoc, run_gets, run_ret, Hret.
Qed.

Lemma write_retry_writes p s ws :
  Forall (fun e => exists resp, e = EvWrite p s resp) (write_retry p s ws).2.
Proof.
  induction ws as [|[c|what] ws IH]; simpl.
  - constructor.
  - destruct (c =? 0)%Z.
    + destruct (write_retry p s ws) as [[r rest] evs]; simpl in *.
      constructor; eauto.
    + repeat constructor; eauto.
  - repeat constructor; eauto.
Qed.

Lemma writes_of_write_retry p s ws :
  writes_of (write_retry p s ws).2 = (write_retry p s ws).2.
Proof.
  unfold writes_of. apply forallb_filter_id, forallb_forall.
  intros e He. pose proof (write_retry_writes p s ws) as Hall.
  rewrite Forall_forall in Hall. apply list_elem_of_In, Hall in He as [resp ->]. done.
Qed.

Lemma writes_of_app evs1 evs2 : writes_of (evs1 ++ evs2) = writes_of evs1 ++ writes_of evs2.
Proof. apply List.filter_app. Qed.

Lemma writes_of_hook_events ev i calls :
  (forall j c, is_write (ev j c) = false) -> writes_of (hook_events ev i calls) = [].
Proof.
  intros Hev. revert i. induction calls as [|c calls IH]; intros i; [done|].
  simpl. unfold writes_of in *. simpl. by rewrite Hev, IH.
Qed.

(** The three ways a retry loop ends. *)
Lemma write_retry_val p s ws c rest evs :
  write_retry p s ws = (Val c, rest, evs) ->
  exists k, ws = replicate k (Returns 0) ++ Returns c :: rest /\ c <> 0%Z /\
            evs = replicate k (EvWrite p s (Returns 0)) ++ [EvWrite p s (Returns c)].
Proof.
  revert evs. induction ws as [|[c'|what] ws IH]; intros evs; simpl; [done| |done].
  destruct (Z.eqb_spec c' 0) as [->|Hc].
  - destruct (write_retry p s ws) as [[r rest'] evs'] eqn:Hrest.
    intros [= -> -> <-]. destruct (IH _ eq_refl) as (k & -> & Hc & ->).
    by exists (S k).
  - intros [= -> -> <-]. by exists 0.
Qed.


Lemma write_retry_outcome p s ws :
  match (write_retry p s ws).1.1 with
  | Val c => c <> 0%Z
  | Abort (Throw e) => exists what, e = NodeError what /\ In (Throws what) ws
  | Abort Diverge => True
  | Abort _ => False
  end.
Proof.
  induction ws as [|[c'|what] ws IH]; simpl; [done| |].
  - destruct (Z.eqb_spec c' 0) as [->|Hc]; [|done].
    destruct (write_retry p s ws) as [[[c|[e| | |]] rest'] evs']; simpl in *; try done.
    destruct IH as (what & -> & Hin). eauto.
  - eauto.
Qed.

Lemma write_retry_nonempty p s ws : ws <> [] -> (write_retry p s ws).2 <> [].
Proof.
  destruct ws as [|[c|what] ws]; [done| |done]. intros _. simpl.
  destruct (c =? 0)%Z; [|done]. by destruct (write_retry p s ws) as [[? ?] ?].
Qed.

Lemma write_retry_zeros p s k ws :
  write_retry p s (replicate k (Returns 0) ++ ws) =
  match write_retry p s ws with
  | (r, rest, evs) => (r, rest, replicate k (EvWrite p s (Returns 0)) ++ evs)
  end.
Proof.
  induction k as [|k IH]; simpl.
  - by destruct (write_retry p s ws) as [[? ?] ?].
  - rewrite IH. by destruct (write_retry p s ws) as [[? ?] ?].
Qed.

Lemma write_retry_answered p s k c rest :
  c <> 0%Z ->
  write_retry p s (replicate k (Returns 0) ++ Returns c :: rest) =
  (Val c, rest, replicate k (EvWrite p s (Returns 0)) ++ [EvWrite p s (Returns c)]).
Proof.
  intros Hc. rewrite write_retry_zeros. simpl. by destruct (Z.eqb_spec c 0).
Qed.

#[local] Arguments next_sequence : simpl never.
#[local] Arguments while : simpl never.
#[local] Arguments for_hooks : simpl never.
#[local] Arguments write_retry : simpl never.

(** ** What a run emits *)

Lemma emits_ret {A} P (a : A) : emits P (mret a : M A).
Proof. intros st r st' evs [= <- <- <-]. constructor. Qed.

Lemma emits_gets {A} P (f : State -> A) : emits P (gets f).
Proof. intros st r st' evs [= <- <- <-]. constructor. Qed.

Lemma emits_modify P (f : State -> State) : emits P (modify f).
Proof. intros st r st' evs [= <- <- <-]. constructor. Qed.

Lemma emits_abort {A} P c : emits P (abort c : M A).
Proof. intros st r st' evs [= <- <- <-]. constructor. Qed.

Lemma emits_emit (P : Event -> Prop) e : P e -> emits P (emit e : M unit).
Proof. intros He st r st' evs [= <- <- <-]. by repeat constructor. Qed.

Lemma emits_bind {A B} P (m : M A) (k : A -> M B) :
  emits P m -> (forall a, emits P (k a)) -> emits P (m ≫= k).
Proof.
  intros Hm Hk st r st' evs. rewrite run_bind.
  destruct (m st) as [[[a|c] st1] e1] eqn:Hrun; simpl.
  - destruct (k a st1) as [[r2 st2] e2] eqn:Hrun2. intros [= <- <- <-].
    apply Forall_app; split; [by eapply Hm | by eapply Hk].
  - intros [= <- <- <-]. by eapply Hm.
Qed.

Lemma emits_when P b (m : M unit) : emits P m -> emits P (when b m).
Proof. destruct b; [done|]. intros _. apply emits_ret. Qed.

Lemma emits_while P fuel (cond : M bool) (body : M unit) :
  emits P cond -> emits P body -> emits P (while fuel cond body).
Proof.
  intros Hc Hb. induction fuel as [|n IH]; simpl.
  - apply emits_abort.
  - apply emits_bind; [done|]. intros [|]; [|apply emits_ret].
    apply emits_bind; [done|]. by intros _.
Qed.

Lemma emits_do_while P fuel (body : M unit) (cond : M bool) :
  emits P cond -> emits P body -> emits P (do_while fuel body cond).
Proof.
  intros Hc Hb. apply emits_bind; [done|]. intros _. by apply emits_while.
Qed.

Lemma emits_try_catch {A} (P : Event -> Prop) (body : M A) handler :
  emits P body -> (forall e, P (EvCatch e)) -> (forall e, emits P (handler e)) ->
  emits P (try_catch body handler).
Proof.
  intros Hb Hc Hh st r st' evs. rewrite run_try_catch.
  destruct (body st) as [[[a|[e| | |]] st1] e1] eqn:Hrun; simpl;
    try (intros [= <- <- <-]; by eapply Hb).
  destruct (is_std_exception e); [|intros [= <- <- <-]; by eapply Hb].
  destruct (handler e st1) as [[r2 st2] e2] eqn:Hrun2. intros [= <- <- <-].
  rewrite !Forall_app. repeat split; [by eapply Hb | by repeat constructor | by eapply Hh].
Qed.

Lemma emits_deref P p : emits P (deref p : M (ptr * Block)).
Proof.
  intros st r st' evs. unfold deref. destruct p as [a|].
  - destruct (heap (world st) !! a); intros [= <- <- <-]; constructor.
  - intros [= <- <- <-]; constructor.
Qed.

Lemma emits_the_node P : emits P (the_node : M node.NodeType).
Proof.
  intros st r st' evs. unfold the_node.
  destruct (mNode (this st)); intros [= <- <- <-]; constructor.
Qed.

Lemma emits_node_write (P : Event -> Prop) p :
  (forall s resp, P (EvWrite p s resp)) -> emits P (node_write p : M Z).
Proof.
  intros HP st r st' evs. unfold node_write.
  destruct (mNode (this st)); [|intros [= <- <- <-]; constructor].
  destruct (node_writes (world st)) as [|[c|what] rest];
    intros [= <- <- <-]; repeat constructor; apply HP.
Qed.

Lemma emits_node_read (P : Event -> Prop) :
  (forall resp p, P (EvRead resp p)) -> emits P (node_read : M Z).
Proof.
  intros HP st r st' evs. unfold node_read.
  destruct (mNode (this st)); [|intros [= <- <- <-]; constructor].
  destruct (node_reads (world st)) as [|[[c|what] s] rest]; simpl;
    intros [= <- <- <-]; repeat constructor; apply HP.
Qed.

Lemma emits_for_hooks (P : Event -> Prop) ev hooks :
  (forall i thr, P (ev i thr)) -> forall i, emits P (for_hooks ev i hooks : M unit).
Proof.
  intros HP. induction hooks as [|hk rest IH]; intros i; simpl.
  - apply emits_ret.
  - apply emits_bind; [|by intros _].
    unfold call_hook.
    apply emits_bind; [apply emits_gets|]. intros p.
    apply emits_bind; [apply emits_gets|]. intros h.
    destruct p as [a0|].
    + apply emits_bind; [apply emits_deref|]. intros [a b].
      destruct (on_sample hk h (smp b)) as [[h' s'] thr].
      apply emits_bind; [apply emits_modify|]. intros _.
      apply emits_bind; [apply emits_modify|]. intros _.
      apply emits_bind; [by apply emits_emit|]. intros _.
      destruct thr; [apply emits_abort | apply emits_ret].
    + destruct (on_null hk h) as [[h' thr]|]; [|apply emits_abort].
      apply emits_bind; [apply emits_modify|]. intros _.
      apply emits_bind; [by apply emits_emit|]. intros _.
      destruct thr; [apply emits_abort | apply emits_ret].
Qed.

(** One rule at a time, down the structure of the operation. *)
Ltac emits_step :=
  lazymatch goal with
  | |- @emits _ _ _ ?m =>
      lazymatch m with
      | @mbind _ _ _ _ _ _ => apply emits_bind; [|intros ?]
      | @mret _ _ _ _ => apply emits_ret
      | @gets _ _ _ => apply emits_gets
      | @modify _ _ => apply emits_modify
      | @abort _ _ _ => apply emits_abort
      | @throw _ _ _ => apply emits_abort
      | @std_exit _ _ _ => apply emits_abort
      | @emit _ _ => apply emits_emit
      | @when _ _ _ => apply emits_when
      | @while _ _ _ _ => apply emits_while
      | @do_while _ _ _ _ => apply emits_do_while
      | @try_catch _ _ _ _ => apply emits_try_catch; [| |intros ?]
      | @deref _ _ => apply emits_deref
      | @the_node _ => apply emits_the_node
      | @node_write _ _ => apply emits_node_write
      | @node_read _ => apply emits_node_read
      | @for_hooks _ _ _ _ => apply emits_for_hooks
      | match ?x with _ => _ end => destruct x
      | _ =>
          progress unfold get_sample, get_ret, get_done, put_sample, put_ret, put_done,
            log_info, log_error, store, sample_update, last_sample_update,
            sample_alloc, sample_decref, sample_copy, clock_gettime,
            do_pool_init, do_pool_destroy, close
      end
  end.

Ltac emits_auto := repeat emits_step; try (intros; reflexivity).

(** ** What a run keeps *)

Section Keeps.

Context {X : Type} (g : @InterfaceVillas H -> X).

Lemma keeps_ret {A} (a : A) : keeps g (mret a : M A).
Proof. by intros st r st' evs [= <- <- <-]. Qed.

Lemma keeps_gets {A} (f : State -> A) : keeps g (gets f).
Proof. by intros st r st' evs [= <- <- <-]. Qed.

Lemma keeps_modify (f : State -> State) :
  (forall st, g (this (f st)) = g (this st)) -> keeps g (modify f).
Proof. intros Hf st r st' evs [= <- <- <-]. apply Hf. Qed.

Lemma keeps_abort {A} c : keeps g (abort c : M A).
Proof. by intros st r st' evs [= <- <- <-]. Qed.

Lemma keeps_emit e : keeps g (emit e : M unit).
Proof. by intros st r st' evs [= <- <- <-]. Qed.

Lemma keeps_bind {A B} (m : M A) (k : A -> M B) :
  keeps g m -> (forall a, keeps g (k a)) -> keeps g (m ≫= k).
Proof.
  intros Hm Hk st r st' evs. rewrite run_bind.
  destruct (m st) as [[[a|c] st1] e1] eqn:Hrun; simpl.
  - destruct (k a st1) as [[r2 st2] e2] eqn:Hrun2. intros [= <- <- <-].
    rewrite (Hk _ _ _ _ _ Hrun2). by eapply Hm.
  - intros [= <- <- <-]. by eapply Hm.
Qed.

Lemma keeps_when b (m : M unit) : keeps g m -> keeps g (when b m).
Proof. destruct b; [done|]. intros _. apply keeps_ret. Qed.

Lemma keeps_while fuel (cond : M bool) (body : M unit) :
  keeps g cond -> keeps g body -> keeps g (while fuel cond body).
Proof.
  intros Hc Hb. induction fuel as [|n IH]; simpl.
  - apply keeps_abort.
  - apply keeps_bind; [done|]. intros [|]; [|apply keeps_ret].
    apply keeps_bind; [done|]. by intros _.
Qed.

Lemma keeps_try_catch {A} (body : M A) handler :
  keeps g body -> (forall e, keeps g (handler e)) -> keeps g (try_catch body handler).
Proof.
  intros Hb Hh st r st' evs. rewrite run_try_catch.
  destruct (body st) as [[[a|[e| | |]] st1] e1] eqn:Hrun; simpl;
    try (intros [= <- <- <-]; by eapply Hb).
  destruct (is_std_exception e); [|intros [= <- <- <-]; by eapply Hb].
  destruct (handler e st1) as [[r2 st2] e2] eqn:Hrun2. intros [= <- <- <-].
  rewrite (Hh _ _ _ _ _ Hrun2). by eapply Hb.
Qed.

Lemma keeps_deref p : keeps g (deref p : M (ptr * Block)).
Proof.
  intros st r st' evs. unfold deref. destruct p as [a|].
  - by destruct (heap (world st) !! a); intros [= <- <- <-].
  - by intros [= <- <- <-].
Qed.

Lemma keeps_the_node : keeps g (the_node : M node.NodeType).
Proof.
  intros st r st' evs. unfold the_node.
  by destruct (mNode (this st)); intros [= <- <- <-].
Qed.

Lemma keeps_node_read : keeps g (node_read : M Z).
Proof.
  intros st r st' evs. unfold node_read.
  destruct (mNode (this st)); [|by intros [= <- <- <-]].
  destruct (node_reads (world st)) as [|[[c|what] [s|]] rest]; simpl;
    by intros [= <- <- <-].
Qed.

Lemma keeps_for_hooks ev hooks : forall i, keeps g (for_hooks ev i hooks : M unit).
Proof.
  induction hooks as [|hk rest IH]; intros i; simpl.
  - apply keeps_ret.
  - apply keeps_bind; [|by intros _].
    unfold call_hook, store.
    apply keeps_bind; [apply keeps_gets|]. intros p.
    apply keeps_bind; [apply keeps_gets|]. intros h.
    destruct p as [a0|].
    + apply keeps_bind; [apply keeps_deref|]. intros [a b].
      destruct (on_sample hk h (smp b)) as [[h' s'] thr].
      apply keeps_bind; [by apply keeps_modify|]. intros _.
      apply keeps_bind; [by apply keeps_modify|]. intros _.
      apply keeps_bind; [by apply keeps_emit|]. intros _.
      destruct thr; [apply keeps_abort | apply keeps_ret].
    + destruct (on_null hk h) as [[h' thr]|]; [|apply keeps_abort].
      apply keeps_bind; [by apply keeps_modify|]. intros _.
      apply keeps_bind; [by apply keeps_emit|]. intros _.
      destruct thr; [apply keeps_abort | apply keeps_ret].
Qed.

End Keeps.

Ltac keeps_step :=
  lazymatch goal with
  | |- @keeps _ _ _ _ ?m =>
      lazymatch m with
      | @mbind _ _ _ _ _ _ => apply keeps_bind; [|intros ?]
      | @mret _ _ _ _ => apply keeps_ret
      | @gets _ _ _ => apply keeps_gets
      | @modify _ _ => apply keeps_modify; intros ?; reflexivity
      | @abort _ _ _ => apply keeps_abort
      | @throw _ _ _ => apply keeps_abort
      | @std_exit _ _ _ => apply keeps_abort
      | @emit _ _ => apply keeps_emit
      | @when _ _ _ => apply keeps_when
      | @while _ _ _ _ => apply keeps_while
      | @try_catch _ _ _ _ => apply keeps_try_catch; [|intros ?]
      | @deref _ _ => apply keeps_deref
      | @the_node _ => apply keeps_the_node
      | @node_read _ => apply keeps_node_read
      | @for_hooks _ _ _ _ => apply keeps_for_hooks
      | match ?x with _ => _ end => destruct x
      | _ =>
          progress unfold get_sample, get_ret, get_done, put_sample, put_ret, put_done,
            log_info, log_error, store, sample_update, last_sample_update,
            sample_decref, do_pool_destroy, close
      end
  end.

(** [readValues] does not touch the sequence counter or the node. *)
Lemma readValues_keeps blocking :
  keeps (fun t => (mSequence t, mNode t)) (readValues E blocking : M unit).
Proof. unfold readValues. repeat keeps_step. Qed.

(** ** The constructor *)

Lemma construct_unknown_type name nodeType nodeConfig q len d (w : World) :
  node_type_lookup E nodeType = None ->
  construct E name nodeType nodeConfig q len d w =
    (Abort (Exit 1),
     {| this := members E nodeType nodeConfig q len; world := w;
        locals := {| sample := None; ret := 0; done := false |} |},
     [EvLog Error "Error: NodeType {} is not known to VILLASnode!" [ArgStr nodeType]]).
Proof.
  intros Hlookup. unfold construct, constructor_body.
  rewrite run_gets. cbn. rewrite Hlookup. by msteps.
Qed.

(** The node is made before the configuration is parsed. *)
Lemma construct_malformed_json name nodeType nodeConfig q len d (w : World) t error :
  node_type_lookup E nodeType = Some t ->
  json_loads E nodeConfig = inl error ->
  construct E name nodeType nodeConfig q len d w =
    (Abort (Throw (JsonError None error)),
     {| this := set_mNode (Some t) (members E nodeType nodeConfig q len); world := w;
        locals := {| sample := None; ret := 0; done := false |} |},
     [EvNodeNew (node.type_name t)]).
Proof.
  intros Hlookup Hjson. unfold construct, constructor_body.
  rewrite run_gets. cbn. rewrite Hlookup. msteps. by rewrite Hjson.
Qed.

Lemma construct_memory_init_fails name nodeType nodeConfig q len d (w : World) t config :
  node_type_lookup E nodeType = Some t ->
  json_loads E nodeConfig = inr config ->
  (0 <= node_parse E config (uuid_generate_random E))%Z ->
  (0 <= node_check E)%Z ->
  memory_init E 100 <> 0%Z ->
  construct E name nodeType nodeConfig q len d w =
    (Abort (Throw (RuntimeError "Error: VillasNode failed to initialize memory system" [])),
     {| this := set_mNode (Some t) (members E nodeType nodeConfig q len); world := w;
        locals := {| sample := None; ret := 0; done := false |} |},
     [EvNodeNew (node.type_name t);
      EvNodeParse (node_parse E config (uuid_generate_random E));
      EvNodeCheck (node_check E);
      EvMemoryInit (memory_init E 100)]).
Proof.
  intros Hlookup Hjson Hparse Hcheck Hmem. unfold construct, constructor_body.
  rewrite run_gets. cbn. rewrite Hlookup. msteps. rewrite Hjson.
  rewrite run_the_node. cbn. msteps.
  destruct (Z.ltb_spec (node_parse E config (uuid_generate_random E)) 0) as [?|_]; [lia|].
  msteps.
  destruct (Z.ltb_spec (node_check E) 0) as [?|_]; [lia|].
  msteps.
  destruct (Z.eqb_spec (memory_init E 100) 0) as [?|_]; [done|].
  by msteps.
Qed.

(** ** [open] *)


(** What [open] leaves behind when it returns: the counter at 0 and a
    last-good sample with sequence number 0, time 0 and zeroed data. *)
Lemma open_returns (st0 st : State) evs0 :
  open E st0 = (Val tt, st, evs0) ->
  mSequence (this st) = 0%Z /\
  mOpened (this st) = true /\
  mExports (this st) = mExports (this st0) /\
  mImports (this st) = mImports (this st0) /\
  mNode (this st) = mNode (this st0) /\
  constructed st /\
  exists l q lb,
    node.pool_queue (mSamplePool (this st0)) = l :: q /\
    node.pool_queue (mSamplePool (this st)) = q /\
    mLastSample (this st) = Some l /\
    heap (world st) !! l = Some lb /\
    node.sequence (smp lb) = 0%Z /\
    node.ts_origin (smp lb) = {| node.tv_sec := 0; node.tv_nsec := 0 |} /\
    node.signals (smp lb) = Some (getInputSignals E) /\
    take (node.capacity (smp lb)) (node.data (smp lb)) = replicate (node.capacity (smp lb)) 0%Z /\
    (forall old, heap (world st0) !! l = Some old -> node.flags (smp lb) = node.flags (smp old)).
Proof.
  destruct st0 as [t w l]; destruct t, w, l. destruct mSamplePool0 as [ps pb pc pq].
  unfold open. msteps. rewrite run_the_node. cbn.
  destruct mNode0 as [type|]; [|done]. msteps.
  destruct (node_type_start E type =? 0)%Z; cbn; [|by msteps].
  msteps.
  destruct (node_start E <? 0)%Z; cbn.
  { msteps. rewrite run_bind.
    destruct (close E _) as [[[[]|c] st1] e1]; cbn; [by msteps|done]. }
  msteps. rewrite run_sample_alloc. cbn.
  destruct pq as [|a q]; msteps.
  { by rewrite run_last_sample_update. }
  rewrite run_last_sample_update. cbn. rewrite list_lookup_alter_eq.
  destruct (heap0 !! a) as [b|] eqn:Hb; cbn; [|done].
  assert (a < length heap0) as Hlt by (by eapply lookup_lt_Some).
  rewrite run_last_sample_update. cbn.
  rewrite list_lookup_insert_eq by (by rewrite length_alter). cbn.
  rewrite run_last_sample_update. cbn.
  rewrite list_lookup_insert_eq by (by rewrite length_insert, length_alter). cbn.
  unfold last_sample_update, store. msteps. rewrite run_deref. cbn.
  rewrite list_lookup_insert_eq by (by rewrite !length_insert, length_alter). cbn.
  intros [= <- <-]. cbn.
  repeat (split; [done|]). split; [by eexists|].
  eexists a, q, _. repeat (split; [done|]).
  split. { apply list_lookup_insert_eq. by rewrite !length_insert, length_alter. }
  cbn. repeat (split; [done|]).
  split. { apply take_app_length'. by rewrite length_replicate. }
  intros old Hold. rewrite Hb in Hold. by injection Hold as <-.
Qed.

(** ** [writeValues], path by path *)

Lemma alter_as_insert {A} (f : A -> A) (l : list A) i x :
  l !! i = Some x -> alter f i l = <[i := f x]> l.
Proof.
  intros Hx. apply list_eq. intros j. destruct (decide (i = j)) as [<-|Hne].
  - rewrite list_lookup_alter_eq, Hx, list_lookup_insert_eq; [done|by eapply lookup_lt_Some].
  - by rewrite list_lookup_alter_ne, list_lookup_insert_ne.
Qed.

(** The pool has no free block: the null pointer is dereferenced. *)
Lemma writeValues_no_block (st : State) :
  node.pool_queue (mSamplePool (this st)) = [] ->
  exists st', writeValues E st = (Abort Crash, st', [EvAlloc None]).
Proof.
  intros Hq. unfold writeValues. repeat mstep. rewrite run_try_catch, run_sample_alloc.
  cbn. rewrite Hq. repeat mstep. rewrite run_the_node. cbn.
  destruct (mNode (this st)); [|by eauto]. rewrite run_sample_update. cbn. eauto.
Qed.

Lemma writeValues_dangling (st : State) a q :
  node.pool_queue (mSamplePool (this st)) = a :: q ->
  heap (world st) !! a = None ->
  exists st', writeValues E st = (Abort Crash, st', [EvAlloc (Some a)]).
Proof.
  intros Hq Hb. unfold writeValues. repeat mstep. rewrite run_try_catch, run_sample_alloc.
  cbn. rewrite Hq. repeat mstep. rewrite run_the_node. cbn.
  destruct (mNode (this st)); [|by eauto]. rewrite run_sample_update. cbn.
  rewrite list_lookup_alter_eq, Hb. cbn. eauto.
Qed.

(** An exporter raises: the handler sends the last-good sample. *)
Lemma writeValues_export_raises (st : State) a q b h' s' calls what :
  constructed st ->
  node.pool_queue (mSamplePool (this st)) = a :: q ->
  heap (world st) !! a = Some b ->
  run_hooks (mExports (this st)) (host (world st))
    (fresh_sample E (node.pool_capacity (mSamplePool (this st))) (smp b)) =
    (h', s', calls, Some (StdError what)) ->
  writeValues E st =
    let heap1 := <[a := set_smp s' (set_refcnt 1 b)]> (heap (world st)) in
    let l := mLastSample (this st) in
    match write_retry l (smp <$> (l ≫= fun x => heap1 !! x)) (node_writes (world st)) with
    | (rr, rest, wevs) =>
        (retry_outcome rr,
         {| this := set_mSamplePool (set_pool_queue q (mSamplePool (this st))) (this st);
            world := set_node_writes rest (set_heap heap1 (set_host h' (world st)));
            locals := {| sample := l; ret := retry_code rr; done := false |} |},
         EvAlloc (Some a) :: hook_events EvExport 0 calls ++
           EvCatch (HookError what) :: wevs ++ write_failed_log rr)
    end.
Proof.
  intros Hnode Hq Hb Hhooks.
  assert (a < length (heap (world st))) as Hlt by (by eapply lookup_lt_Some).
  destruct st as [t w l]; destruct t, w, l. destruct mSamplePool0 as [ps pb pc pq].
  unfold constructed in Hnode. cbn in Hnode, Hq, Hb, Hhooks, Hlt |- *. subst pq.
  destruct Hnode as [n ->].
  unfold writeValues. msteps. rewrite run_try_catch, run_sample_alloc. msteps.
  rewrite run_the_node. cbn. rewrite run_sample_update. cbn.
  rewrite list_lookup_alter_eq, Hb. msteps.
  rewrite run_bind.
  erewrite for_hooks_run;
    [|reflexivity|cbn; apply list_lookup_insert_eq; by rewrite length_alter].
  cbn. unfold fresh_sample in Hhooks. rewrite Hhooks. msteps.
  rewrite run_bind, write_loop_run with (ws := node_writes0);
    [|done|done|by eexists|cbn; lia].
  unfold content. norm.
  rewrite (alter_as_insert _ _ _ _ Hb), !list_insert_insert_eq. cbn [set_smp set_refcnt smp refcnt owner].
  destruct (write_retry mLastSample0 _ node_writes0) as [[[c|ab] rest] wevs]; finish.
  - msteps. unfold when. destruct (c <? 0)%Z; cbn.
    + unfold log_error, emit. cbn. by rewrite <- !app_assoc.
    + by rewrite <- !app_assoc.
  - cbn. by rewrite app_nil_r, <- !app_assoc.
Qed.

(** An exporter raises an object that is not a [std::exception]: no
    handler runs, the object leaves [writeValues]. *)
Lemma writeValues_export_raises_other (st : State) a q b h' s' calls what :
  constructed st ->
  node.pool_queue (mSamplePool (this st)) = a :: q ->
  heap (world st) !! a = Some b ->
  run_hooks (mExports (this st)) (host (world st))
    (fresh_sample E (node.pool_capacity (mSamplePool (this st))) (smp b)) =
    (h', s', calls, Some (OtherObject what)) ->
  writeValues E st =
    (Abort (Throw (Foreign what)),
     {| this := set_mSamplePool (set_pool_queue q (mSamplePool (this st))) (this st);
        world := set_heap (<[a := set_smp s' (set_refcnt 1 b)]> (heap (world st)))
                   (set_host h' (world st));
        locals := {| sample := Some a; ret := 0; done := false |} |},
     EvAlloc (Some a) :: hook_events EvExport 0 calls).
Proof.
  intros Hnode Hq Hb Hhooks.
  assert (a < length (heap (world st))) as Hlt by (by eapply lookup_lt_Some).
  destruct st as [t w l]; destruct t, w, l. destruct mSamplePool0 as [ps pb pc pq].
  unfold constructed in Hnode. cbn in Hnode, Hq, Hb, Hhooks, Hlt |- *. subst pq.
  destruct Hnode as [n ->].
  unfold writeValues. msteps. rewrite run_try_catch, run_sample_alloc. msteps.
  rewrite run_the_node. cbn. rewrite run_sample_update. cbn.
  rewrite list_lookup_alter_eq, Hb. msteps.
  rewrite run_bind.
  erewrite for_hooks_run;
    [|reflexivity|cbn; apply list_lookup_insert_eq; by rewrite length_alter].
  cbn. unfold fresh_sample in Hhooks. rewrite Hhooks. norm. finish. cbn.
  by rewrite (alter_as_insert _ _ _ _ Hb), !list_insert_insert_eq.
Qed.

(** The run of [writeValues] up to the end of the first retry loop, when
    no exporter raises. *)
Ltac run_framing Hb Hhooks script :=
  unfold writeValues; msteps; rewrite run_try_catch, run_sample_alloc; msteps;
  rewrite run_the_node; cbn; rewrite run_sample_update; cbn;
  rewrite list_lookup_alter_eq, Hb; msteps;
  rewrite run_bind;
  erewrite for_hooks_run;
    [|reflexivity|cbn; apply list_lookup_insert_eq; by rewrite length_alter];
  cbn; unfold fresh_sample in Hhooks; rewrite Hhooks; msteps;
  rewrite run_sample_update; cbn;
  rewrite list_lookup_insert_eq by (by rewrite !length_insert, length_alter); msteps;
  rewrite run_sample_update; cbn;
  rewrite list_lookup_insert_eq by (by rewrite !length_insert, length_alter); msteps;
  rewrite run_sample_update; cbn;
  rewrite list_lookup_insert_eq by (by rewrite !length_insert, length_alter); msteps;
  rewrite run_bind, do_while_run by done;
  rewrite write_loop_run with (ws := script); [|done|done|by eexists|cbn; lia];
  unfold content; cbn;
  rewrite list_lookup_insert_eq by (by rewrite !length_insert, length_alter);
  cbn; unfold framed in *.

(** The sample is framed and the node takes it, or refuses it with a
    negative code: it is copied to the last-good sample either way. *)
Lemma writeValues_submitted (st : State) a q b h' s' calls c rest wevs :
  let s1 := framed E (mSequence (this st)) (clock_realtime E (ticks (world st))) s' in
  let heap1 := <[a := set_smp s1 (set_refcnt 1 b)]> (heap (world st)) in
  constructed st ->
  node.pool_queue (mSamplePool (this st)) = a :: q ->
  heap (world st) !! a = Some b ->
  run_hooks (mExports (this st)) (host (world st))
    (fresh_sample E (node.pool_capacity (mSamplePool (this st))) (smp b)) =
    (h', s', calls, None) ->
  write_retry (Some a) (Some s1) (node_writes (world st)) = (Val c, rest, wevs) ->
  writeValues E st =
    let evs := EvAlloc (Some a) :: hook_events EvExport 0 calls ++ wevs ++
               write_failed_log (Val c) in
    let this1 := set_mSequence (next_sequence (mSequence (this st)))
                   (set_mSamplePool (set_pool_queue q (mSamplePool (this st))) (this st)) in
    let world1 heap2 := set_node_writes rest (set_ticks (S (ticks (world st)))
                          (set_heap heap2 (set_host h' (world st)))) in
    let locals1 := {| sample := Some a; ret := c; done := true |} in
    match mLastSample (this st) ≫= (fun l => pair l <$> heap1 !! l) with
    | Some (l, lb) =>
        (Val tt,
         {| this := this1;
            world := world1 (<[l := set_smp (copy_fields (smp lb) s1) lb]> heap1);
            locals := locals1 |},
         evs)
    | None =>
        (Abort Crash, {| this := this1; world := world1 heap1; locals := locals1 |}, evs)
    end.
Proof.
  intros s1 heap1 Hnode Hq Hb Hhooks Hretry. subst s1 heap1.
  assert (a < length (heap (world st))) as Hlt by (by eapply lookup_lt_Some).
  destruct st as [t w l]; destruct t, w, l. destruct mSamplePool0 as [ps pb pc pq].
  destruct b as [rc ow sb].
  unfold constructed in Hnode. cbn in Hnode, Hq, Hb, Hhooks, Hlt, Hretry |- *. subst pq.
  destruct Hnode as [n ->].
  run_framing Hb Hhooks node_writes0.
  rewrite Hretry. finish. unfold sample_copy, write_failed_log, store.
  msteps. destruct (c <? 0)%Z; msteps; rewrite run_deref; norm;
    rewrite (alter_as_insert _ _ _ _ Hb), !list_insert_insert_eq; norm;
    (destruct mLastSample0 as [l|]; cbn [mbind option_bind];
      [|finish; by rewrite ?app_nil_r]);
    (destruct (_ !! l) as [lb|] eqn:Hl; cbn [fmap option_fmap option_map];
      [|finish; by rewrite ?app_nil_r]).
  all: rewrite run_deref; norm; rewrite list_lookup_insert_eq by done.
  all: unfold modify; norm; finish; rewrite ?app_nil_r; by destruct lb.
Qed.

(** The node's write raises after the framing: the handler sends the same
    sample again.  What its own retry loop ends with is what the call ends
    with. *)
Lemma writeValues_write_raises (st : State) a q b h' s' calls e rest wevs :
  let s1 := framed E (mSequence (this st)) (clock_realtime E (ticks (world st))) s' in
  let heap1 := <[a := set_smp s1 (set_refcnt 1 b)]> (heap (world st)) in
  constructed st ->
  node.pool_queue (mSamplePool (this st)) = a :: q ->
  heap (world st) !! a = Some b ->
  run_hooks (mExports (this st)) (host (world st))
    (fresh_sample E (node.pool_capacity (mSamplePool (this st))) (smp b)) =
    (h', s', calls, None) ->
  write_retry (Some a) (Some s1) (node_writes (world st)) = (Abort (Throw e), rest, wevs) ->
  writeValues E st =
    match write_retry (Some a) (Some s1) rest with
    | (rr, rest2, wevs2) =>
        (retry_outcome rr,
         {| this := set_mSequence (next_sequence (mSequence (this st)))
                      (set_mSamplePool (set_pool_queue q (mSamplePool (this st))) (this st));
            world := set_node_writes rest2 (set_ticks (S (ticks (world st)))
                       (set_heap heap1 (set_host h' (world st))));
            locals := {| sample := Some a; ret := retry_code rr; done := true |} |},
         EvAlloc (Some a) :: hook_events EvExport 0 calls ++ wevs ++
           EvCatch e :: wevs2 ++ write_failed_log rr)
    end.
Proof.
  intros s1 heap1 Hnode Hq Hb Hhooks Hretry. subst s1 heap1.
  destruct (write_retry_node_error _ _ _ _ _ _ Hretry) as [what ->].
  assert (a < length (heap (world st))) as Hlt by (by eapply lookup_lt_Some).
  destruct st as [t w l]; destruct t, w, l. destruct mSamplePool0 as [ps pb pc pq].
  destruct b as [rc ow sb].
  unfold constructed in Hnode. cbn in Hnode, Hq, Hb, Hhooks, Hlt, Hretry |- *. subst pq.
  destruct Hnode as [n ->].
  run_framing Hb Hhooks node_writes0.
  rewrite Hretry. finish. msteps.
  rewrite run_bind, write_loop_run with (ws := rest); [|done|done|by eexists|cbn; lia].
  unfold content. norm.
  rewrite (alter_as_insert _ _ _ _ Hb), !list_insert_insert_eq.
  cbn [mbind option_bind]. rewrite list_lookup_insert_eq by done.
  norm. cbn [fmap option_fmap option_map].
  destruct (write_retry (Some a) _ rest) as [[[c|ab] rest2] wevs2]; finish.
  - msteps. unfold when, write_failed_log. destruct (c <? 0)%Z; cbn.
    + unfold log_error, emit. cbn. by rewrite <- !app_assoc.
    + by rewrite <- !app_assoc.
  - cbn. by rewrite app_nil_r, <- !app_assoc.
Qed.

(** The node never answers with a code other than 0. *)
Lemma writeValues_write_blocks (st : State) a q b h' s' calls rest wevs :
  let s1 := framed E (mSequence (this st)) (clock_realtime E (ticks (world st))) s' in
  constructed st ->
  node.pool_queue (mSamplePool (this st)) = a :: q ->
  heap (world st) !! a = Some b ->
  run_hooks (mExports (this st)) (host (world st))
    (fresh_sample E (node.pool_capacity (mSamplePool (this st))) (smp b)) =
    (h', s', calls, None) ->
  write_retry (Some a) (Some s1) (node_writes (world st)) = (Abort Diverge, rest, wevs) ->
  exists st',
    writeValues E st =
      (Abort Diverge, st', EvAlloc (Some a) :: hook_events EvExport 0 calls ++ wevs).
Proof.
  intros s1 Hnode Hq Hb Hhooks Hretry. subst s1.
  assert (a < length (heap (world st))) as Hlt by (by eapply lookup_lt_Some).
  destruct st as [t w l]; destruct t, w, l. destruct mSamplePool0 as [ps pb pc pq].
  destruct b as [rc ow sb].
  unfold constructed in Hnode. cbn in Hnode, Hq, Hb, Hhooks, Hlt, Hretry |- *. subst pq.
  destruct Hnode as [n ->].
  run_framing Hb Hhooks node_writes0.
  rewrite Hretry. finish. cbn. eauto.
Qed.

(** ** Events of the pieces of a run *)

Lemma in_hook_events ev i calls e :
  In e (hook_events ev i calls) -> exists j c, e = ev j c /\ In c calls.
Proof.
  revert i. induction calls as [|c calls IH]; intros i; simpl; [done|].
  intros [<-|Hin]; [by eauto|]. destruct (IH _ Hin) as (j & c' & -> & Hc). eauto.
Qed.

Lemma in_write_retry p s ws e :
  In e (write_retry p s ws).2 -> exists resp, e = EvWrite p s resp.
Proof.
  intros Hin. pose proof (write_retry_writes p s ws) as Hall.
  rewrite Forall_forall in Hall. by apply Hall, list_elem_of_In.
Qed.

Lemma in_write_failed_log r e :
  In e (write_failed_log r) -> exists fmt args, e = EvLog Error fmt args.
Proof.
  destruct r as [c|ab]; simpl; [|done]. destruct (c <? 0)%Z; simpl; [|done].
  intros [<-|[]]. eauto.
Qed.

Lemma writes_of_write_failed_log r : writes_of (write_failed_log r) = [].
Proof. destruct r as [c|ab]; simpl; [|done]. by destruct (c <? 0)%Z. Qed.

Lemma run_hooks_no_raise (hooks : list (@Hook H)) h s h' s' calls :
  run_hooks hooks h s = (h', s', calls, None) -> forall what : string, ~ In (Some what) calls.
Proof.
  intros Hrun what Hin. apply run_hooks_calls in Hrun as [_ Hall].
  rewrite Forall_forall in Hall. by apply list_elem_of_In, Hall in Hin.
Qed.

(** The write loops can only return, raise what the node raised, or never
    end. *)
Lemma write_retry_aborts p s ws ab rest wevs :
  write_retry p s ws = (Abort ab, rest, wevs) ->
  ab = Diverge \/ exists what, ab = Throw (NodeError what) /\ In (Throws what) ws.
Proof.
  intros Hretry. pose proof (write_retry_outcome p s ws) as Hout.
  rewrite Hretry in Hout. simpl in Hout. destruct ab as [e| | |]; try done; [|by left].
  right. destruct Hout as (what & -> & Hin). eauto.
Qed.


Lemma lookup_other_block (heap : list Block) a b l :
  l <> a -> <[a := b]> heap !! l = heap !! l.
Proof. intros Hne. by apply list_lookup_insert_ne. Qed.

(** ** The write path *)

(** Splits a run of [writeValues] into its paths: the pool's queue, the
    block of the fresh sample, what the exporters did. *)
Ltac writeValues_paths st a q b h' s' calls thr Hq Hb Hhooks :=
  destruct (node.pool_queue (mSamplePool (this st))) as [|a q] eqn:Hq;
    [|destruct (heap (world st) !! a) as [b|] eqn:Hb;
      [destruct (run_hooks (mExports (this st)) (host (world st))
                   (fresh_sample E (node.pool_capacity (mSamplePool (this st))) (smp b)))
         as [[[h' s'] calls] thr] eqn:Hhooks|]].

Ltac in_events H :=
  repeat first
    [ apply in_app_or in H as [H|H]
    | apply in_hook_events in H as (? & ? & ? & H)
    | apply in_write_retry in H as [? H]
    | apply in_write_failed_log in H as (? & ? & H)
    | apply in_inv in H as [H|H]
    | apply in_nil in H
    | match type of H with In _ (if ?c then _ else _) => destruct c end ].

(** The events [wevs] of a retry loop, by the name of the loop. *)
Ltac by_loop Hretry Hin :=
  let Hw := fresh in
  pose proof (f_equal snd Hretry) as Hw; cbn [snd] in Hw; rewrite <- Hw in Hin; clear Hw.

Ltac no_raising_export Hin :=
  in_events Hin; try done;
  match goal with
  | Heq : EvExport _ _ = EvExport _ _ |- _ =>
      injection Heq as <- <-; by eapply run_hooks_no_raise
  end.


Lemma not_acknowledged evs e :
  forallb acknowledged evs = true -> In e evs -> acknowledged e = true.
Proof. intros Hall Hin. by apply (proj1 (forallb_forall _ _) Hall). Qed.

(** A successful call sends the sample it framed, with the counter's
    value as the sequence number, and moves the counter on by one. *)
Lemma writeValues_successful (st st' : State) evs :
  constructed st ->
  writeValues E st = (Val tt, st', evs) ->
  forallb acknowledged evs = true ->
  constructed st' /\
  mSequence (this st') = next_sequence (mSequence (this st)) /\
  writes_of evs <> [] /\
  forall p s resp, In (EvWrite p s resp) evs ->
    exists x, s = Some x /\ node.sequence x = mSequence (this st).
Proof.
  intros Hnode Hrun Hack.
  writeValues_paths st a q b h' s' calls thr Hq Hb Hhooks.
  - destruct (writeValues_no_block st Hq) as [st1 Hrun1]. by rewrite Hrun1 in Hrun.
  - destruct thr as [[w|w]|].
    2:{ by rewrite (writeValues_export_raises_other st a q b h' s' calls w Hnode Hq Hb Hhooks)
          in Hrun. }
    + rewrite (writeValues_export_raises st a q b h' s' calls w Hnode Hq Hb Hhooks) in Hrun.
      cbv zeta in Hrun. destruct (write_retry _ _ _) as [[rr rest] wevs].
      injection Hrun as _ _ <-.
      assert (acknowledged (EvCatch (HookError w)) = true) as Hcatch; [|done].
      apply (not_acknowledged _ _ Hack). right. apply in_or_app. right. by left.
    + destruct (write_retry (Some a)
                  (Some (framed E (mSequence (this st)) (clock_realtime E (ticks (world st))) s'))
                  (node_writes (world st))) as [[[c|ab] rest] wevs] eqn:Hretry.
      * rewrite (writeValues_submitted st a q b h' s' calls c rest wevs Hnode Hq Hb Hhooks Hretry) in Hrun.
        cbv zeta in Hrun.
        destruct (mLastSample (this st) ≫= _) as [[x lb]|]; [|done].
        injection Hrun as <- <-.
        split; [done|]. split; [done|]. split.
        { change (EvAlloc (Some a) :: ?x) with ([EvAlloc (Some a)] ++ x).
          rewrite !writes_of_app, writes_of_hook_events by done.
          pose proof (f_equal snd Hretry) as Hw. cbn [snd] in Hw. rewrite <- Hw.
          rewrite writes_of_write_retry. simpl.
          intros [Hnil _]%app_eq_nil. revert Hnil. apply write_retry_nonempty.
          intros Hws. by rewrite Hws in Hretry. }
        intros p s resp Hin. by_loop Hretry Hin. in_events Hin; try done.
        injection Hin as -> -> ->. by eexists.
      * destruct (write_retry_aborts _ _ _ _ _ _ Hretry) as [->|(w & -> & _)].
        -- destruct (writeValues_write_blocks st a q b h' s' calls rest wevs Hnode Hq Hb Hhooks Hretry)
             as [st1 Hrun1].
           by rewrite Hrun1 in Hrun.
        -- rewrite (writeValues_write_raises st a q b h' s' calls _ rest wevs Hnode Hq Hb Hhooks Hretry) in Hrun.
           destruct (write_retry (Some a) _ rest) as [[rr rest2] wevs2] eqn:Hretry2.
           injection Hrun as _ _ <-.
           assert (acknowledged (EvCatch (NodeError w)) = true) as Hcatch; [|done].
           apply (not_acknowledged _ _ Hack). right. apply in_or_app. right.
           apply in_or_app. right. by left.
  - destruct (writeValues_dangling st a q Hq Hb) as [st1 Hrun1]. by rewrite Hrun1 in Hrun.
Qed.


Lemma next_sequence_of_nat n :
  next_sequence (Z.of_nat n mod 2 ^ 64) = (Z.of_nat (S n) mod 2 ^ 64)%Z.
Proof.
  unfold next_sequence. rewrite Zplus_mod_idemp_l. f_equal. lia.
Qed.

Lemma successful_writes_sequences (st st' : State) tr :
  successful_writes E st tr st' ->
  forall n,
    constructed st ->
    mSequence (this st) = (Z.of_nat n mod 2 ^ 64)%Z ->
    (forall k evs, tr !! k = Some evs ->
       writes_of evs <> [] /\
       forall p s resp, In (EvWrite p s resp) evs ->
         exists x, s = Some x /\ node.sequence x = (Z.of_nat (n + k) mod 2 ^ 64)%Z) /\
    mSequence (this st') = (Z.of_nat (n + length tr) mod 2 ^ 64)%Z.
Proof.
  induction 1 as [st|st st1 st' evs tr Hrun Hack Hrest IH
                 |st st1 st' blocking evs tr Hrun Hrest IH]; intros n Hnode Hseq.
  - split; [done|]. by rewrite Nat.add_0_r.
  - destruct (writeValues_successful st st1 evs Hnode Hrun Hack)
      as (Hnode1 & Hseq1 & Hwrites & Hsent).
    rewrite Hseq, next_sequence_of_nat in Hseq1.
    destruct (IH (S n) Hnode1 Hseq1) as [IHk IHlast].
    split.
    + intros [|k] evs' Hk; simpl in Hk.
      * injection Hk as <-. rewrite Nat.add_0_r, <- Hseq. by split.
      * replace (n + S k) with (S n + k) by lia. by apply IHk.
    + simpl. by replace (n + S (length tr)) with (S n + length tr) by lia.
  - apply readValues_keeps in Hrun. injection Hrun as Hseq1 Hnode1.
    apply IH; [|by rewrite Hseq1]. unfold constructed. by rewrite Hnode1.
Qed.

(** C1. After [open], in a row of successful calls of [writeValues] (no
    exception, no negative code from the node's write), the call number k
    (from 0) sends a sample, and every sample it sends carries the sequence
    number k: the counter is 0 after [open] and every successful framing
    adds one to it. *)
Theorem sequence_numbers_count_up (st0 st st' : State) evs0 tr :
  open E st0 = (Val tt, st, evs0) ->
  successful_writes E st tr st' ->
  (Z.of_nat (length tr) <= 2 ^ 64)%Z ->
  mSequence (this st) = 0%Z /\
  (forall k evs, tr !! k = Some evs ->
     writes_of evs <> [] /\
     forall p s resp, In (EvWrite p s resp) evs ->
       exists x, s = Some x /\ node.sequence x = Z.of_nat k) /\
  mSequence (this st') = (Z.of_nat (length tr) mod 2 ^ 64)%Z.
Proof.
  intros Hopen Hwrites Hbound.
  apply open_returns in Hopen as (Hseq & _ & _ & _ & _ & Hnode & _).
  split; [done|].
  destruct (successful_writes_sequences st st' tr Hwrites 0 Hnode Hseq) as [Hk Hlast].
  split; [|done].
  intros k evs Hevs. destruct (Hk k evs Hevs) as [Hne Hsent]. split; [done|].
  intros p s resp Hin. destruct (Hsent p s resp Hin) as (x & -> & Hx).
  exists x. split; [done|]. rewrite Hx. simpl.
  apply Z.mod_small. apply lookup_lt_Some in Hevs. lia.
Qed.

Lemma has_flag_lor flags flag : has_flag (Z.lor flags flag) flag = true.
Proof.
  unfold has_flag. apply Z.eqb_eq, Z.bits_inj'. intros n Hn.
  rewrite Z.land_spec, Z.lor_spec. by destruct (Z.testbit flags n), (Z.testbit flag n).
Qed.


(** ** The read path *)

(** The loop around the node's read leaves the members alone, only reads,
    and leaves in [sample] nothing but a sample the node has just given. *)
Lemma read_loop_frame fuel : forall (st st' : State) r evs,
  while fuel (r ← get_ret; mret (r =? 0)%Z) (r ← node_read; put_ret r) st = (r, st', evs) ->
  this st' = this st /\
  Forall (fun e => is_read e = true) evs /\
  (sample_owned st -> sample_owned st').
Proof.
  induction fuel as [|fuel IH]; intros st st' r evs.
  - intros [= <- <- <-]. by repeat split.
  - unfold while; fold (@while H). rewrite run_assoc, run_get_ret, run_ret. cbn beta.
    destruct (ret (locals st) =? 0)%Z; [|by intros [= <- <- <-]].
    rewrite run_assoc, run_bind. unfold node_read at 1.
    destruct (mNode (this st)) as [n|]; [|by intros [= <- <- <-]].
    destruct (node_reads (world st)) as [|[resp given] rest] eqn:Hreads;
      [by intros [= <- <- <-]|].
    cbn [rd_response rd_sample].
    set (st2 := match given with Some s => _ | None => _ end).
    assert (this st2 = this st /\ (sample_owned st -> sample_owned st2)) as [Hthis Hown].
    { subst st2. destruct given as [s|]; [|by split]. split; [done|].
      intros _ a [= <-]. cbn.
      exists {| refcnt := 1; owner := FromTransport; smp := s |}. split; [|done].
      rewrite lookup_app_r by done. by rewrite Nat.sub_diag. }
    destruct resp as [c|what]; cbn [bind_res]; [|intros [= <- <- <-]; by repeat constructor].
    rewrite run_put_ret.
    destruct (while fuel _ _ _) as [[r3 st3] e3] eqn:Hrest. cbn.
    intros [= <- <- <-]. apply IH in Hrest as (Hthis3 & Hev3 & Hown3).
    split; [by rewrite Hthis3|]. split; [by constructor|].
    intros Hst. apply Hown3. intros a Ha. by apply Hown.
Qed.

Lemma in_import_events i calls j c :
  In (EvImport j c) (hook_events EvImport i calls) -> i <= j /\ calls !! (j - i) = Some c.
Proof.
  revert i. induction calls as [|c' calls IH]; intros i; simpl; [done|].
  intros [[= <- <-]|Hin].
  - by rewrite Nat.sub_diag.
  - apply IH in Hin as [Hle Hc]. split; [lia|].
    by replace (j - i) with (S (j - S i)) by lia.
Qed.

Lemma all_none_replicate (calls : list (option string)) :
  Forall (fun c => c = None) calls -> calls = replicate (length calls) None.
Proof. induction 1 as [|c calls -> _ IH]; simpl; [done|]. by rewrite <- IH. Qed.

Lemma is_read_not_import evs e :
  Forall (fun e => is_read e = true) evs -> In e evs -> no_import e = true.
Proof.
  rewrite Forall_forall. intros Hall Hin%list_elem_of_In%Hall. by destruct e.
Qed.

(** What [readValues] does after an exception: release, throw again. *)
Lemma read_handler_emits (P : Event -> Prop) :
  (forall a, P (EvDecref a)) ->
  emits P (sample ← get_sample;
           when (bool_decide (is_Some sample)) (sample_decref sample);;
           throw std_exception : M unit).
Proof. intros HP. emits_auto; apply HP. Qed.

Lemma not_in_no_import evs i c :
  Forall (fun e => no_import e = true) evs -> ~ In (EvImport i c) evs.
Proof. rewrite Forall_forall. intros Hall Hin%list_elem_of_In%Hall. done. Qed.

(** Nothing runs after [std::exit]. *)
Lemma run_fatal {B} (m1 m2 : M unit) c (k : unit -> M B) (st : State) :
  ((m1;; m2;; std_exit c) ≫= k) st = (m1;; m2;; std_exit c) st.
Proof.
  rewrite run_assoc, (run_bind m1), (run_bind m1).
  destruct (m1 st) as [[[[]|ab] st1] e1]; cbn [bind_res]; [|done].
  rewrite run_assoc, (run_bind m2), (run_bind m2).
  destruct (m2 st1) as [[[[]|ab] st2] e2]; cbn [bind_res]; [|done].
  by rewrite run_std_exit.
Qed.

Lemma fatal_aborts {B} (m1 m2 : M unit) c (st : State) :
  exists ab st' evs, ((m1;; m2;; std_exit c) : M B) st = (Abort ab, st', evs).
Proof.
  rewrite (run_bind m1).
  destruct (m1 st) as [[[[]|ab] st1] e1]; cbn [bind_res]; [|by eauto].
  rewrite (run_bind m2).
  destruct (m2 st1) as [[[[]|ab] st2] e2]; cbn [bind_res with_events]; [|by eauto].
  unfold std_exit, abort. cbn. eauto.
Qed.

(** The pointer in [sample] after the loop is the one the last read
    reported; it is null only if no read gave a sample. *)
Lemma read_loop_sample fuel : forall (st st' : State) r evs,
  while fuel (r ← get_ret; mret (r =? 0)%Z) (r ← node_read; put_ret r) st = (r, st', evs) ->
  (sample (locals st') = None ->
     sample (locals st) = None /\ Forall (fun e => exists resp, e = EvRead resp None) evs) /\
  (forall a, sample (locals st') = Some a ->
     sample (locals st) = Some a \/ exists resp, In (EvRead resp (Some a)) evs).
Proof.
  induction fuel as [|fuel IH]; intros st st' r evs.
  - intros [= <- <- <-]. split; [by split|by left].
  - unfold while; fold (@while H). rewrite run_assoc, run_get_ret, run_ret. cbn beta.
    destruct (ret (locals st) =? 0)%Z; [|intros [= <- <- <-]; split; [by split|by left]].
    rewrite run_assoc, run_bind. unfold node_read at 1.
    destruct (mNode (this st)) as [n|]; [|intros [= <- <- <-]; split; [by split|by left]].
    destruct (node_reads (world st)) as [|[resp given] rest] eqn:Hreads;
      [intros [= <- <- <-]; split; [by split|by left]|].
    cbn [rd_response rd_sample].
    set (st2 := match given with Some s => _ | None => _ end).
    assert (sample (locals st2) = None -> sample (locals st) = None) as Hnone.
    { subst st2. by destruct given. }
    destruct resp as [c|what]; cbn [bind_res].
    2:{ intros [= <- <- <-]. split.
        - intros Hs. split; [by apply Hnone|]. rewrite Hs. repeat constructor. by eexists.
        - intros a Ha. right. exists (Throws what). left. by rewrite Ha. }
    rewrite run_put_ret.
    destruct (while fuel _ _ _) as [[r3 st3] e3] eqn:Hrest. cbn.
    intros [= <- <- <-]. apply IH in Hrest as [Hnone3 Hsome3]. cbn in Hnone3, Hsome3.
    split.
    + intros Hs. destruct (Hnone3 Hs) as [Hs2 Hall]. split; [by apply Hnone|].
      constructor; [|done]. rewrite Hs2. by eexists.
    + intros a Ha. right. destruct (Hsome3 a Ha) as [Hs2|[resp' Hin]].
      * exists (Returns c). left. by rewrite Hs2.
      * exists resp'. by right.
Qed.

(** The hook that raises is the first and the only one that does. *)
Lemma raising_import_position reads (pre : list (option string)) w after i what :
  Forall (fun e => is_read e = true) reads ->
  Forall (fun c => c = None) pre ->
  Forall (fun e => no_import e = true) after ->
  In (EvImport i (Some what)) (reads ++ hook_events EvImport 0 (pre ++ [Some w]) ++ after) ->
  i = length pre /\ w = what.
Proof.
  intros Hreads Hpre Hafter Hin.
  apply in_app_or in Hin as [Hin|Hin].
  { by apply is_read_not_import with (e := EvImport i (Some what)) in Hreads. }
  apply in_app_or in Hin as [Hin|Hin]; [|by eapply not_in_no_import in Hin].
  apply in_import_events in Hin as [_ Hin]. rewrite Nat.sub_0_r in Hin.
  destruct (lt_eq_lt_dec i (length pre)) as [[Hlt| ->]|Hgt].
  - rewrite lookup_app_l in Hin by done.
    rewrite Forall_forall in Hpre. by apply list_elem_of_lookup_2, Hpre in Hin.
  - rewrite list_lookup_middle in Hin by done. by injection Hin as ->.
  - rewrite lookup_ge_None_2 in Hin; [done|]. rewrite length_app. simpl. lia.
Qed.

Lemma no_raising_import_event reads (calls : list (option string)) i what :
  Forall (fun e => is_read e = true) reads ->
  Forall (fun c => c = None) calls ->
  ~ In (EvImport i (Some what)) (reads ++ hook_events EvImport 0 calls).
Proof.
  intros Hreads Hcalls Hin. apply in_app_or in Hin as [Hin|Hin].
  { by apply is_read_not_import with (e := EvImport i (Some what)) in Hreads. }
  apply in_import_events in Hin as [_ Hin].
  rewrite Forall_forall in Hcalls. by apply list_elem_of_lookup_2, Hcalls in Hin.
Qed.

(** An importer raises: the hooks after it are not called.  A
    [std::exception] is caught, the sample (if the node gave one) is
    released, and a copy of the exception goes to the caller; any other
    object goes to the caller at once and nothing is released. *)
Lemma readValues_importer_raises blocking (st st' : State) r evs i what :
  readValues E blocking st = (r, st', evs) ->
  In (EvImport i (Some what)) evs ->
  exists reads after,
    evs = reads ++ hook_events EvImport 0 (replicate i None ++ [Some what]) ++ after /\
    Forall (fun e => is_read e = true) reads /\
    i < length (mImports (this st)) /\
    ((exists a b,
        after = [EvCatch (HookError what); EvDecref a] /\
        sample (locals st') = Some a /\
        heap (world st') !! a = Some b /\ refcnt b = 0%Z /\
        (exists resp, In (EvRead resp (Some a)) reads) /\
        r = Abort (Throw std_exception)) \/
     (after = [EvCatch (HookError what)] /\
        Forall (fun e => exists resp, e = EvRead resp None) reads /\
        r = Abort (Throw std_exception)) \/
     (after = [] /\
        r = Abort (Throw (Foreign what)) /\
        match sample (locals st') with
        | Some a =>
            (exists resp, In (EvRead resp (Some a)) reads) /\
            exists b, heap (world st') !! a = Some b /\ refcnt b = 1%Z
        | None => Forall (fun e => exists resp, e = EvRead resp None) reads
        end)).
Proof.
  unfold readValues. rewrite run_put_sample, run_put_ret, run_try_catch.
  rewrite run_gets. cbn beta. rewrite run_bind.
  set (st0 := with_locals (set_ret 0) (with_locals (set_sample None) st)).
  match goal with |- context [catch_res _ ?h] => set (handler := h) end.
  destruct (while _ _ _ st0) as [[[[]|ab] st1] e1] eqn:Hloop;
    pose proof (read_loop_sample _ _ _ _ _ Hloop) as [Hnull Hgiven];
    apply read_loop_frame in Hloop as (Hthis & Hreads & Hown);
    cbn [bind_res].
  2:{ (* the node's read raised, or never gave a sample *)
    intros Hrun Hin. exfalso.
    assert (Forall (fun e => no_import e = true) evs) as Hno; [|by eapply not_in_no_import].
    revert Hrun. destruct ab as [e| | |]; cbn [catch_res]; try (intros [= <- <- <-];
      eapply Forall_impl; [exact Hreads|by intros []]).
    destruct (is_std_exception e);
      [|intros [= <- <- <-]; eapply Forall_impl; [exact Hreads|by intros []]].
    destruct (handler e st1) as [[r2 st2] e2] eqn:Hhandler. cbn. intros [= <- <- <-].
    apply (read_handler_emits (fun e => no_import e = true)) in Hhandler; [|done].
    rewrite !Forall_app. repeat split; [|by repeat constructor|done].
    eapply Forall_impl; [exact Hreads|by intros []]. }
  specialize (Hown ltac:(by intros a [=])).
  rewrite catch_res_with_events. rewrite run_get_ret. cbn beta.
  destruct (ret (locals st1) <? 0)%Z.
  { (* the read failed: close, exit *)
    intros Hrun Hin. exfalso.
    assert (Forall (fun e => no_import e = true) evs) as Hno; [|by eapply not_in_no_import].
    revert Hrun. cbn [when]. rewrite run_fatal, <- run_try_catch.
    destruct (try_catch _ handler st1) as [[r2 st2] e2] eqn:Htry. cbn. intros [= <- <- <-].
    match type of Htry with ?m st1 = _ =>
      assert (emits (fun e => no_import e = true) m) as Hem
        by (subst handler; unfold close; emits_auto)
    end.
    apply Hem in Htry. apply Forall_app. split; [|done].
    eapply Forall_impl; [exact Hreads|by intros []]. }
  cbn [when]. rewrite run_ret, run_gets. cbn beta.
  destruct (sample (locals st1)) as [a|] eqn:Hsample.
  2:{ (* no sample: the hooks get the null pointer *)
    destruct (Hnull eq_refl) as [_ Hnone].
    rewrite run_bind, (for_hooks_null_run _ _ _ _ Hsample).
    destruct (run_hooks_null _ _) as [[h' calls] res] eqn:Hhooks.
    pose proof (run_hooks_null_calls _ _ _ _ _ Hhooks) as [Hlen Hres].
    destruct res as [[]|[e|c| |]]; cbn [bind_res]; [| |done| |done].
    - (* every hook returned: the null pointer is released *)
      rewrite run_get_sample. cbn [with_world locals sample]. rewrite Hsample.
      unfold sample_decref. rewrite run_deref.
      cbn [with_events catch_res]. intros [= <- <- <-] Hin. exfalso.
      rewrite app_nil_r in Hin. destruct Hres as [Hall _].
      by eapply no_raising_import_event.
    - destruct Hres as (r0 & pre & -> & -> & Hpre).
      destruct r0 as [w|w]; cbn [thrown what_of catch_res is_std_exception].
      + subst handler. cbn beta. rewrite run_get_sample.
        cbn [with_world locals sample]. rewrite Hsample.
        rewrite bool_decide_false by (by intros [? ?]). cbn [when].
        rewrite run_ret. unfold throw, abort. cbn [with_events].
        intros [= <- <- <-] Hin.
        assert (i = length pre /\ w = what) as [-> ->].
        { rewrite app_nil_r in Hin.
          eapply raising_import_position; [exact Hreads|exact Hpre| |exact Hin].
          by repeat constructor. }
        exists e1, [EvCatch (HookError what)].
        split. { rewrite (all_none_replicate pre Hpre) at 1. by rewrite app_nil_r. }
        split; [done|].
        split. { rewrite length_app in Hlen. simpl in Hlen. rewrite Hthis in Hlen.
                 simpl in Hlen. lia. }
        right. left. by repeat split.
      + intros [= <- <- <-] Hin.
        assert (i = length pre /\ w = what) as [-> ->].
        { rewrite <- (app_nil_r (hook_events _ _ _)) in Hin.
          eapply raising_import_position; [exact Hreads|exact Hpre| |exact Hin].
          constructor. }
        exists e1, [].
        split. { rewrite (all_none_replicate pre Hpre) at 1. by rewrite app_nil_r. }
        split; [done|].
        split. { rewrite length_app in Hlen. simpl in Hlen. rewrite Hthis in Hlen.
                 simpl in Hlen. lia. }
        right. right. split; [done|]. split; [done|].
        cbn [with_world locals sample]. by rewrite Hsample.
    - (* a hook dereferenced the null pointer *)
      cbn [catch_res]. intros [= <- <- <-] Hin. exfalso.
      by eapply no_raising_import_event. }
  destruct (Hown a Hsample) as (b & Hb & Hrefcnt & Howner).
  assert (exists resp, In (EvRead resp (Some a)) e1) as Hread.
  { destruct (Hgiven a eq_refl) as [Hs|Hs]; [done|exact Hs]. }
  rewrite run_bind, (for_hooks_run _ _ _ _ a b Hsample Hb).
  destruct (run_hooks _ _ _) as [[[h' s'] calls] [w|]] eqn:Hhooks;
    cbn [hooks_outcome bind_res].
  2:{ (* no importer raised *)
    intros Hrun Hin. exfalso. revert Hrun.
    rewrite catch_res_with_events, <- run_try_catch.
    destruct (try_catch _ handler _) as [[r2 st2] e2] eqn:Htry. cbn. intros [= <- <- <-].
    match type of Htry with ?m _ = _ =>
      assert (emits (fun e => no_import e = true) m) as Hem
        by (subst handler; emits_auto)
    end.
    apply Hem in Htry.
    apply in_app_or in Hin as [Hin|Hin].
    { by apply is_read_not_import with (e := EvImport i (Some what)) in Hreads. }
    apply in_app_or in Hin as [Hin|Hin]; [|by eapply not_in_no_import].
    apply in_import_events in Hin as [_ Hin].
    eapply run_hooks_no_raise; [exact Hhooks|]. apply list_elem_of_In.
    by eapply list_elem_of_lookup_2. }
  (* an importer raised *)
  apply run_hooks_calls in Hhooks as [Hlen (pre & -> & Hpre)].
  destruct w as [w|w]; cbn [thrown what_of catch_res is_std_exception].
  - subst handler. cbn beta.
    rewrite run_get_sample. cbn [hooked with_world locals sample].
    rewrite Hsample. rewrite bool_decide_true by done. cbn [when].
    unfold sample_decref. rewrite !run_assoc, run_deref.
    cbn [hooked with_world world heap set_heap].
    rewrite list_lookup_insert_eq by (by eapply lookup_lt_Some). cbn beta iota.
    unfold store. rewrite !run_assoc, run_modify, run_assoc, run_emit.
    cbn [set_smp refcnt owner]. rewrite Hrefcnt, Howner.
    change (1 - 1 =? 0)%Z with true. cbn [when]. rewrite run_ret. unfold throw, abort.
    cbn [with_events]. intros [= <- <- <-] Hin.
    assert (i = length pre /\ w = what) as [-> ->].
    { rewrite <- !app_assoc in Hin.
      eapply raising_import_position; [exact Hreads|exact Hpre| |exact Hin].
      by repeat constructor. }
    exists e1, [EvCatch (HookError what); EvDecref a].
    split. { by rewrite (all_none_replicate pre Hpre) at 1; rewrite <- !app_assoc. }
    split; [done|].
    split. { rewrite length_app in Hlen. simpl in Hlen. rewrite Hthis in Hlen.
             simpl in Hlen. lia. }
    left. exists a, (set_refcnt (1 - 1) (set_smp s' b)).
    split; [done|]. split; [done|]. split; [|done].
    cbn. apply list_lookup_insert_eq. rewrite length_insert. by eapply lookup_lt_Some.
  - intros [= <- <- <-] Hin.
    assert (i = length pre /\ w = what) as [-> ->].
    { rewrite <- (app_nil_r (hook_events _ _ _)) in Hin.
      eapply raising_import_position; [exact Hreads|exact Hpre| |exact Hin].
      constructor. }
    exists e1, [].
    split. { rewrite (all_none_replicate pre Hpre) at 1. by rewrite app_nil_r. }
    split; [done|].
    split. { rewrite length_app in Hlen. simpl in Hlen. rewrite Hthis in Hlen.
             simpl in Hlen. lia. }
    right. right. split; [done|]. split; [done|].
    cbn [hooked with_world locals sample]. rewrite Hsample.
    split; [done|]. exists (set_smp s' b). split; [|done].
    cbn. apply list_lookup_insert_eq. by eapply lookup_lt_Some.
Qed.

Lemma imports_of_app evs1 evs2 : imports_of (evs1 ++ evs2) = imports_of evs1 ++ imports_of evs2.
Proof. apply List.filter_app. Qed.

Lemma imports_of_reads evs : Forall (fun e => is_read e = true) evs -> imports_of evs = [].
Proof.
  induction 1 as [|e evs He _ IH]; [done|]. unfold imports_of in *. simpl.
  rewrite IH. by destruct e.
Qed.

Lemma imports_of_import_events i calls :
  imports_of (hook_events EvImport i calls) = hook_events EvImport i calls.
Proof.
  revert i. induction calls as [|c calls IH]; intros i; [done|].
  unfold imports_of in *. simpl. by rewrite IH.
Qed.

Lemma imports_of_none evs :
  (imports_of evs = [] -> Forall (fun e => no_import e = true) evs) /\
  (Forall (fun e => no_import e = true) evs -> imports_of evs = []).
Proof.
  unfold imports_of. split.
  - induction evs as [|e evs IH]; [constructor|]. simpl.
    destruct e; try done; intros Hnil; constructor; auto.
  - induction 1 as [|e evs He _ IH]; [done|]. simpl. rewrite IH. by destruct e.
Qed.



Lemma hook_events_app ev i calls1 calls2 :
  hook_events ev i (calls1 ++ calls2) =
  hook_events ev i calls1 ++ hook_events ev (i + length calls1) calls2.
Proof.
  revert i. induction calls1 as [|c calls1 IH]; intros i; simpl.
  - by rewrite Nat.add_0_r.
  - rewrite IH. do 3 f_equal. lia.
Qed.

Lemma read_event_not_given reads resp a :
  Forall (fun e => exists resp, e = EvRead resp None) reads -> ~ In (EvRead resp (Some a)) reads.
Proof.
  rewrite Forall_forall. intros Hall Hin%list_elem_of_In%Hall. by destruct Hin as [? [=]].
Qed.

Lemma not_among_reads_and_imports reads i calls e :
  Forall (fun e => is_read e = true) reads ->
  In e (reads ++ hook_events EvImport i calls) ->
  (In e reads /\ is_read e = true) \/ exists j c, e = EvImport j c.
Proof.
  intros Hreads Hin. apply in_app_or in Hin as [Hin|Hin].
  - left. split; [done|]. rewrite Forall_forall in Hreads. by apply Hreads, list_elem_of_In.
  - right. apply in_hook_events in Hin as (j & c & -> & _). eauto.
Qed.

(** C10, as the code has it.  When an importer hook raises in
    [readValues], the hooks called for the sample are the hooks 0 to i in
    the order of registration, only the last of them raising: no hook
    registered after it is called, and an exception goes to the caller.
    What happens between the two depends on what was raised.  A
    [std::exception] is caught: the sample, if the node handed one over, is
    released, and a copy of the exception is thrown.  An object of any
    other type is not caught: it goes to the caller as it is and the sample
    is not released. *)
Theorem importer_failure_stops_dispatch blocking (st st' : State) r evs i what :
  readValues E blocking st = (r, st', evs) ->
  In (EvImport i (Some what)) evs ->
  imports_of evs = hook_events EvImport 0 (replicate i None ++ [Some what]) /\
  i < length (mImports (this st)) /\
  (forall j c, In (EvImport j c) evs -> j <= i) /\
  (exists before after,
     evs = before ++ EvImport i (Some what) :: after /\
     ((exists a, after = [EvCatch (HookError what); EvDecref a] /\
                 r = Abort (Throw std_exception)) \/
      (after = [EvCatch (HookError what)] /\
       (forall resp a, ~ In (EvRead resp (Some a)) evs) /\
       r = Abort (Throw std_exception)) \/
      (after = [] /\ r = Abort (Throw (Foreign what))))).
Proof.
  intros Hrun Hin.
  destruct (readValues_importer_raises blocking st st' r evs i what Hrun Hin)
    as (reads & after & -> & Hreads & Hlen & Hcases).
  assert (Forall (fun e => no_import e = true) after /\
          ((exists a, after = [EvCatch (HookError what); EvDecref a] /\
                      r = Abort (Throw std_exception)) \/
           (after = [EvCatch (HookError what)] /\
            Forall (fun e => exists resp, e = EvRead resp None) reads /\
            r = Abort (Throw std_exception)) \/
           (after = [] /\ r = Abort (Throw (Foreign what))))) as [Hafter Hcases'].
  { destruct Hcases as [(a & b & -> & _ & _ & _ & _ & ->)|[(-> & Hnone & ->)|(-> & -> & _)]].
    - split; [by repeat constructor|]. left. by exists a.
    - split; [by repeat constructor|]. right. by left.
    - split; [constructor|]. right. by right. }
  clear Hcases.
  split.
  { rewrite !imports_of_app, imports_of_reads, imports_of_import_events by done.
    rewrite (proj2 (imports_of_none after)) by done. by rewrite app_nil_r. }
  split; [done|]. split.
  { intros j c Hj. apply in_app_or in Hj as [Hj|Hj].
    { by apply is_read_not_import with (e := EvImport j c) in Hreads. }
    apply in_app_or in Hj as [Hj|Hj]; [|by eapply not_in_no_import in Hj].
    apply in_import_events in Hj as [_ Hj]. apply lookup_lt_Some in Hj.
    rewrite length_app, length_replicate in Hj. simpl in Hj. lia. }
  exists (reads ++ hook_events EvImport 0 (replicate i None)), after.
  split. { rewrite hook_events_app, length_replicate, <- !app_assoc. done. }
  destruct Hcases' as [Hc|[(-> & Hnone & ->)|Hc]]; [by left| |by right; right].
  right. left. split; [done|]. split; [|done].
  intros resp a Hr. rewrite app_assoc in Hr. apply in_app_or in Hr as [Hr|Hr].
  - apply not_among_reads_and_imports in Hr as [[Hr _]|(j & c & [=])]; [|done].
    by eapply read_event_not_given.
  - by repeat destruct Hr as [Hr|Hr].
Qed.


(** C6, as the code has it.  With a known node type and a configuration
    that does not parse, the constructor raises [JsonError] with the
    parser's diagnostic.  The node has been made by then (it is made before
    the configuration is parsed), nothing else has been done with it, and
    the sample pool has not been initialised. *)
Theorem malformed_json_raises_json_error
    name nodeType nodeConfig q len d (w : World) t error r (st : State) evs :
  node_type_lookup E nodeType = Some t ->
  json_loads E nodeConfig = inl error ->
  construct E name nodeType nodeConfig q len d w = (r, st, evs) ->
  r = Abort (Throw (JsonError None error)) /\
  mNode (this st) = Some t /\
  evs = [EvNodeNew (node.type_name t)] /\
  node.pool_state (mSamplePool (this st)) = node.Uninitialized /\
  world st = w.
Proof.
  intros Hlookup Hjson.
  rewrite (construct_malformed_json name nodeType nodeConfig q len d w t error Hlookup Hjson).
  by intros [= <- <- <-].
Qed.

(** C8, as the code has it.  When the memory system fails to initialise
    (a code other than 0), the constructor raises [RuntimeError] to the
    caller: nothing is logged, the process does not exit, and the sample
    pool has not been initialised. *)
Theorem memory_init_failure_raises_runtime_error
    name nodeType nodeConfig q len d (w : World) t config r (st : State) evs :
  node_type_lookup E nodeType = Some t ->
  json_loads E nodeConfig = inr config ->
  (0 <= node_parse E config (uuid_generate_random E))%Z ->
  (0 <= node_check E)%Z ->
  memory_init E 100 <> 0%Z ->
  construct E name nodeType nodeConfig q len d w = (r, st, evs) ->
  r = Abort (Throw (RuntimeError "Error: VillasNode failed to initialize memory system" [])) /\
  (forall level fmt args, ~ In (EvLog level fmt args) evs) /\
  node.pool_state (mSamplePool (this st)) = node.Uninitialized.
Proof.
  intros Hlookup Hjson Hparse Hcheck Hmem.
  rewrite (construct_memory_init_fails name nodeType nodeConfig q len d w t config
             Hlookup Hjson Hparse Hcheck Hmem).
  intros [= <- <- <-]. split; [done|]. split; [|done].
  intros level fmt args Hin. by repeat destruct Hin as [Hin|Hin].
Qed.

(** [writeValues] has no [sample_decref]. *)
Lemma writeValues_never_releases :
  emits (fun e => no_decref e = true) (writeValues E : M unit).
Proof. unfold writeValues. emits_auto. Qed.

(** ** The states of an open adapter *)

Lemma construct_returns name nodeType nodeConfig q len d (w : World) (st : State) evs :
  construct E name nodeType nodeConfig q len d w = (Val tt, st, evs) ->
  constructed st /\ NoDup (node.pool_queue (mSamplePool (this st))).
Proof.
  unfold construct, constructor_body. rewrite run_gets. cbn.
  destruct (node_type_lookup E nodeType) as [t|]; [|by msteps].
  msteps. destruct (json_loads E nodeConfig) as [error|config]; [by msteps|].
  rewrite run_the_node. msteps.
  destruct (node_parse E config (uuid_generate_random E) <? 0)%Z; [by msteps|]. msteps.
  destruct (node_check E <? 0)%Z; [by msteps|]. msteps.
  destruct (memory_init E 100 =? 0)%Z; [|by msteps]. msteps.
  unfold do_pool_init. msteps.
  destruct (0 <=? pool_init E q len)%Z; msteps.
  - destruct (pool_init E q len <? 0)%Z; [by msteps|]. msteps.
    destruct (node_prepare E <? 0)%Z; msteps; [done|].
    intros [= <- <-]. split; [by eexists|]. cbn. apply NoDup_seq.
  - destruct (pool_init E q len <? 0)%Z; [by msteps|]. msteps.
    destruct (node_prepare E <? 0)%Z; msteps; [done|].
    intros [= <- <-]. split; [by eexists|]. cbn. constructor.
Qed.

Lemma configured_sound (st : State) :
  configured E st -> constructed st /\ NoDup (node.pool_queue (mSamplePool (this st))).
Proof.
  induction 1 as [name nodeType nodeConfig q len d w st evs Hrun
                 |st st' evs l _ IH Hrun|st st' evs l _ IH Hrun].
  - by eapply construct_returns.
  - by injection Hrun as <- <-.
  - by injection Hrun as <- <-.
Qed.

Lemma writeValues_returns (st st' : State) evs :
  constructed st ->
  last_sample_held st ->
  writeValues E st = (Val tt, st', evs) ->
  constructed st' /\ last_sample_held st'.
Proof.
  intros Hnode Hheld Hrun.
  assert (forall q a (st1 : State),
            node.pool_queue (mSamplePool (this st)) = a :: q ->
            mLastSample (this st1) = mLastSample (this st) ->
            node.pool_queue (mSamplePool (this st1)) = q ->
            last_sample_held st1)
    as Htail.
  { intros q a st1 Hq Hl Hq1 l Hl1 Hin. rewrite Hl in Hl1. apply (Hheld _ Hl1).
    rewrite Hq. right. by rewrite <- Hq1. }
  writeValues_paths st a q b h' s' calls thr Hq Hb Hhooks.
  - destruct (writeValues_no_block st Hq) as [st1 Hrun1]. by rewrite Hrun1 in Hrun.
  - destruct thr as [[w|w]|].
    2:{ by rewrite (writeValues_export_raises_other st a q b h' s' calls w Hnode Hq Hb Hhooks)
          in Hrun. }
    + rewrite (writeValues_export_raises st a q b h' s' calls w Hnode Hq Hb Hhooks) in Hrun.
      cbv zeta in Hrun. destruct (write_retry _ _ _) as [[rr rest] wevs].
      injection Hrun as _ <- _. split; [done|]. by apply (Htail q a _ eq_refl).
    + destruct (write_retry (Some a)
                  (Some (framed E (mSequence (this st)) (clock_realtime E (ticks (world st))) s'))
                  (node_writes (world st))) as [[[c|ab] rest] wevs] eqn:Hretry.
      * rewrite (writeValues_submitted st a q b h' s' calls c rest wevs Hnode Hq Hb Hhooks Hretry) in Hrun.
        cbv zeta in Hrun.
        destruct (mLastSample (this st) ≫= _) as [[x lb]|]; [|done].
        injection Hrun as <- _. split; [done|]. by apply (Htail q a _ eq_refl).
      * destruct (write_retry_aborts _ _ _ _ _ _ Hretry) as [->|(w & -> & _)].
        -- destruct (writeValues_write_blocks st a q b h' s' calls rest wevs Hnode Hq Hb Hhooks Hretry)
             as [st1 Hrun1].
           by rewrite Hrun1 in Hrun.
        -- rewrite (writeValues_write_raises st a q b h' s' calls _ rest wevs Hnode Hq Hb Hhooks Hretry) in Hrun.
           destruct (write_retry (Some a) _ rest) as [[rr rest2] wevs2].
           injection Hrun as _ <- _. split; [done|]. by apply (Htail q a _ eq_refl).
  - destruct (writeValues_dangling st a q Hq Hb) as [st1 Hrun1]. by rewrite Hrun1 in Hrun.
Qed.

(** A call of [readValues] that returns has released a sample of the
    transport: the members are as before. *)
Lemma readValues_returns blocking (st st' : State) evs :
  readValues E blocking st = (Val tt, st', evs) -> this st' = this st.
Proof.
  unfold readValues. rewrite run_put_sample, run_put_ret, run_try_catch.
  rewrite run_gets. cbn beta. rewrite run_bind.
  set (st0 := with_locals (set_ret 0) (with_locals (set_sample None) st)).
  match goal with |- context [catch_res _ ?h] => set (handler := h) end.
  assert (forall e (st1 st2 : State) evs2, handler e st1 <> (Val tt, st2, evs2)) as Hhandler.
  { intros e st1 st2 evs2. subst handler. cbn beta. rewrite run_get_sample, run_bind.
    destruct (when _ _ st1) as [[[[]|ab] st3] e3]; cbn [bind_res]; [|done].
    by unfold throw, abort. }
  destruct (while _ _ _ st0) as [[[[]|ab] st1] e1] eqn:Hloop;
    apply read_loop_frame in Hloop as (Hthis & Hreads & Hown);
    cbn [bind_res].
  2:{ destruct ab as [e| | |]; cbn [catch_res]; try done.
      destruct (is_std_exception e); [|done].
      destruct (handler e st1) as [[r2 st2] e2] eqn:Hrun2. cbn.
      intros [= -> <- <-]. by apply Hhandler in Hrun2. }
  specialize (Hown ltac:(by intros a [=])).
  rewrite catch_res_with_events. rewrite run_get_ret. cbn beta.
  destruct (ret (locals st1) <? 0)%Z.
  { cbn [when]. rewrite run_fatal.
    match goal with |- context [(?m1;; ?m2;; std_exit ?c) st1] =>
      destruct (@fatal_aborts unit m1 m2 c st1) as (ab & st2 & e2 & ->)
    end.
    destruct ab as [e| | |]; cbn [catch_res with_events]; try done.
    destruct (is_std_exception e); [|done].
    destruct (handler e st2) as [[r3 st3] e3] eqn:Hrun3. cbn.
    intros [= -> <- <-]. by apply Hhandler in Hrun3. }
  cbn [when]. rewrite run_ret, run_gets. cbn beta.
  destruct (sample (locals st1)) as [a|] eqn:Hsample.
  2:{ rewrite run_bind, (for_hooks_null_run _ _ _ _ Hsample).
      destruct (run_hooks_null _ _) as [[h' calls] [[]|[e|c| |]]]; cbn [bind_res]; try done.
      - rewrite run_get_sample. cbn [with_world locals sample]. rewrite Hsample.
        unfold sample_decref. by rewrite run_deref.
      - cbn [catch_res]. destruct (is_std_exception e); [|done].
        destruct (handler e _) as [[r2 st2] e2] eqn:Hrun2. cbn.
        intros [= -> <- <-]. by apply Hhandler in Hrun2. }
  destruct (Hown a Hsample) as (b & Hb & Hrefcnt & Howner).
  rewrite run_bind, (for_hooks_run _ _ _ _ a b Hsample Hb).
  destruct (run_hooks _ _ _) as [[[h' s'] calls] [w|]] eqn:Hhooks;
    cbn [hooks_outcome bind_res].
  { cbn [catch_res]. destruct (is_std_exception (thrown w)); [|done].
    destruct (handler _ _) as [[r2 st2] e2] eqn:Hrun2. cbn.
    intros [= -> <- <-]. by apply Hhandler in Hrun2. }
  rewrite run_get_sample. cbn [hooked with_world locals sample]. rewrite Hsample.
  unfold sample_decref. rewrite run_deref.
  cbn [hooked with_world world heap set_heap].
  rewrite list_lookup_insert_eq by (by eapply lookup_lt_Some). cbn beta iota.
  unfold store. rewrite run_modify, run_emit.
  cbn [set_smp refcnt owner]. rewrite Hrefcnt, Howner.
  change (1 - 1 =? 0)%Z with true. cbn.
  intros [= <- <-]. cbn. by rewrite Hthis.
Qed.

(** An open adapter has its node, and its last-good sample is not a free
    block of the pool. *)
Lemma running_sound (st : State) :
  running E st -> constructed st /\ last_sample_held st.
Proof.
  induction 1 as [st0 st evs Hconf Hrun|st st' evs _ [Hnode Hheld] Hrun
                 |st st' blocking evs _ [Hnode Hheld] Hrun].
  - apply configured_sound in Hconf as [_ Hnodup].
    apply open_returns in Hrun
      as (_ & _ & _ & _ & _ & Hnode & l & q & lb & Hq0 & Hq & Hl & _).
    split; [done|]. intros l' Hl'. rewrite Hl in Hl'. injection Hl' as <-.
    rewrite Hq. rewrite Hq0 in Hnodup. by apply NoDup_cons in Hnodup as [? _].
  - by eapply writeValues_returns.
  - apply readValues_returns in Hrun. unfold constructed, last_sample_held.
    by rewrite Hrun.
Qed.

(** ** The constructor: what it leaves, and how it ends *)

Lemma lookup_pool_block (heap0 : list Block) (f : nat -> Block) q a :
  a ∈ seq (length heap0) q ->
  (heap0 ++ map f (seq 0 q)) !! a = Some (f (a - length heap0)).
Proof.
  intros [Hge Hlt]%elem_of_seq.
  rewrite lookup_app_r by done.
  change (map f (seq 0 q)) with (f <$> seq 0 q).
  rewrite list_lookup_fmap, lookup_seq_lt by lia. done.
Qed.

(** X1.  When every step succeeds the constructor returns: the node is made,
    parsed, checked and prepared in this order, the pool holds
    [queueLenght] free blocks with room for [sampleLenght] values each,
    no hook is registered, and the sample memory that was there is as it
    was.  (The constructor assigns neither [mOpened] nor [mLastSample].) *)
Theorem construct_makes_node_and_pool name nodeType nodeConfig q len d (w : World) t config :
  node_type_lookup E nodeType = Some t ->
  json_loads E nodeConfig = inr config ->
  (0 <= node_parse E config (uuid_generate_random E))%Z ->
  (0 <= node_check E)%Z ->
  memory_init E 100 = 0%Z ->
  (0 <= pool_init E q len)%Z ->
  (0 <= node_prepare E)%Z ->
  exists st,
    construct E name nodeType nodeConfig q len d w =
      (Val tt, st,
       [EvNodeNew (node.type_name t);
        EvNodeParse (node_parse E config (uuid_generate_random E));
        EvNodeCheck (node_check E);
        EvMemoryInit 0;
        EvPoolInit (pool_init E q len);
        EvNodePrepare (node_prepare E)]) /\
    mNode (this st) = Some t /\
    mImports (this st) = [] /\
    mExports (this st) = [] /\
    node.pool_state (mSamplePool (this st)) = node.Initialized /\
    node.pool_capacity (mSamplePool (this st)) = len /\
    node.pool_queue (mSamplePool (this st)) = seq (length (heap w)) q /\
    (forall a, a < length (heap w) -> heap (world st) !! a = heap w !! a) /\
    (forall a, a ∈ node.pool_queue (mSamplePool (this st)) ->
       exists b, heap (world st) !! a = Some b /\ refcnt b = 0%Z /\
                 owner b = FromSamplePool /\ length (node.data (smp b)) = len).
Proof.
  intros Hlookup Hjson Hparse Hcheck Hmem Hpool Hprepare.
  unfold construct, constructor_body. rewrite run_gets. cbn. rewrite Hlookup.
  msteps. rewrite Hjson. rewrite run_the_node. msteps.
  destruct (Z.ltb_spec (node_parse E config (uuid_generate_random E)) 0) as [?|_]; [lia|]. msteps.
  destruct (Z.ltb_spec (node_check E) 0) as [?|_]; [lia|]. msteps.
  rewrite Hmem. msteps. unfold do_pool_init. msteps.
  destruct (Z.leb_spec 0 (pool_init E q len)) as [_|?]; [|lia]. msteps.
  destruct (Z.ltb_spec (pool_init E q len) 0) as [?|_]; [lia|]. msteps.
  destruct (Z.ltb_spec (node_prepare E) 0) as [?|_]; [lia|]. msteps.
  eexists. split; [reflexivity|]. cbn.
  repeat (split; [done|]). split.
  - intros a Ha. by rewrite lookup_app_l.
  - intros a Ha. eexists. split; [by apply lookup_pool_block|].
    cbn. repeat (split; [done|]). apply length_resize.
Qed.

(** X2.  The constructor returns only when every step has succeeded: the type
    is known, the configuration parses, the node accepts it, the memory
    system and the pool are initialised and the node is prepared. *)
Theorem construct_returns_only_after_every_step
    name nodeType nodeConfig q len d (w : World) (st : State) evs :
  construct E name nodeType nodeConfig q len d w = (Val tt, st, evs) ->
  exists t config,
    node_type_lookup E nodeType = Some t /\
    json_loads E nodeConfig = inr config /\
    (0 <= node_parse E config (uuid_generate_random E))%Z /\
    (0 <= node_check E)%Z /\
    memory_init E 100 = 0%Z /\
    (0 <= pool_init E q len)%Z /\
    (0 <= node_prepare E)%Z.
Proof.
  unfold construct, constructor_body. rewrite run_gets. cbn.
  destruct (node_type_lookup E nodeType) as [t|]; [|by msteps].
  msteps. destruct (json_loads E nodeConfig) as [error|config]; [by msteps|].
  rewrite run_the_node. msteps.
  destruct (Z.ltb_spec (node_parse E config (uuid_generate_random E)) 0); [by msteps|]. msteps.
  destruct (Z.ltb_spec (node_check E) 0); [by msteps|]. msteps.
  destruct (Z.eqb_spec (memory_init E 100) 0); [|by msteps]. msteps.
  unfold do_pool_init. msteps.
  destruct (0 <=? pool_init E q len)%Z; msteps;
    (destruct (Z.ltb_spec (pool_init E q len) 0); [by msteps|]); msteps;
    (destruct (Z.ltb_spec (node_prepare E) 0); msteps; [done|]);
    intros _; by eexists _, _.
Qed.

Ltac last_event :=
  first [ by eexists [], _, _ | by eexists [_], _, _ | by eexists [_; _], _, _
        | by eexists [_; _; _], _, _ | by eexists [_; _; _; _], _, _
        | by eexists [_; _; _; _; _], _, _ | by eexists [_; _; _; _; _; _], _, _ ].

Ltac no_such_event :=
  let Hin := fresh in
  intros ? ? ? Hin; repeat destruct Hin as [Hin|Hin]; done.

(** X3.  The constructor logs only errors, and only to end the process: a run
    that logs ends with [exit(1)], and a run that ends with [exit] has the
    code 1 and an error message as its last event. *)
Theorem constructor_logs_only_before_exit
    name nodeType nodeConfig q len d (w : World) r (st : State) evs :
  construct E name nodeType nodeConfig q len d w = (r, st, evs) ->
  (forall level fmt args, In (EvLog level fmt args) evs ->
     level = Error /\ r = Abort (Exit 1)) /\
  (forall c, r = Abort (Exit c) ->
     c = 1%Z /\ exists pre fmt args, evs = pre ++ [EvLog Error fmt args]).
Proof.
  unfold construct, constructor_body. rewrite run_gets. cbn.
  destruct (node_type_lookup E nodeType) as [t|]; msteps.
  2:{ intros [= <- <- <-]. split; [by intros ? ? ? [[= <- <- <-]|[]]|].
      intros c [= <-]. split; [done|last_event]. }
  destruct (json_loads E nodeConfig) as [error|config]; msteps.
  { intros [= <- <- <-]. split; [no_such_event|done]. }
  rewrite run_the_node. msteps.
  destruct (node_parse E config (uuid_generate_random E) <? 0)%Z; msteps.
  { intros [= <- <- <-]. split.
    - intros ? ? ? Hin. repeat destruct Hin as [Hin|Hin]; try done. by injection Hin as <- <- <-.
    - intros c [= <-]. split; [done|last_event]. }
  destruct (node_check E <? 0)%Z; msteps.
  { intros [= <- <- <-]. split.
    - intros ? ? ? Hin. repeat destruct Hin as [Hin|Hin]; try done. by injection Hin as <- <- <-.
    - intros c [= <-]. split; [done|last_event]. }
  destruct (memory_init E 100 =? 0)%Z; msteps.
  2:{ intros [= <- <- <-]. split; [no_such_event|done]. }
  unfold do_pool_init. msteps.
  destruct (0 <=? pool_init E q len)%Z; msteps;
    (destruct (pool_init E q len <? 0)%Z; msteps;
     [intros [= <- <- <-]; split;
      [intros ? ? ? Hin; repeat destruct Hin as [Hin|Hin]; try done; by injection Hin as <- <- <-
      |intros c [= <-]; split; [done|last_event]]|]);
    (destruct (node_prepare E <? 0)%Z; msteps;
     [intros [= <- <- <-]; split;
      [intros ? ? ? Hin; repeat destruct Hin as [Hin|Hin]; try done; by injection Hin as <- <- <-
      |intros c [= <-]; split; [done|last_event]]|]);
    intros [= <- <- <-]; (split; [no_such_event|done]).
Qed.

(** X4.  An unknown node type: the constructor logs the name of the type and
    ends the process with the code 1; no node is made, and the pool and
    the sample memory are not touched. *)
Theorem unknown_node_type_exits name nodeType nodeConfig q len d (w : World) :
  node_type_lookup E nodeType = None ->
  exists st,
    construct E name nodeType nodeConfig q len d w =
      (Abort (Exit 1), st,
       [EvLog Error "Error: NodeType {} is not known to VILLASnode!" [ArgStr nodeType]]) /\
    mNode (this st) = None /\
    node.pool_state (mSamplePool (this st)) = node.Uninitialized /\
    world st = w.
Proof.
  intros Hlookup. eexists. split; [by apply construct_unknown_type|done].
Qed.

(** X5.  The node rejects the configuration (a negative code from [parse], or
    from [check] after a good [parse]): the constructor logs the code and
    ends the process with the code 1 before the memory system and the pool
    are initialised and before the node is prepared. *)
Theorem rejected_configuration_exits
    name nodeType nodeConfig q len d (w : World) t config r (st : State) evs :
  node_type_lookup E nodeType = Some t ->
  json_loads E nodeConfig = inr config ->
  (node_parse E config (uuid_generate_random E) < 0 \/ node_check E < 0)%Z ->
  construct E name nodeType nodeConfig q len d w = (r, st, evs) ->
  r = Abort (Exit 1) /\
  (exists pre fmt c,
     evs = EvNodeNew (node.type_name t) :: pre ++ [EvLog Error fmt [ArgInt c]] /\
     (c < 0)%Z /\
     (pre = [EvNodeParse c] \/
      pre = [EvNodeParse (node_parse E config (uuid_generate_random E)); EvNodeCheck c])) /\
  node.pool_state (mSamplePool (this st)) = node.Uninitialized /\
  world st = w.
Proof.
  intros Hlookup Hjson Hcode.
  unfold construct, constructor_body. rewrite run_gets. cbn. rewrite Hlookup.
  msteps. rewrite Hjson. rewrite run_the_node. msteps.
  destruct (Z.ltb_spec (node_parse E config (uuid_generate_random E)) 0) as [Hparse|Hparse]; msteps.
  { intros [= <- <- <-]. split; [done|]. split; [|done].
    eexists [_], _, _. split; [done|]. split; [done|]. by left. }
  destruct (Z.ltb_spec (node_check E) 0) as [Hcheck|Hcheck]; msteps; [|lia].
  intros [= <- <- <-]. split; [done|]. split; [|done].
  eexists [_; _], _, _. split; [done|]. split; [done|]. by right.
Qed.

(** X6.  [pool_init] fails: the constructor logs the code and ends the process
    with the code 1; the pool is not initialised, no block is added to the
    sample memory and the node is not prepared. *)
Theorem pool_init_failure_exits
    name nodeType nodeConfig q len d (w : World) t config :
  node_type_lookup E nodeType = Some t ->
  json_loads E nodeConfig = inr config ->
  (0 <= node_parse E config (uuid_generate_random E))%Z ->
  (0 <= node_check E)%Z ->
  memory_init E 100 = 0%Z ->
  (pool_init E q len < 0)%Z ->
  exists st,
    construct E name nodeType nodeConfig q len d w =
      (Abort (Exit 1), st,
       [EvNodeNew (node.type_name t);
        EvNodeParse (node_parse E config (uuid_generate_random E));
        EvNodeCheck (node_check E);
        EvMemoryInit 0;
        EvPoolInit (pool_init E q len);
        EvLog Error "Error: InterfaceVillas failed to init sample pool. pool_init returned code {}"
          [ArgInt (pool_init E q len)]]) /\
    node.pool_state (mSamplePool (this st)) = node.Uninitialized /\
    node.pool_queue (mSamplePool (this st)) = [] /\
    world st = w.
Proof.
  intros Hlookup Hjson Hparse Hcheck Hmem Hpool.
  unfold construct, constructor_body. rewrite run_gets. cbn. rewrite Hlookup.
  msteps. rewrite Hjson. rewrite run_the_node. msteps.
  destruct (Z.ltb_spec (node_parse E config (uuid_generate_random E)) 0) as [?|_]; [lia|]. msteps.
  destruct (Z.ltb_spec (node_check E) 0) as [?|_]; [lia|]. msteps.
  rewrite Hmem. msteps. unfold do_pool_init. msteps.
  destruct (Z.leb_spec 0 (pool_init E q len)) as [?|_]; [lia|]. msteps.
  destruct (Z.ltb_spec (pool_init E q len) 0) as [_|?]; [|lia]. msteps.
  by eexists.
Qed.

(** X7.  [prepare] fails: the constructor logs the code and ends the process
    with the code 1, and it does not destroy the pool it has initialised:
    all [queueLenght] blocks stay in the pool's queue. *)
Theorem prepare_failure_exits_with_pool
    name nodeType nodeConfig q len d (w : World) t config :
  node_type_lookup E nodeType = Some t ->
  json_loads E nodeConfig = inr config ->
  (0 <= node_parse E config (uuid_generate_random E))%Z ->
  (0 <= node_check E)%Z ->
  memory_init E 100 = 0%Z ->
  (0 <= pool_init E q len)%Z ->
  (node_prepare E < 0)%Z ->
  exists st,
    construct E name nodeType nodeConfig q len d w =
      (Abort (Exit 1), st,
       [EvNodeNew (node.type_name t);
        EvNodeParse (node_parse E config (uuid_generate_random E));
        EvNodeCheck (node_check E);
        EvMemoryInit 0;
        EvPoolInit (pool_init E q len);
        EvNodePrepare (node_prepare E);
        EvLog Error "Error: Node in InterfaceVillas failed to prepare. Prepare returned code {}"
          [ArgInt (node_prepare E)]]) /\
    node.pool_state (mSamplePool (this st)) = node.Initialized /\
    length (node.pool_queue (mSamplePool (this st))) = q.
Proof.
  intros Hlookup Hjson Hparse Hcheck Hmem Hpool Hprepare.
  unfold construct, constructor_body. rewrite run_gets. cbn. rewrite Hlookup.
  msteps. rewrite Hjson. rewrite run_the_node. msteps.
  destruct (Z.ltb_spec (node_parse E config (uuid_generate_random E)) 0) as [?|_]; [lia|]. msteps.
  destruct (Z.ltb_spec (node_check E) 0) as [?|_]; [lia|]. msteps.
  rewrite Hmem. msteps. unfold do_pool_init. msteps.
  destruct (Z.leb_spec 0 (pool_init E q len)) as [_|?]; [|lia]. msteps.
  destruct (Z.ltb_spec (pool_init E q len) 0) as [?|_]; [lia|]. msteps.
  destruct (Z.ltb_spec (node_prepare E) 0) as [_|?]; [|lia]. msteps.
  eexists. split; [done|]. cbn. split; [done|]. apply length_seq.
Qed.

(** ** [close] and [open] *)

Lemma close_run (st : State) :
  constructed st ->
  close E st =
    if (node_stop E <? 0)%Z then
      (Abort (Exit 1), st,
       [EvLog Info "Closing InterfaceVillas..." []; EvNodeStop (node_stop E);
        EvLog Error "Error: failed to stop node in InterfaceVillas. Stop returned code {}"
          [ArgInt (node_stop E)]])
    else if (pool_destroy E <? 0)%Z then
      (Abort (Exit 1), with_this (set_mOpened false) st,
       [EvLog Info "Closing InterfaceVillas..." []; EvNodeStop (node_stop E);
        EvPoolDestroy (pool_destroy E);
        EvLog Error "Error: failed to destroy SamplePool in InterfaceVillas. pool_destroy returned code {}"
          [ArgInt (pool_destroy E)]])
    else
      (Val tt, with_this closed_pool st,
       [EvLog Info "Closing InterfaceVillas..." []; EvNodeStop (node_stop E);
        EvPoolDestroy (pool_destroy E)]).
Proof.
  intros [n Hnode]. unfold close. msteps. rewrite run_the_node, Hnode. msteps.
  destruct (node_stop E <? 0)%Z; msteps; [done|].
  unfold do_pool_destroy. msteps.
  destruct (Z.leb_spec 0 (pool_destroy E)) as [Hd|Hd]; msteps.
  - destruct (Z.ltb_spec (pool_destroy E) 0) as [?|_]; [lia|]. by msteps.
  - destruct (Z.ltb_spec (pool_destroy E) 0) as [_|?]; [|lia]. by msteps.
Qed.

(** X8.  [close] stops the node and then destroys the pool; it returns when
    both succeed and ends the process with the code 1 otherwise.  When the
    node does not stop, the adapter stays as it was and the pool is not
    destroyed.  [close] never releases a sample: the last-good sample, the
    counter and the sample memory are as before. *)
Theorem close_stops_node_then_destroys_pool (st st' : State) r evs :
  constructed st ->
  close E st = (r, st', evs) ->
  (r = Val tt \/ r = Abort (Exit 1)) /\
  (r = Val tt <-> (0 <= node_stop E)%Z /\ (0 <= pool_destroy E)%Z) /\
  (r = Val tt ->
     mOpened (this st') = false /\
     node.pool_state (mSamplePool (this st')) = node.Destroyed /\
     node.pool_queue (mSamplePool (this st')) = []) /\
  ((node_stop E < 0)%Z -> this st' = this st /\ forall c, ~ In (EvPoolDestroy c) evs) /\
  ((0 <= node_stop E)%Z -> In (EvPoolDestroy (pool_destroy E)) evs /\ mOpened (this st') = false) /\
  world st' = world st /\
  mLastSample (this st') = mLastSample (this st) /\
  mSequence (this st') = mSequence (this st) /\
  (forall a, ~ In (EvDecref a) evs).
Proof.
  intros Hnode. rewrite (close_run st Hnode).
  destruct (Z.ltb_spec (node_stop E) 0) as [Hstop|Hstop];
    [|destruct (Z.ltb_spec (pool_destroy E) 0) as [Hdestroy|Hdestroy]];
    intros [= <- <- <-]; cbn.
  - split; [by right|]. split; [split; [done|lia]|]. split; [done|].
    split. { intros _. split; [done|]. intros c Hin. by repeat destruct Hin as [Hin|Hin]. }
    split; [lia|]. repeat (split; [done|]).
    intros a Hin. by repeat destruct Hin as [Hin|Hin].
  - split; [by right|]. split; [split; [done|lia]|]. split; [done|].
    split; [lia|]. split. { intros _. split; [|done]. right. right. by left. }
    repeat (split; [done|]).
    intros a Hin. by repeat destruct Hin as [Hin|Hin].
  - split; [by left|]. split; [done|]. split; [done|].
    split; [lia|]. split. { intros _. split; [|done]. right. right. by left. }
    repeat (split; [done|]).
    intros a Hin. by repeat destruct Hin as [Hin|Hin].
Qed.

(** X9.  When [open] returns, the node type and the node have started, the
    adapter is open, the counter is 0, and the last-good sample is the
    first free block of the pool, taken out of the queue with one
    reference: sequence number 0, time 0, no values, the node's input
    signals, its data zeroed up to its capacity.  No other block of the
    sample memory is changed. *)
Theorem open_takes_last_sample_from_pool (st0 st : State) evs :
  open E st0 = (Val tt, st, evs) ->
  exists t l q lb,
    mNode (this st0) = Some t /\
    node_type_start E t = 0%Z /\
    (0 <= node_start E)%Z /\
    evs = [EvLog Info "Opening InterfaceVillas..." []; EvTypeStart 0;
           EvNodeStart (node_start E); EvAlloc (Some l)] /\
    node.pool_queue (mSamplePool (this st0)) = l :: q /\
    node.pool_queue (mSamplePool (this st)) = q /\
    mLastSample (this st) = Some l /\
    mOpened (this st) = true /\
    mSequence (this st) = 0%Z /\
    heap (world st) !! l = Some lb /\
    refcnt lb = 1%Z /\
    node.sequence (smp lb) = 0%Z /\
    node.ts_origin (smp lb) = {| node.tv_sec := 0; node.tv_nsec := 0 |} /\
    node.length (smp lb) = 0 /\
    node.capacity (smp lb) = node.pool_capacity (mSamplePool (this st0)) /\
    node.signals (smp lb) = Some (getInputSignals E) /\
    take (node.capacity (smp lb)) (node.data (smp lb)) = replicate (node.capacity (smp lb)) 0%Z /\
    (forall a, a <> l -> heap (world st) !! a = heap (world st0) !! a).
Proof.
  destruct st0 as [t w l]; destruct t, w, l. destruct mSamplePool0 as [ps pb pc pq].
  unfold open. msteps. rewrite run_the_node. cbn.
  destruct mNode0 as [type|]; [|done]. msteps.
  destruct (Z.eqb_spec (node_type_start E type) 0) as [Htype|]; cbn; [|by msteps].
  msteps.
  destruct (Z.ltb_spec (node_start E) 0) as [|Hstart]; cbn.
  { msteps. rewrite run_bind.
    destruct (close E _) as [[[[]|c] st1] e1]; cbn; [by msteps|done]. }
  msteps. rewrite run_sample_alloc. cbn.
  destruct pq as [|a q]; msteps.
  { by rewrite run_last_sample_update. }
  rewrite run_last_sample_update. cbn. rewrite list_lookup_alter_eq.
  destruct (heap0 !! a) as [b|] eqn:Hb; cbn; [|done].
  assert (a < length heap0) as Hlt by (by eapply lookup_lt_Some).
  rewrite run_last_sample_update. cbn.
  rewrite list_lookup_insert_eq by (by rewrite length_alter). cbn.
  rewrite run_last_sample_update. cbn.
  rewrite list_lookup_insert_eq by (by rewrite length_insert, length_alter). cbn.
  unfold last_sample_update, store. msteps. rewrite run_deref. cbn.
  rewrite list_lookup_insert_eq by (by rewrite !length_insert, length_alter). cbn.
  intros [= <- <-]. cbn. rewrite Htype.
  eexists type, a, q, _. repeat (split; [done|]).
  split. { apply list_lookup_insert_eq. by rewrite !length_insert, length_alter. }
  cbn. repeat (split; [done|]).
  split. { apply take_app_length'. by rewrite length_replicate. }
  intros x Hx. rewrite !list_lookup_insert_ne by done. by rewrite list_lookup_alter_ne.
Qed.

(** X10.  The node does not start (a negative code from [start]): [open] logs
    the code, calls [close] and ends the process with the code 1.  It
    takes no sample from the pool, and the counter and the last-good
    sample are as before. *)
Theorem node_start_failure_closes_and_exits (st st' : State) r evs t :
  mNode (this st) = Some t ->
  node_type_start E t = 0%Z ->
  (node_start E < 0)%Z ->
  open E st = (r, st', evs) ->
  r = Abort (Exit 1) /\
  (exists cevs,
     evs = [EvLog Info "Opening InterfaceVillas..." []; EvTypeStart 0;
            EvNodeStart (node_start E);
            EvLog Error "Fatal error: failed to start node in InterfaceVillas. Start returned code {}"
              [ArgInt (node_start E)]] ++ cevs /\
     (close E st).2 = cevs) /\
  In (EvNodeStop (node_stop E)) evs /\
  (forall p, ~ In (EvAlloc p) evs) /\
  mSequence (this st') = mSequence (this st) /\
  mLastSample (this st') = mLastSample (this st) /\
  world st' = world st.
Proof.
  intros Hnode Htype Hstart. unfold open. msteps. rewrite run_the_node, Hnode. msteps.
  rewrite Htype. msteps.
  destruct (Z.ltb_spec (node_start E) 0) as [_|?]; [|lia]. cbn [when].
  rewrite run_fatal, run_log_error, run_bind.
  rewrite (close_run st) by (by eexists).
  destruct (node_stop E <? 0)%Z; [|destruct (pool_destroy E <? 0)%Z];
    cbn; intros [= <- <- <-]; cbn;
    (split; [done|]); (split; [by eexists|]);
    (split; [auto 10|]); (split; [|done]);
    intros p Hin; by repeat destruct Hin as [Hin|Hin].
Qed.

(** X11.  With no free block in the pool, [open] gets the null pointer from
    [sample_alloc] and dereferences it: the adapter is marked open and the
    counter is 0, but there is no last-good sample. *)
Theorem open_without_free_block_crashes (st : State) t :
  mNode (this st) = Some t ->
  node_type_start E t = 0%Z ->
  (0 <= node_start E)%Z ->
  node.pool_queue (mSamplePool (this st)) = [] ->
  exists st',
    open E st =
      (Abort Crash, st',
       [EvLog Info "Opening InterfaceVillas..." []; EvTypeStart 0;
        EvNodeStart (node_start E); EvAlloc None]) /\
    mOpened (this st') = true /\
    mSequence (this st') = 0%Z /\
    mLastSample (this st') = None /\
    world st' = world st.
Proof.
  intros Hnode Htype Hstart Hq.
  destruct st as [th w l]; destruct th, w, l. destruct mSamplePool0 as [ps pb pc pq].
  cbn in Hnode, Hq. subst.
  unfold open. msteps. rewrite run_the_node. msteps.
  rewrite Htype. msteps.
  destruct (Z.ltb_spec (node_start E) 0) as [?|_]; [lia|]. msteps.
  rewrite run_sample_alloc. msteps. rewrite run_last_sample_update. cbn.
  by eexists.
Qed.

(** ** [writeValues] and the pool *)

Lemma keeps_node_write {X} (g : @InterfaceVillas H -> X) p : keeps g (node_write p : M Z).
Proof.
  intros st r st' evs. unfold node_write.
  destruct (mNode (this st)); [|by intros [= <- <- <-]].
  destruct (node_writes (world st)) as [|[c|what] rest]; by intros [= <- <- <-].
Qed.

Lemma keeps_do_while {X} (g : @InterfaceVillas H -> X) fuel (body : M unit) (cond : M bool) :
  keeps g cond -> keeps g body -> keeps g (do_while fuel body cond).
Proof.
  intros Hc Hb. apply keeps_bind; [done|]. intros _. by apply keeps_while.
Qed.

Ltac keeps_more :=
  first [ keeps_step
        | apply keeps_node_write
        | apply keeps_do_while
        | progress unfold sample_copy, clock_gettime ].

(** After [sample_alloc], [writeValues] changes of the members only the
    counter. *)
Lemma writeValues_members (st st' : State) r evs :
  writeValues E st = (r, st', evs) ->
  (mOpened (this st'), mNode (this st'), mImports (this st'), mExports (this st'),
   mLastSample (this st'), mSamplePool (this st')) =
  (mOpened (this st), mNode (this st), mImports (this st), mExports (this st),
   mLastSample (this st),
   set_pool_queue (tail (node.pool_queue (mSamplePool (this st)))) (mSamplePool (this st))).
Proof.
  unfold writeValues.
  rewrite run_put_sample, run_put_ret, run_put_done, run_try_catch, run_sample_alloc.
  cbn [with_locals this].
  destruct (node.pool_queue (mSamplePool (this st))) as [|a q] eqn:Hq;
    rewrite catch_res_with_events, <- run_try_catch;
    (destruct (try_catch _ _ _) as [[r2 st2] e2] eqn:Htry); cbn [with_events];
    intros [= <- <- <-];
    match type of Htry with ?m _ = _ =>
      assert (keeps (fun t => (mOpened t, mNode t, mImports t, mExports t,
                               mLastSample t, mSamplePool t)) m) as Hkeeps
        by (repeat keeps_more)
    end;
    apply Hkeeps in Htry; rewrite Htry; cbn.
  - destruct st as [[] w l]. cbn in *. destruct mSamplePool0. cbn in *. by subst.
  - done.
Qed.

(** X12.  Every call of [writeValues] takes the first free block out of the
    pool's queue and does not put it back, however the call ends; it never
    releases a sample.  The registries, the node, the last-good pointer and
    the rest of the pool are as before. *)
Theorem writeValues_takes_one_block_for_good (st st' : State) r evs :
  writeValues E st = (r, st', evs) ->
  node.pool_queue (mSamplePool (this st')) = tail (node.pool_queue (mSamplePool (this st))) /\
  (forall a, ~ In (EvDecref a) evs) /\
  In (EvAlloc (head (node.pool_queue (mSamplePool (this st))))) evs /\
  node.pool_state (mSamplePool (this st')) = node.pool_state (mSamplePool (this st)) /\
  node.pool_capacity (mSamplePool (this st')) = node.pool_capacity (mSamplePool (this st)) /\
  mLastSample (this st') = mLastSample (this st) /\
  mImports (this st') = mImports (this st) /\
  mExports (this st') = mExports (this st) /\
  mNode (this st') = mNode (this st) /\
  mOpened (this st') = mOpened (this st).
Proof.
  intros Hrun. pose proof (writeValues_members _ _ _ _ Hrun) as [= -> -> -> -> -> ->].
  split; [done|]. split.
  { intros a Hin. apply writeValues_never_releases in Hrun.
    rewrite Forall_forall in Hrun. by apply list_elem_of_In, Hrun in Hin. }
  split; [|done].
  revert Hrun. unfold writeValues.
  rewrite run_put_sample, run_put_ret, run_put_done, run_try_catch, run_sample_alloc.
  cbn [with_locals this].
  destruct (node.pool_queue (mSamplePool (this st))) as [|a q];
    rewrite catch_res_with_events;
    (destruct (catch_res _ _) as [[r2 st2] e2]); cbn [with_events];
    intros [= <- <- <-]; by left.
Qed.

Lemma construct_queue name nodeType nodeConfig q len d (w : World) (st : State) evs :
  construct E name nodeType nodeConfig q len d w = (Val tt, st, evs) ->
  mQueueLenght (this st) = q /\
  node.pool_queue (mSamplePool (this st)) = seq (length (heap w)) q.
Proof.
  unfold construct, constructor_body. rewrite run_gets. cbn.
  destruct (node_type_lookup E nodeType) as [t|]; [|by msteps].
  msteps. destruct (json_loads E nodeConfig) as [error|config]; [by msteps|].
  rewrite run_the_node. msteps.
  destruct (node_parse E config (uuid_generate_random E) <? 0)%Z; [by msteps|]. msteps.
  destruct (node_check E <? 0)%Z; [by msteps|]. msteps.
  destruct (memory_init E 100 =? 0)%Z; [|by msteps]. msteps.
  unfold do_pool_init. msteps.
  destruct (Z.leb_spec 0 (pool_init E q len)); msteps.
  - destruct (pool_init E q len <? 0)%Z; [by msteps|]. msteps.
    destruct (node_prepare E <? 0)%Z; msteps; [done|].
    by intros [= <- <-].
  - destruct (Z.ltb_spec (pool_init E q len) 0); [by msteps|lia].
Qed.

Lemma configured_queue_length (st : State) :
  configured E st -> length (node.pool_queue (mSamplePool (this st))) = mQueueLenght (this st).
Proof.
  induction 1 as [name nodeType nodeConfig q len d w st evs Hrun
                 |st st' evs l _ IH Hrun|st st' evs l _ IH Hrun].
  - apply construct_queue in Hrun as [-> ->]. apply length_seq.
  - by injection Hrun as <- <-.
  - by injection Hrun as <- <-.
Qed.

Lemma ticks_returned_queue (st st' : State) cs :
  ticks_returned E st cs st' ->
  length (List.filter is_send cs) + length (node.pool_queue (mSamplePool (this st'))) =
  length (node.pool_queue (mSamplePool (this st))).
Proof.
  induction 1 as [st|st st1 st' c evs cs Htick Hrun _ IH]; [done|].
  destruct c as [| |blocking|]; try done; cbn [call] in Hrun; simpl.
  - apply readValues_returns in Hrun. by rewrite <- Hrun.
  - destruct (node.pool_queue (mSamplePool (this st))) as [|a q] eqn:Hq.
    { destruct (writeValues_no_block st Hq) as [st2 Hrun2]. by rewrite Hrun2 in Hrun. }
    pose proof (writeValues_members _ _ _ _ Hrun) as [= _ _ _ _ _ Hpool].
    rewrite Hpool, Hq in IH. simpl in *. lia.
Qed.

(** X13.  The pool bounds the number of sends.  After the construction with
    [queueLenght] samples and [open], every call of [writeValues] that
    returns has used up one block of the pool and [open] has used one: the
    calls of [writeValues] that return in the life of the adapter are fewer
    than [queueLenght], whatever calls of [readValues] come between them. *)
Theorem pool_bounds_the_number_of_sends (st0 st st' : State) evs cs :
  configured E st0 ->
  open E st0 = (Val tt, st, evs) ->
  ticks_returned E st cs st' ->
  length (List.filter is_send cs) < mQueueLenght (this st0) /\
  length (node.pool_queue (mSamplePool (this st'))) =
    mQueueLenght (this st0) - 1 - length (List.filter is_send cs).
Proof.
  intros Hconf Hopen Hticks.
  apply configured_queue_length in Hconf.
  apply open_returns in Hopen as (_ & _ & _ & _ & _ & _ & l & q & lb & Hq0 & Hq & _).
  apply ticks_returned_queue in Hticks.
  rewrite Hq0 in Hconf. rewrite Hq in Hticks. simpl in Hconf. lia.
Qed.

(** X14.  With no free block in the pool, [writeValues] gets the null pointer
    from [sample_alloc] and dereferences it before any exporter is called:
    nothing is sent, and the adapter and its world are as before. *)
Theorem writeValues_without_free_block_crashes (st : State) :
  constructed st ->
  node.pool_queue (mSamplePool (this st)) = [] ->
  exists st',
    writeValues E st = (Abort Crash, st', [EvAlloc None]) /\
    this st' = this st /\
    world st' = world st.
Proof.
  intros [n Hnode] Hq. unfold writeValues. repeat mstep.
  rewrite run_try_catch, run_sample_alloc.
  cbn. rewrite Hq. repeat mstep. rewrite run_the_node. cbn. rewrite Hnode.
  rewrite run_sample_update. cbn. by eexists.
Qed.

(** ** [writeValues]: the exporters, the framing and the last-good sample *)

Lemma run_hooks_all_called (hooks : list (@Hook H)) : forall h s h' s' calls,
  run_hooks hooks h s = (h', s', calls, None) -> calls = replicate (length hooks) None.
Proof.
  induction hooks as [|hk rest IH]; intros h s h' s' calls; simpl.
  - by intros [= <- <- <-].
  - destruct (on_sample hk h s) as [[h1 s1] [what|]]; [done|].
    destruct (run_hooks rest h1 s1) as [[[h2 s2] calls2] thr] eqn:Hrest.
    intros [= <- <- <- ->]. f_equal. by eapply IH.
Qed.

Lemma run_hooks_raise_event (hooks : list (@Hook H)) h s h' s' calls raised ev :
  run_hooks hooks h s = (h', s', calls, Some raised) ->
  exists i, In (ev i (Some (what_of raised))) (hook_events ev 0 calls).
Proof.
  intros Hrun. apply run_hooks_calls in Hrun as [_ (pre & -> & _)].
  exists (0 + length pre). rewrite hook_events_app. apply in_or_app. right. by left.
Qed.

Lemma sends_write_retry a s ws r rest wevs :
  write_retry (Some a) (Some s) ws = (r, rest, wevs) -> Forall (sends a s) wevs.
Proof.
  intros Hretry. pose proof (write_retry_writes (Some a) (Some s) ws) as Hall.
  rewrite Hretry in Hall. eapply Forall_impl; [exact Hall|]. by intros e [resp ->].
Qed.

Lemma sends_write_failed_log a s r : Forall (sends a s) (write_failed_log r).
Proof.
  destruct r as [c|ab]; simpl; [|constructor].
  destruct (c <? 0)%Z; by repeat constructor.
Qed.

(** The paths of [writeValues] on which no exporter raises and the node's
    write is called. *)
Lemma writeValues_normal_path (st st' : State) r evs p0 s0 resp0 :
  constructed st ->
  writeValues E st = (r, st', evs) ->
  (forall i what, ~ In (EvExport i (Some what)) evs) ->
  In (EvWrite p0 s0 resp0) evs ->
  exists a q b h' s' rest,
    node.pool_queue (mSamplePool (this st)) = a :: q /\
    heap (world st) !! a = Some b /\
    run_hooks (mExports (this st)) (host (world st))
      (fresh_sample E (node.pool_capacity (mSamplePool (this st))) (smp b)) =
      (h', s', replicate (length (mExports (this st))) None, None) /\
    evs = EvAlloc (Some a) ::
          hook_events EvExport 0 (replicate (length (mExports (this st))) None) ++ rest /\
    Forall (sends a (framed E (mSequence (this st)) (clock_realtime E (ticks (world st))) s'))
      rest /\
    (r = Val tt ->
       host (world st') = h' /\
       ticks (world st') = S (ticks (world st)) /\
       mSequence (this st') = next_sequence (mSequence (this st))).
Proof.
  intros Hnode Hrun Hexports Hwrite.
  writeValues_paths st a q b h' s' calls thr Hq Hb Hhooks.
  - destruct (writeValues_no_block st Hq) as [st1 Hrun1].
    rewrite Hrun1 in Hrun. injection Hrun as <- <- <-. by in_events Hwrite.
  - destruct thr as [[w|w]|].
    2:{ exfalso.
        rewrite (writeValues_export_raises_other st a q b h' s' calls w Hnode Hq Hb Hhooks)
          in Hrun.
        injection Hrun as <- <- <-. by in_events Hwrite. }
    + exfalso.
      rewrite (writeValues_export_raises st a q b h' s' calls w Hnode Hq Hb Hhooks) in Hrun.
      cbv zeta in Hrun. destruct (write_retry _ _ _) as [[rr rest] wevs].
      injection Hrun as _ _ <-.
      destruct (run_hooks_raise_event _ _ _ _ _ _ _ EvExport Hhooks) as [i Hi].
      apply (Hexports i w). right. apply in_or_app. by left.
    + pose proof (run_hooks_all_called _ _ _ _ _ _ Hhooks) as ->.
      set (s1 := framed E (mSequence (this st)) (clock_realtime E (ticks (world st))) s').
      destruct (write_retry (Some a) (Some s1) (node_writes (world st)))
        as [[[c|ab] rest] wevs] eqn:Hretry;
        (assert (Forall (sends a s1) wevs) as Hwevs
           by (eapply sends_write_retry; exact Hretry)).
      * rewrite (writeValues_submitted st a q b h' s' _ c rest wevs Hnode Hq Hb Hhooks Hretry)
          in Hrun.
        cbv zeta in Hrun.
        exists a, q, b, h', s', (wevs ++ write_failed_log (Val c)).
        do 3 (split; [done|]).
        assert (Forall (sends a s1) (wevs ++ write_failed_log (Val c))) as Hsends.
        { apply Forall_app. split; [done|apply sends_write_failed_log]. }
        destruct (mLastSample (this st) ≫= _) as [[x lb]|]; injection Hrun as <- <- <-;
          by repeat split.
      * destruct (write_retry_aborts _ _ _ _ _ _ Hretry) as [->|(w & -> & _)].
        -- destruct (writeValues_write_blocks st a q b h' s' _ rest wevs Hnode Hq Hb Hhooks Hretry)
             as [st1 Hrun1].
           rewrite Hrun1 in Hrun. injection Hrun as <- <- <-.
           exists a, q, b, h', s', wevs. do 5 (split; [done|]). done.
        -- rewrite (writeValues_write_raises st a q b h' s' _ _ rest wevs Hnode Hq Hb Hhooks Hretry)
             in Hrun.
           destruct (write_retry (Some a) _ rest) as [[rr rest2] wevs2] eqn:Hretry2.
           injection Hrun as <- <- <-.
           exists a, q, b, h', s', (wevs ++ EvCatch (NodeError w) :: wevs2 ++ write_failed_log rr).
           do 4 (split; [done|]).
           split; [|done].
           apply Forall_app. split; [done|].
           constructor; [done|]. apply Forall_app. split; [|apply sends_write_failed_log].
           eapply sends_write_retry; exact Hretry2.
  - destruct (writeValues_dangling st a q Hq Hb) as [st1 Hrun1].
    rewrite Hrun1 in Hrun. injection Hrun as <- <- <-. by in_events Hwrite.
Qed.

Lemma write_retry_nonzero p s ws : forall r rest wevs p' s' c,
  write_retry p s ws = (r, rest, wevs) ->
  In (EvWrite p' s' (Returns c)) wevs ->
  c <> 0%Z ->
  r = Val c /\ p' = p /\ s' = s.
Proof.
  induction ws as [|[c0|what] ws IH]; intros r rest wevs p' s' c; unfold write_retry;
    fold write_retry.
  - by intros [= <- <- <-].
  - destruct (Z.eqb_spec c0 0) as [->|Hc0].
    + destruct (write_retry p s ws) as [[r1 rest1] wevs1] eqn:Hrest.
      intros [= <- <- <-] [[= <- <- <-]|Hin] Hc; [done|]. by eapply IH.
    + intros [= <- <- <-] [[= <- <- <-]|[]] Hc. done.
  - by intros [= <- <- <-] [|[]].
Qed.

(** The node answers the framed sample with a code other than 0 and no
    exception is caught: the sample is copied to the last-good sample. *)
Lemma writeValues_answered (st st' : State) r evs p x c l old :
  constructed st ->
  last_sample_held st ->
  writeValues E st = (r, st', evs) ->
  (forall e, ~ In (EvCatch e) evs) ->
  In (EvWrite p (Some x) (Returns c)) evs ->
  c <> 0%Z ->
  mLastSample (this st) = Some l ->
  content st (Some l) = Some old ->
  r = Val tt /\
  mLastSample (this st') = Some l /\
  content st' (Some l) = Some (copy_fields old x) /\
  p <> Some l /\
  In (EvAlloc p) evs.
Proof.
  intros Hnode Hheld Hrun Hcatch Hwrite Hc Hl Hold.
  writeValues_paths st a q b h' s' calls thr Hq Hb Hhooks.
  - destruct (writeValues_no_block st Hq) as [st1 Hrun1].
    rewrite Hrun1 in Hrun. injection Hrun as <- <- <-. by in_events Hwrite.
  - destruct thr as [[w|w]|].
    2:{ exfalso.
        rewrite (writeValues_export_raises_other st a q b h' s' calls w Hnode Hq Hb Hhooks)
          in Hrun.
        injection Hrun as <- <- <-. by in_events Hwrite. }
    + exfalso.
      rewrite (writeValues_export_raises st a q b h' s' calls w Hnode Hq Hb Hhooks) in Hrun.
      cbv zeta in Hrun. destruct (write_retry _ _ _) as [[rr rest] wevs].
      injection Hrun as _ _ <-.
      apply (Hcatch (HookError w)). right. apply in_or_app. right. by left.
    + set (s1 := framed E (mSequence (this st)) (clock_realtime E (ticks (world st))) s').
      assert (l <> a) as Hla.
      { intros ->. apply (Hheld a Hl). rewrite Hq. by left. }
      destruct (write_retry (Some a) (Some s1) (node_writes (world st)))
        as [[[c'|ab] rest] wevs] eqn:Hretry.
      * rewrite (writeValues_submitted st a q b h' s' calls c' rest wevs Hnode Hq Hb Hhooks Hretry)
          in Hrun.
        cbv zeta in Hrun. rewrite Hl in Hrun. cbn [mbind option_bind] in Hrun.
        rewrite list_lookup_insert_ne in Hrun by done.
        unfold content in Hold. cbn [mbind option_bind] in Hold.
        unfold ptr in *.
        destruct (heap (world st) !! l) as [lb|] eqn:Hlb; [|done].
        injection Hold as <-. cbn [fmap option_fmap option_map] in Hrun.
        injection Hrun as <- <- <-.
        assert (p = Some a /\ x = s1) as [-> ->].
        { apply in_inv in Hwrite as [|Hwrite]; [done|].
          apply in_app_or in Hwrite as [Hwrite|Hwrite]; [by in_events Hwrite|].
          apply in_app_or in Hwrite as [Hwrite|Hwrite]; [|by in_events Hwrite].
          destruct (write_retry_nonzero _ _ _ _ _ _ _ _ _ Hretry Hwrite Hc) as (_ & -> & [= ->]).
          done. }
        split; [done|]. split; [done|]. split.
        { unfold content. cbn. rewrite list_lookup_insert_eq; [done|].
          rewrite length_insert. by eapply lookup_lt_Some. }
        split; [by intros [= ->]|]. by left.
      * exfalso. destruct (write_retry_aborts _ _ _ _ _ _ Hretry) as [->|(w & -> & _)].
        -- destruct (writeValues_write_blocks st a q b h' s' calls rest wevs Hnode Hq Hb Hhooks Hretry)
             as [st1 Hrun1].
           rewrite Hrun1 in Hrun. injection Hrun as <- <- <-.
           apply in_inv in Hwrite as [|Hwrite]; [done|].
           apply in_app_or in Hwrite as [Hwrite|Hwrite]; [by in_events Hwrite|].
           by destruct (write_retry_nonzero _ _ _ _ _ _ _ _ _ Hretry Hwrite Hc) as [? _].
        -- rewrite (writeValues_write_raises st a q b h' s' calls _ rest wevs Hnode Hq Hb Hhooks Hretry)
             in Hrun.
           destruct (write_retry (Some a) _ rest) as [[rr rest2] wevs2].
           injection Hrun as _ _ <-.
           apply (Hcatch (NodeError w)). right. apply in_or_app. right.
           apply in_or_app. right. by left.
  - destruct (writeValues_dangling st a q Hq Hb) as [st1 Hrun1].
    rewrite Hrun1 in Hrun. injection Hrun as <- <- <-. by in_events Hwrite.
Qed.

(** An exporter raises: what is written is the last-good sample. *)
Lemma writeValues_fallback_writes (st st' : State) r evs i what :
  constructed st ->
  last_sample_held st ->
  writeValues E st = (r, st', evs) ->
  In (EvExport i (Some what)) evs ->
  forall p s resp, In (EvWrite p s resp) evs ->
    p = mLastSample (this st) /\ s = content st (mLastSample (this st)).
Proof.
  intros Hnode Hheld Hrun Hin.
  writeValues_paths st a q b h' s' calls thr Hq Hb Hhooks.
  - destruct (writeValues_no_block st Hq) as [st1 Hrun1].
    rewrite Hrun1 in Hrun. injection Hrun as <- <- <-. by in_events Hin.
  - destruct thr as [[w|w]|].
    2:{ rewrite (writeValues_export_raises_other st a q b h' s' calls w Hnode Hq Hb Hhooks)
          in Hrun.
        injection Hrun as <- <- <-. intros p s resp Hw. by in_events Hw. }
    + rewrite (writeValues_export_raises st a q b h' s' calls w Hnode Hq Hb Hhooks) in Hrun.
      cbv zeta in Hrun.
      assert (smp <$> (mLastSample (this st) ≫= fun x =>
                <[a := set_smp s' (set_refcnt 1 b)]> (heap (world st)) !! x) =
              content st (mLastSample (this st))) as Hcontent.
      { unfold content. destruct (mLastSample (this st)) as [x|] eqn:Hl; [|done]. simpl.
        rewrite list_lookup_insert_ne; [done|]. intros <-.
        apply (Hheld _ Hl). rewrite Hq. left. }
      rewrite Hcontent in Hrun.
      destruct (write_retry _ _ _) as [[rr rest] wevs] eqn:Hloop. injection Hrun as <- <- <-.
      intros p s resp Hw.
      apply in_inv in Hw as [|Hw]; [done|].
      apply in_app_or in Hw as [Hw|Hw]; [by in_events Hw|].
      apply in_inv in Hw as [|Hw]; [done|].
      apply in_app_or in Hw as [Hw|Hw]; [|by in_events Hw].
      by_loop Hloop Hw. by apply in_write_retry in Hw as [resp' [= -> -> ->]].
    + exfalso.
      destruct (write_retry (Some a)
                  (Some (framed E (mSequence (this st)) (clock_realtime E (ticks (world st))) s'))
                  (node_writes (world st))) as [[[c|ab] rest] wevs] eqn:Hretry.
      * rewrite (writeValues_submitted st a q b h' s' calls c rest wevs Hnode Hq Hb Hhooks Hretry) in Hrun.
        cbv zeta in Hrun.
        destruct (mLastSample (this st) ≫= _) as [[x lb]|]; injection Hrun as <- <- <-.
        all: by_loop Hretry Hin.
        all: no_raising_export Hin.
      * destruct (write_retry_aborts _ _ _ _ _ _ Hretry) as [->|(w & -> & _)].
        -- destruct (writeValues_write_blocks st a q b h' s' calls rest wevs Hnode Hq Hb Hhooks Hretry)
             as [st1 Hrun1].
           rewrite Hrun1 in Hrun. injection Hrun as <- <- <-.
           by_loop Hretry Hin.
           no_raising_export Hin.
        -- rewrite (writeValues_write_raises st a q b h' s' calls _ rest wevs Hnode Hq Hb Hhooks Hretry) in Hrun.
           destruct (write_retry (Some a) _ rest) as [[rr rest2] wevs2] eqn:Hretry2.
           injection Hrun as <- <- <-.
           by_loop Hretry Hin. by_loop Hretry2 Hin.
           no_raising_export Hin.
  - destruct (writeValues_dangling st a q Hq Hb) as [st1 Hrun1].
    rewrite Hrun1 in Hrun. injection Hrun as <- <- <-. by in_events Hin.
Qed.

(** X15.  When no exporter raises and the node's write is called, every
    registered exporter has been called exactly once, in the order of
    registration, each on the sample as the one before left it, and all of
    them before the first write.  When the call returns, the host's state
    is what the exporters left. *)
Theorem exporters_run_in_order_before_the_write (st st' : State) r evs p s resp :
  constructed st ->
  writeValues E st = (r, st', evs) ->
  (forall i what, ~ In (EvExport i (Some what)) evs) ->
  In (EvWrite p s resp) evs ->
  exists a b h' s' rest,
    head (node.pool_queue (mSamplePool (this st))) = Some a /\
    heap (world st) !! a = Some b /\
    run_hooks (mExports (this st)) (host (world st))
      (fresh_sample E (node.pool_capacity (mSamplePool (this st))) (smp b)) =
      (h', s', replicate (length (mExports (this st))) None, None) /\
    evs = EvAlloc (Some a) ::
          hook_events EvExport 0 (replicate (length (mExports (this st))) None) ++ rest /\
    (forall i c, ~ In (EvExport i c) rest) /\
    (r = Val tt -> host (world st') = h').
Proof.
  intros Hnode Hrun Hexports Hwrite.
  destruct (writeValues_normal_path _ _ _ _ _ _ _ Hnode Hrun Hexports Hwrite)
    as (a & q & b & h' & s' & rest & Hq & Hb & Hhooks & -> & Hrest & Hval).
  exists a, b, h', s', rest. rewrite Hq. do 4 (split; [done|]). split.
  - intros i c Hin. rewrite Forall_forall in Hrest. by apply list_elem_of_In, Hrest in Hin.
  - intros Hr. by apply Hval.
Qed.

(** X16.  On the paths where no exporter raises, every sample handed to the
    node's write is the fresh block of the call, as the exporters left it
    and then framed: the sequence number is the counter before the call,
    the flags have [HAS_DATA], the time is the clock's; length, data and
    signals are the exporters'.  A call that returns has moved the clock
    and the counter on by one. *)
Theorem written_sample_is_framed (st st' : State) r evs p s resp :
  constructed st ->
  writeValues E st = (r, st', evs) ->
  (forall i what, ~ In (EvExport i (Some what)) evs) ->
  In (EvWrite p s resp) evs ->
  exists a b h' s' x,
    head (node.pool_queue (mSamplePool (this st))) = Some a /\
    heap (world st) !! a = Some b /\
    run_hooks (mExports (this st)) (host (world st))
      (fresh_sample E (node.pool_capacity (mSamplePool (this st))) (smp b)) =
      (h', s', replicate (length (mExports (this st))) None, None) /\
    p = Some a /\
    s = Some x /\
    node.sequence x = mSequence (this st) /\
    node.ts_origin x = clock_realtime E (ticks (world st)) /\
    node.flags x = Z.lor (node.flags s') (HAS_DATA E) /\
    has_flag (node.flags x) (HAS_DATA E) = true /\
    node.length x = node.length s' /\
    node.data x = node.data s' /\
    node.signals x = node.signals s' /\
    (r = Val tt ->
       ticks (world st') = S (ticks (world st)) /\
       mSequence (this st') = next_sequence (mSequence (this st))).
Proof.
  intros Hnode Hrun Hexports Hwrite.
  destruct (writeValues_normal_path _ _ _ _ _ _ _ Hnode Hrun Hexports Hwrite)
    as (a & q & b & h' & s' & rest & Hq & Hb & Hhooks & -> & Hrest & Hval).
  exists a, b, h', s', (framed E (mSequence (this st)) (clock_realtime E (ticks (world st))) s').
  rewrite Hq. do 3 (split; [done|]).
  assert (p = Some a /\
          s = Some (framed E (mSequence (this st)) (clock_realtime E (ticks (world st))) s'))
    as [-> ->].
  { apply in_inv in Hwrite as [|Hwrite]; [done|].
    apply in_app_or in Hwrite as [Hwrite|Hwrite]; [by in_events Hwrite|].
    rewrite Forall_forall in Hrest. by apply list_elem_of_In, Hrest in Hwrite. }
  do 5 (split; [done|]). split; [apply has_flag_lor|].
  do 3 (split; [done|]). intros Hr. by apply Hval.
Qed.

(** X17.  The node takes the framed sample (a positive code, no exception
    caught): the call returns and the last-good sample holds a copy of
    the sample sent, in its own block.  The pointer to the last-good sample
    does not change. *)
Theorem accepted_sample_becomes_last_sample (st st' : State) r evs p x c l old :
  constructed st ->
  last_sample_held st ->
  writeValues E st = (r, st', evs) ->
  (forall e, ~ In (EvCatch e) evs) ->
  In (EvWrite p (Some x) (Returns c)) evs ->
  (0 < c)%Z ->
  mLastSample (this st) = Some l ->
  content st (Some l) = Some old ->
  r = Val tt /\
  mLastSample (this st') = Some l /\
  p <> Some l /\
  content st' (Some l) = Some (copy_fields old x) /\
  node.sequence (copy_fields old x) = node.sequence x /\
  node.ts_origin (copy_fields old x) = node.ts_origin x /\
  node.flags (copy_fields old x) = node.flags x /\
  node.capacity (copy_fields old x) = node.capacity old /\
  node.length (copy_fields old x) = min (node.length x) (node.capacity old) /\
  (node.length x <= length (node.data x) ->
   take (node.length (copy_fields old x)) (node.data (copy_fields old x)) =
   take (node.length (copy_fields old x)) (node.data x)).
Proof.
  intros Hnode Hheld Hrun Hcatch Hwrite Hc Hl Hold.
  destruct (writeValues_answered _ _ _ _ _ _ _ _ _ Hnode Hheld Hrun Hcatch Hwrite
              ltac:(lia) Hl Hold) as (-> & Hl' & Hcopy & Hp & _).
  do 9 (split; [done|]).
  intros Hlen. cbn.
  rewrite take_app_le by (rewrite length_take; lia).
  by rewrite take_take, Nat.min_id.
Qed.

(** X18.  The fallback resends the last sample the node took.  After a call in
    which the node took the sample [x], a call in which an exporter raises
    writes only the last-good sample, and that is the copy of [x]: the
    sequence number, the time and the flags of [x]. *)
Theorem fallback_resends_the_accepted_sample
    (st st1 st2 : State) evs1 r2 evs2 p x c l old i what p' s' resp :
  constructed st ->
  last_sample_held st ->
  mLastSample (this st) = Some l ->
  content st (Some l) = Some old ->
  writeValues E st = (Val tt, st1, evs1) ->
  (forall e, ~ In (EvCatch e) evs1) ->
  In (EvWrite p (Some x) (Returns c)) evs1 ->
  (0 < c)%Z ->
  writeValues E st1 = (r2, st2, evs2) ->
  In (EvExport i (Some what)) evs2 ->
  In (EvWrite p' s' resp) evs2 ->
  p' = Some l /\
  s' = Some (copy_fields old x) /\
  node.sequence (copy_fields old x) = node.sequence x /\
  node.ts_origin (copy_fields old x) = node.ts_origin x /\
  node.flags (copy_fields old x) = node.flags x.
Proof.
  intros Hnode Hheld Hl Hold Hrun1 Hcatch Hwrite Hc Hrun2 Hexport Hw.
  destruct (writeValues_answered _ _ _ _ _ _ _ _ _ Hnode Hheld Hrun1 Hcatch Hwrite
              ltac:(lia) Hl Hold) as (_ & Hl1 & Hcopy & _ & _).
  destruct (writeValues_returns _ _ _ Hnode Hheld Hrun1) as [Hnode1 Hheld1].
  destruct (writeValues_fallback_writes _ _ _ _ _ _ Hnode1 Hheld1 Hrun2 Hexport _ _ _ Hw)
    as [-> ->].
  by rewrite Hl1, Hcopy.
Qed.


Lemma retry_refused p s ws r rest wevs p' s' c :
  write_retry p s ws = (r, rest, wevs) ->
  In (EvWrite p' s' (Returns c)) wevs ->
  (c < 0)%Z ->
  r = Val c /\ exists pre, wevs = pre ++ [EvWrite p' s' (Returns c)].
Proof.
  intros Hretry Hin Hc.
  destruct (write_retry_nonzero _ _ _ _ _ _ _ _ _ Hretry Hin ltac:(lia)) as (-> & -> & ->).
  split; [done|]. apply write_retry_val in Hretry as (k & _ & _ & ->). eauto.
Qed.

Ltac same_events :=
  cbn [write_failed_log app]; rewrite ?app_nil_r; repeat (rewrite <- app_assoc; cbn [app]);
  reflexivity.


(** X20.  A negative code from the node's write is not an exception: the write
    is not repeated, the code is logged as an error, and the call
    returns. *)
Theorem refused_write_is_logged_not_raised (st st' : State) r evs p s c :
  constructed st ->
  last_sample_held st ->
  is_Some (content st (mLastSample (this st))) ->
  writeValues E st = (r, st', evs) ->
  In (EvWrite p s (Returns c)) evs ->
  (c < 0)%Z ->
  r = Val tt /\
  exists pre,
    evs = pre ++ [EvWrite p s (Returns c);
                  EvLog Error "Failed to write samples to InterfaceVillas. Write returned code {}"
                    [ArgInt c]].
Proof.
  intros Hnode Hheld Hlast Hrun Hwrite Hc.
  assert ((c <? 0)%Z = true) as Hlt by (by apply Z.ltb_lt).
  writeValues_paths st a q b h' s' calls thr Hq Hb Hhooks.
  - destruct (writeValues_no_block st Hq) as [st1 Hrun1].
    rewrite Hrun1 in Hrun. injection Hrun as <- <- <-. by in_events Hwrite.
  - destruct thr as [[w|w]|].
    2:{ rewrite (writeValues_export_raises_other st a q b h' s' calls w Hnode Hq Hb Hhooks)
          in Hrun.
        injection Hrun as <- <- <-. by in_events Hwrite. }
    + rewrite (writeValues_export_raises st a q b h' s' calls w Hnode Hq Hb Hhooks) in Hrun.
      cbv zeta in Hrun. destruct (write_retry _ _ _) as [[rr rest] wevs] eqn:Hretry.
      injection Hrun as <- <- <-.
      apply in_inv in Hwrite as [|Hwrite]; [done|].
      apply in_app_or in Hwrite as [Hwrite|Hwrite]; [by in_events Hwrite|].
      apply in_inv in Hwrite as [|Hwrite]; [done|].
      apply in_app_or in Hwrite as [Hwrite|Hwrite]; [|by in_events Hwrite].
      destruct (retry_refused _ _ _ _ _ _ _ _ _ Hretry Hwrite Hc) as (-> & pre & ->).
      split; [done|]. unfold write_failed_log; rewrite Hlt.
      exists (EvAlloc (Some a) :: hook_events EvExport 0 calls ++ EvCatch (HookError w) :: pre).
      same_events.
    + destruct (write_retry (Some a)
                  (Some (framed E (mSequence (this st)) (clock_realtime E (ticks (world st))) s'))
                  (node_writes (world st))) as [[[c'|ab] rest] wevs] eqn:Hretry.
      * rewrite (writeValues_submitted st a q b h' s' calls c' rest wevs Hnode Hq Hb Hhooks Hretry)
          in Hrun.
        cbv zeta in Hrun.
        destruct Hlast as [old Hold]. unfold content in Hold.
        destruct (mLastSample (this st)) as [l|] eqn:Hl; [|done].
        cbn [mbind option_bind] in Hold, Hrun.
        assert (l <> a) as Hla.
        { intros ->. apply (Hheld a Hl). rewrite Hq. by left. }
        rewrite list_lookup_insert_ne in Hrun by done.
        unfold ptr in *.
        destruct (heap (world st) !! l) as [lb|] eqn:Hlb; [|done].
        cbn [fmap option_fmap option_map] in Hrun. injection Hrun as <- <- <-.
        apply in_inv in Hwrite as [|Hwrite]; [done|].
        apply in_app_or in Hwrite as [Hwrite|Hwrite]; [by in_events Hwrite|].
        apply in_app_or in Hwrite as [Hwrite|Hwrite]; [|by in_events Hwrite].
        destruct (retry_refused _ _ _ _ _ _ _ _ _ Hretry Hwrite Hc) as ([= ->] & pre & ->).
        split; [done|]. unfold write_failed_log; rewrite Hlt.
        exists (EvAlloc (Some a) :: hook_events EvExport 0 calls ++ pre).
        same_events.
      * destruct (write_retry_aborts _ _ _ _ _ _ Hretry) as [->|(w & -> & _)].
        -- exfalso.
           destruct (writeValues_write_blocks st a q b h' s' calls rest wevs Hnode Hq Hb Hhooks Hretry)
             as [st1 Hrun1].
           rewrite Hrun1 in Hrun. injection Hrun as <- <- <-.
           apply in_inv in Hwrite as [|Hwrite]; [done|].
           apply in_app_or in Hwrite as [Hwrite|Hwrite]; [by in_events Hwrite|].
           by destruct (retry_refused _ _ _ _ _ _ _ _ _ Hretry Hwrite Hc) as [? _].
        -- revert Hrun.
           rewrite (writeValues_write_raises st a q b h' s' calls _ rest wevs Hnode Hq Hb Hhooks Hretry).
           destruct (write_retry (Some a) _ rest) as [[rr rest2] wevs2] eqn:Hretry2.
           intros [= <- <- <-].
           apply in_inv in Hwrite as [|Hwrite]; [done|].
           apply in_app_or in Hwrite as [Hwrite|Hwrite]; [by in_events Hwrite|].
           apply in_app_or in Hwrite as [Hwrite|Hwrite].
           { by destruct (retry_refused _ _ _ _ _ _ _ _ _ Hretry Hwrite Hc) as [? _]. }
           apply in_inv in Hwrite as [|Hwrite]; [done|].
           apply in_app_or in Hwrite as [Hwrite|Hwrite]; [|by in_events Hwrite].
           destruct (retry_refused _ _ _ _ _ _ _ _ _ Hretry2 Hwrite Hc) as (-> & pre & ->).
           split; [done|]. unfold write_failed_log; rewrite Hlt.
           exists (EvAlloc (Some a) :: hook_events EvExport 0 calls ++ wevs ++
                   EvCatch (NodeError w) :: pre).
           same_events.
  - destruct (writeValues_dangling st a q Hq Hb) as [st1 Hrun1].
    rewrite Hrun1 in Hrun. injection Hrun as <- <- <-. by in_events Hwrite.
Qed.

Lemma writes_of_retry_events p s k c :
  writes_of (replicate k (EvWrite p s (Returns 0)) ++ [EvWrite p s (Returns c)]) =
  replicate k (EvWrite p s (Returns 0)) ++ [EvWrite p s (Returns c)].
Proof.
  unfold writes_of. apply forallb_filter_id, forallb_forall.
  intros e [He|[<-|[]]]%in_app_or; [|done].
  by apply list_elem_of_In, elem_of_replicate in He as [-> _].
Qed.

(** X21.  [writeValues] returns as soon as the node answers.  With a free block
    in the pool and a last-good sample, when no exporter raises an object
    that is not a [std::exception] and the node's write answers [k] times
    with the code 0 and then with another code, the call returns, whether
    an exporter raises a [std::exception] or not: the node's write was
    called [k + 1] times, every time with the same sample, and the answers
    after these are left for the next call. *)
Theorem writeValues_returns_once_the_node_answers (st : State) a q b k c rest :
  constructed st ->
  last_sample_held st ->
  is_Some (content st (mLastSample (this st))) ->
  node.pool_queue (mSamplePool (this st)) = a :: q ->
  heap (world st) !! a = Some b ->
  (forall h' s' calls what,
     run_hooks (mExports (this st)) (host (world st))
       (fresh_sample E (node.pool_capacity (mSamplePool (this st))) (smp b)) <>
     (h', s', calls, Some (OtherObject what))) ->
  node_writes (world st) = replicate k (Returns 0) ++ Returns c :: rest ->
  c <> 0%Z ->
  exists st' evs p s,
    writeValues E st = (Val tt, st', evs) /\
    writes_of evs = replicate k (EvWrite p s (Returns 0)) ++ [EvWrite p s (Returns c)] /\
    node_writes (world st') = rest.
Proof.
  intros Hnode Hheld [old Hold] Hq Hb Hstd Hws Hc.
  destruct (run_hooks (mExports (this st)) (host (world st))
              (fresh_sample E (node.pool_capacity (mSamplePool (this st))) (smp b)))
    as [[[h' s'] calls] [[w|w]|]] eqn:Hhooks; [|by destruct (Hstd h' s' calls w)|].
  - rewrite (writeValues_export_raises st a q b h' s' calls w Hnode Hq Hb Hhooks).
    cbv zeta. rewrite Hws, write_retry_answered by done.
    eexists _, _, _, _. split; [reflexivity|]. split; [|done].
    change (EvAlloc (Some a) :: ?x) with ([EvAlloc (Some a)] ++ x).
    change (EvCatch (HookError w) :: ?x) with ([EvCatch (HookError w)] ++ x).
    rewrite !writes_of_app, writes_of_hook_events, writes_of_write_failed_log by done.
    rewrite <- writes_of_app, writes_of_retry_events. simpl. by rewrite app_nil_r.
  - assert (write_retry (Some a)
              (Some (framed E (mSequence (this st)) (clock_realtime E (ticks (world st))) s'))
              (node_writes (world st)) =
            (Val c, rest,
             replicate k (EvWrite (Some a)
               (Some (framed E (mSequence (this st)) (clock_realtime E (ticks (world st))) s'))
               (Returns 0)) ++
             [EvWrite (Some a)
                (Some (framed E (mSequence (this st)) (clock_realtime E (ticks (world st))) s'))
                (Returns c)])) as Hretry
      by (by rewrite Hws, write_retry_answered).
    rewrite (writeValues_submitted st a q b h' s' calls c rest _ Hnode Hq Hb Hhooks Hretry).
    cbv zeta. unfold content in Hold.
    destruct (mLastSample (this st)) as [l|] eqn:Hl; [|done].
    cbn [mbind option_bind] in Hold |- *.
    assert (l <> a) as Hla.
    { intros ->. apply (Hheld a Hl). rewrite Hq. by left. }
    rewrite list_lookup_insert_ne by done.
    unfold ptr in *.
    destruct (heap (world st) !! l) as [lb|] eqn:Hlb; [|done].
    cbn [fmap option_fmap option_map].
    eexists _, _, _, _. split; [reflexivity|]. split; [|done].
    change (EvAlloc (Some a) :: ?x) with ([EvAlloc (Some a)] ++ x).
    rewrite !writes_of_app, writes_of_hook_events, writes_of_write_failed_log by done.
    rewrite <- writes_of_app, writes_of_retry_events. simpl. by rewrite app_nil_r.
Qed.

(** ** [readValues], path by path *)

(** How the loop around the node's read ends: with the first code that is
    not 0, which is in [ret], or with what the node raised. *)
Lemma read_loop_ends fuel : forall (st st' : State) r evs,
  ret (locals st) = 0%Z ->
  length (node_reads (world st)) < fuel ->
  while fuel (r ← get_ret; mret (r =? 0)%Z) (r ← node_read; put_ret r) st = (r, st', evs) ->
  match r with
  | Val _ =>
      exists pre,
        evs = pre ++ [EvRead (Returns (ret (locals st'))) (sample (locals st'))] /\
        ret (locals st') <> 0%Z /\ Forall busy_read pre
  | Abort (Throw e) =>
      exists pre w,
        e = NodeError w /\
        evs = pre ++ [EvRead (Throws w) (sample (locals st'))] /\ Forall busy_read pre
  | Abort (Exit _) => False
  | Abort _ => Forall busy_read evs
  end.
Proof.
  induction fuel as [|fuel IH]; intros st st' r evs Hret Hfuel; [lia|].
  unfold while; fold (@while H). rewrite run_assoc, run_get_ret, run_ret. cbn beta.
  rewrite Hret. change (0 =? 0)%Z with true. cbn iota.
  rewrite run_assoc, run_bind. unfold node_read at 1.
  destruct (mNode (this st)) as [n|]; [|intros [= <- <- <-]; constructor].
  destruct (node_reads (world st)) as [|[resp given] rest] eqn:Hreads;
    [intros [= <- <- <-]; constructor|].
  cbn [rd_response rd_sample].
  set (st2 := match given with Some s => _ | None => _ end).
  assert (node_reads (world st2) = rest) as Hrest2 by (subst st2; by destruct given).
  destruct resp as [c|what]; cbn [bind_res].
  2:{ intros [= <- <- <-]. by exists [], what. }
  rewrite run_put_ret. simpl in Hfuel.
  destruct (Z.eqb_spec c 0) as [->|Hc].
  - destruct (while fuel _ _ _) as [[r3 st3] e3] eqn:Hrest. cbn.
    intros [= <- <- <-]. apply IH in Hrest; [|done|cbn; rewrite Hrest2; lia].
    assert (busy_read (EvRead (Returns 0) (sample (locals st2)))) as Hbusy by (by eexists).
    destruct r3 as [[]|[e| | |]]; try done.
    + destruct Hrest as (pre & -> & Hne & Hpre).
      exists (EvRead (Returns 0) (sample (locals st2)) :: pre).
      split; [done|]. split; [done|]. by constructor.
    + destruct Hrest as (pre & w & -> & -> & Hpre).
      exists (EvRead (Returns 0) (sample (locals st2)) :: pre), w.
      split; [done|]. split; [done|]. by constructor.
    + by constructor.
    + by constructor.
  - destruct fuel as [|fuel]; [lia|].
    unfold while; fold (@while H). rewrite run_assoc, run_get_ret, run_ret.
    cbn [with_locals locals set_ret ret].
    destruct (Z.eqb_spec c 0) as [?|_]; [done|].
    cbn. intros [= <- <- <-]. by exists [].
Qed.

(** The loop changes of the world only the answers left and the sample
    memory, to which it adds the samples the node hands over. *)
Lemma read_loop_world fuel : forall (st st' : State) r evs,
  while fuel (r ← get_ret; mret (r =? 0)%Z) (r ← node_read; put_ret r) st = (r, st', evs) ->
  host (world st') = host (world st) /\
  node_writes (world st') = node_writes (world st) /\
  ticks (world st') = ticks (world st) /\
  (exists bs, heap (world st') = heap (world st) ++ bs) /\
  (forall a, sample (locals st') = Some a ->
     sample (locals st) = Some a \/ length (heap (world st)) <= a).
Proof.
  induction fuel as [|fuel IH]; intros st st' r evs.
  - intros [= <- <- <-]. repeat (split; [done|]). split; [by exists []; rewrite app_nil_r|auto].
  - unfold while; fold (@while H). rewrite run_assoc, run_get_ret, run_ret. cbn beta.
    assert (host (world st) = host (world st) /\
            node_writes (world st) = node_writes (world st) /\
            ticks (world st) = ticks (world st) /\
            (exists bs, heap (world st) = heap (world st) ++ bs) /\
            (forall a, sample (locals st) = Some a ->
               sample (locals st) = Some a \/ length (heap (world st)) <= a)) as Hsame.
    { repeat (split; [done|]). split; [by exists []; rewrite app_nil_r|auto]. }
    destruct (ret (locals st) =? 0)%Z; [|by intros [= <- <- <-]].
    rewrite run_assoc, run_bind. unfold node_read at 1.
    destruct (mNode (this st)) as [n|]; [|by intros [= <- <- <-]].
    destruct (node_reads (world st)) as [|[resp given] rest] eqn:Hreads;
      [by intros [= <- <- <-]|].
    cbn [rd_response rd_sample].
    set (st2 := match given with Some s => _ | None => _ end).
    assert (host (world st2) = host (world st) /\
            node_writes (world st2) = node_writes (world st) /\
            ticks (world st2) = ticks (world st) /\
            (exists bs, heap (world st2) = heap (world st) ++ bs) /\
            (forall a, sample (locals st2) = Some a ->
               sample (locals st) = Some a \/ length (heap (world st)) <= a))
      as (Hhost & Hwrites & Hticks & [bs Hheap] & Hsample).
    { subst st2. destruct given as [s|]; cbn.
      - repeat (split; [done|]). split; [by eexists|]. intros a [= <-]. by right.
      - repeat (split; [done|]). split; [by exists []; rewrite app_nil_r|auto]. }
    destruct resp as [c|what]; cbn [bind_res].
    2:{ intros [= <- <- <-]. repeat (split; [done|]). split; [by eexists|done]. }
    rewrite run_put_ret.
    destruct (while fuel _ _ _) as [[r3 st3] e3] eqn:Hrest. cbn.
    intros [= <- <- <-].
    apply IH in Hrest as (Hhost3 & Hwrites3 & Hticks3 & [bs3 Hheap3] & Hsample3).
    cbn in Hhost3, Hwrites3, Hticks3, Hheap3, Hsample3.
    split; [congruence|]. split; [congruence|]. split; [congruence|].
    split. { exists (bs ++ bs3). by rewrite Hheap3, Hheap, app_assoc. }
    intros a Ha. destruct (Hsample3 a Ha) as [Ha2|Hle]; [by apply Hsample|].
    right. rewrite Hheap, length_app in Hle. lia.
Qed.

Lemma lookup_old_block (heap0 bs : list Block) a b x :
  length heap0 <= a -> x < length heap0 -> (<[a := b]> (heap0 ++ bs)) !! x = heap0 !! x.
Proof.
  intros Ha Hx. rewrite list_lookup_insert_ne by lia. by rewrite lookup_app_l.
Qed.

(** The ways a call of [readValues] goes. *)
Lemma readValues_cases blocking (st st' : State) r evs :
  constructed st ->
  readValues E blocking st = (r, st', evs) ->
  (forall x, x < length (heap (world st)) -> heap (world st') !! x = heap (world st) !! x) /\
  ((* the node never has a sample *)
   ((r = Abort Diverge \/ r = Abort Crash) /\ Forall busy_read evs) \/
   (* the node's read raises *)
   (exists pre w p,
      Forall busy_read pre /\
      evs = pre ++ EvRead (Throws w) p :: EvCatch (NodeError w) ::
            match p with Some a => [EvDecref a] | None => [] end /\
      r = Abort (Throw std_exception) /\
      this st' = this st /\ host (world st') = host (world st)) \/
   (* the node's read fails *)
   (exists pre c p,
      Forall busy_read pre /\ (c < 0)%Z /\
      evs = pre ++ EvRead (Returns c) p ::
            EvLog Error
              "Fatal error: failed to read sample from InterfaceVillas. Read returned code {}"
              [ArgInt c] :: (close E st).2 /\
      r = Abort (Exit 1) /\ host (world st') = host (world st)) \/
   (* a positive code and no sample: the importers get the null pointer *)
   (exists pre c calls tail,
      Forall busy_read pre /\ (0 < c)%Z /\
      evs = pre ++ EvRead (Returns c) None :: hook_events EvImport 0 calls ++ tail /\
      (tail = [] \/ exists e, tail = [EvCatch e]) /\
      r <> Val tt /\ (forall code, r <> Abort (Exit code))) \/
   (* the node hands over a sample *)
   (exists pre c a b h' s' calls thr,
      Forall busy_read pre /\ (0 < c)%Z /\
      length (heap (world st)) <= a /\
      refcnt b = 1%Z /\ owner b = FromTransport /\
      run_hooks (mImports (this st)) (host (world st)) (smp b) = (h', s', calls, thr) /\
      evs = pre ++ EvRead (Returns c) (Some a) :: hook_events EvImport 0 calls ++
            match thr with
            | Some (StdError w) => [EvCatch (HookError w); EvDecref a]
            | Some (OtherObject _) => []
            | None => [EvDecref a]
            end /\
      r = match thr with
          | Some (StdError _) => Abort (Throw std_exception)
          | Some (OtherObject w) => Abort (Throw (Foreign w))
          | None => Val tt
          end /\
      this st' = this st /\
      host (world st') = h' /\
      heap (world st') !! a =
        Some (set_refcnt (match thr with Some (OtherObject _) => 1 | _ => 0 end)
                (set_smp s' b)))).
Proof.
  intros Hnode. unfold readValues. rewrite run_put_sample, run_put_ret, run_try_catch.
  rewrite run_gets. cbn beta. rewrite run_bind.
  set (st0 := with_locals (set_ret 0) (with_locals (set_sample None) st)).
  match goal with |- context [catch_res _ ?h] => set (handler := h) end.
  destruct (while _ _ _ st0) as [[rl st1] e1] eqn:Hloop.
  pose proof (read_loop_frame _ _ _ _ _ Hloop) as (Hthis & Hreads & Hown).
  pose proof (read_loop_world _ _ _ _ _ Hloop) as (Hhost & Hwrites & Hticks & [bs Hheap] & Hsample).
  apply read_loop_ends in Hloop; [|done|cbn; lia].
  specialize (Hown ltac:(by intros a [=])).
  cbn in Hthis, Hhost, Hwrites, Hticks, Hheap, Hsample.
  assert (constructed st1) as Hnode1 by (unfold constructed; by rewrite Hthis).
  assert (forall x, x < length (heap (world st)) -> heap (world st1) !! x = heap (world st) !! x)
    as Hold by (intros x Hx; by rewrite Hheap, lookup_app_l).
  assert (forall a b, length (heap (world st)) <= a ->
            forall x, x < length (heap (world st)) ->
              <[a := b]> (heap (world st1)) !! x = heap (world st) !! x) as Hold'.
  { intros a b Ha x Hx. rewrite Hheap. by apply lookup_old_block. }
  destruct rl as [[]|[e| | |]]; cbn [bind_res catch_res]; try done.
  - (* the loop ended with a code *)
    destruct Hloop as (pre & -> & Hne & Hpre).
    rewrite catch_res_with_events, run_get_ret. cbn beta.
    destruct (Z.ltb_spec (ret (locals st1)) 0) as [Hneg|Hpos]; cbn [when].
    + rewrite run_fatal, run_log_error, run_bind, (close_run st1 Hnode1), (close_run st Hnode).
      destruct (node_stop E <? 0)%Z; [|destruct (pool_destroy E <? 0)%Z];
        cbn; intros [= <- <- <-]; (split; [done|]);
        right; right; left; eexists pre, _, _;
        (split; [done|]); (split; [done|]); (split; [|done]);
        rewrite <- ?app_assoc; cbn; by rewrite ?app_nil_r.
    + rewrite run_ret, run_gets. cbn beta.
      destruct (sample (locals st1)) as [a|] eqn:Hsmp.
      2:{ rewrite run_bind, (for_hooks_null_run _ _ _ _ Hsmp).
          destruct (run_hooks_null _ _) as [[h' calls] res] eqn:Hhooks.
          pose proof (run_hooks_null_calls _ _ _ _ _ Hhooks) as [_ Hres].
          destruct res as [[]|[e|code| |]]; cbn [bind_res]; [| |done| |done].
          - rewrite run_get_sample. cbn [with_world locals sample]. rewrite Hsmp.
            unfold sample_decref. rewrite run_deref. cbn. intros [= <- <- <-].
            split; [done|]. right; right; right; left.
            exists pre, (ret (locals st1)), calls, [].
            split; [done|]. split; [lia|]. split; [same_events|].
            split; [by left|]. done.
          - destruct Hres as (r0 & pre0 & -> & _).
            destruct r0 as [w|w]; cbn [thrown catch_res is_std_exception].
            + subst handler. cbn beta. rewrite run_get_sample.
              cbn [with_world locals sample]. rewrite Hsmp.
              rewrite bool_decide_false by (by intros [? ?]). cbn [when].
              rewrite run_ret. unfold throw, abort. cbn. intros [= <- <- <-].
              split; [done|]. right; right; right; left.
              exists pre, (ret (locals st1)), calls, [EvCatch (HookError w)].
              split; [done|]. split; [lia|]. split; [same_events|].
              split; [right; by eexists|]. done.
            + cbn. intros [= <- <- <-].
              split; [done|]. right; right; right; left.
              exists pre, (ret (locals st1)), calls, [].
              split; [done|]. split; [lia|]. split; [same_events|].
              split; [by left|]. done.
          - cbn. intros [= <- <- <-].
            split; [done|]. right; right; right; left.
            exists pre, (ret (locals st1)), calls, [].
            split; [done|]. split; [lia|]. split; [same_events|].
            split; [by left|]. done. }
      destruct (Hown a Hsmp) as (b & Hb & Hrefcnt & Howner).
      destruct (Hsample a eq_refl) as [|Hle]; [done|].
      assert (a < length (heap (world st1))) as Hlt by (by eapply lookup_lt_Some).
      rewrite run_bind, (for_hooks_run _ _ _ _ a b Hsmp Hb).
      rewrite Hthis, Hhost.
      destruct (run_hooks _ _ _) as [[[h' s'] calls] [[w|w]|]] eqn:Hhooks;
        cbn [hooks_outcome thrown bind_res catch_res is_std_exception].
      2:{ cbn. intros [= <- <- <-]. cbn. split; [by apply Hold'|].
          do 4 right. exists pre, (ret (locals st1)), a, b, h', s', calls, (Some (OtherObject w)).
          split; [done|]. split; [lia|]. do 4 (split; [done|]).
          split. { same_events. }
          do 3 (split; [done|]).
          rewrite list_lookup_insert_eq by done. by destruct b; cbn in *; subst. }
      * subst handler. cbn beta.
        rewrite run_get_sample. cbn [hooked with_world locals sample].
        rewrite Hsmp. rewrite bool_decide_true by done. cbn [when].
        unfold sample_decref. rewrite !run_assoc, run_deref.
        cbn [hooked with_world world heap set_heap].
        rewrite list_lookup_insert_eq by done. cbn beta iota.
        unfold store. rewrite !run_assoc, run_modify, run_assoc, run_emit.
        cbn [set_smp refcnt owner]. rewrite Hrefcnt, Howner.
        change (1 - 1 =? 0)%Z with true. cbn [when]. rewrite run_ret. unfold throw, abort.
        cbn. intros [= <- <- <-]. cbn. split.
        { intros x Hx. rewrite list_lookup_insert_ne by lia. by apply Hold'. }
        do 4 right. exists pre, (ret (locals st1)), a, b, h', s', calls, (Some (StdError w)).
        split; [done|]. split; [lia|]. do 4 (split; [done|]).
        split. { by rewrite <- !app_assoc. }
        do 3 (split; [done|]).
        by rewrite list_lookup_insert_eq by (by rewrite length_insert).
      * rewrite run_get_sample. cbn [hooked with_world locals sample]. rewrite Hsmp.
        unfold sample_decref. rewrite run_deref.
        cbn [hooked with_world world heap set_heap].
        rewrite list_lookup_insert_eq by done. cbn beta iota.
        unfold store. rewrite run_modify, run_emit.
        cbn [set_smp refcnt owner]. rewrite Hrefcnt, Howner.
        change (1 - 1 =? 0)%Z with true. cbn.
        intros [= <- <- <-]. cbn. split.
        { intros x Hx. rewrite list_lookup_insert_ne by lia. by apply Hold'. }
        do 4 right. exists pre, (ret (locals st1)), a, b, h', s', calls, None.
        split; [done|]. split; [lia|]. do 4 (split; [done|]).
        split. { by rewrite <- ?app_assoc. }
        do 3 (split; [done|]).
        by rewrite list_lookup_insert_eq by (by rewrite length_insert).
  - (* the read raised *)
    destruct Hloop as (pre & w & -> & -> & Hpre).
    subst handler. cbn beta. rewrite run_get_sample.
    destruct (sample (locals st1)) as [a|] eqn:Hsmp.
    + destruct (Hown a Hsmp) as (b & Hb & Hrefcnt & Howner).
      destruct (Hsample a eq_refl) as [|Hle]; [done|].
      rewrite bool_decide_true by done. cbn [when].
      unfold sample_decref. rewrite !run_assoc, run_deref, Hb. cbn beta iota.
      unfold store. rewrite !run_assoc, run_modify, run_assoc, run_emit.
      rewrite Hrefcnt, Howner.
      change (1 - 1 =? 0)%Z with true. cbn [when]. rewrite run_ret. unfold throw, abort.
      cbn. intros [= <- <- <-]. cbn. split; [by apply Hold'|].
      right; left. exists pre, w, (Some a). split; [done|].
      split; [by rewrite <- !app_assoc|]. done.
    + rewrite bool_decide_false by (by intros [? [=]]). cbn [when]. rewrite run_ret.
      unfold throw, abort. cbn. intros [= <- <- <-]. split; [done|].
      right; left. exists pre, w, None. split; [done|].
      split; [by rewrite <- !app_assoc|]. done.
  - intros [= <- <- <-]. split; [done|]. left. split; [by right|done].
  - intros [= <- <- <-]. split; [done|]. left. split; [by left|done].
Qed.

Lemma busy_read_not e c p : Forall busy_read e -> In (EvRead (Returns c) p) e -> c = 0%Z.
Proof.
  rewrite Forall_forall. intros Hall Hin%list_elem_of_In%Hall. by destruct Hin as [p' [= -> _]].
Qed.

Lemma busy_read_only pre e :
  Forall busy_read pre -> In e pre -> exists p, e = EvRead (Returns 0) p.
Proof. rewrite Forall_forall. intros Hall Hin%list_elem_of_In%Hall. done. Qed.

Lemma close_events (st : State) e :
  In e (close E st).2 -> is_read e = false /\ no_import e = true /\ no_decref e = true.
Proof.
  destruct (close E st) as [[rc stc] cevs] eqn:Hclose. cbn [snd]. intros Hin.
  assert (emits (fun e => is_read e = false) (close E : M unit)) as Hr
    by (unfold close; emits_auto).
  assert (emits (fun e => no_import e = true) (close E : M unit)) as Hi
    by (unfold close; emits_auto).
  assert (emits (fun e => no_decref e = true) (close E : M unit)) as Hd
    by (unfold close; emits_auto).
  apply Hr in Hclose as Hr'. apply Hi in Hclose as Hi'. apply Hd in Hclose as Hd'.
  rewrite Forall_forall in Hr', Hi', Hd'. apply list_elem_of_In in Hin. auto.
Qed.

(** X22.  When [readValues] returns, the node was read until it answered with a
    positive code and handed over a sample; every registered importer was
    called exactly once on that sample, in the order of registration, each
    seeing what the one before left; then the sample was released, once.
    The members are as before, and so is every block that the sample
    memory held before the call. *)
Theorem readValues_delivers_the_sample_to_every_importer
    blocking (st st' : State) evs :
  constructed st ->
  readValues E blocking st = (Val tt, st', evs) ->
  exists pre c a b h' s',
    Forall busy_read pre /\
    (0 < c)%Z /\
    evs = pre ++ EvRead (Returns c) (Some a) ::
          hook_events EvImport 0 (replicate (length (mImports (this st))) None) ++
          [EvDecref a] /\
    length (heap (world st)) <= a /\
    run_hooks (mImports (this st)) (host (world st)) (smp b) =
      (h', s', replicate (length (mImports (this st))) None, None) /\
    host (world st') = h' /\
    heap (world st') !! a = Some (set_refcnt 0 (set_smp s' b)) /\
    this st' = this st /\
    (forall x, x < length (heap (world st)) -> heap (world st') !! x = heap (world st) !! x).
Proof.
  intros Hnode Hrun.
  destruct (readValues_cases _ _ _ _ _ Hnode Hrun)
    as [Hold [([[=]|[=]] & _)|[(pre & w & p & _ & _ & [=] & _)|[(pre & c & p & _ & _ & _ & [=] & _)
       |[(pre & c & calls0 & tail & _ & _ & _ & _ & Hne & _)
        |(pre & c & a & b & h' & s' & calls & thr & Hpre & Hc & Hle & _ & _ & Hhooks & -> & Hr
          & Hthis & Hhost & Hb)]]]]]; [by destruct Hne|].
  destruct thr as [[w|w]|]; [done|done|].
  pose proof (run_hooks_all_called _ _ _ _ _ _ Hhooks) as ->.
  by exists pre, c, a, b, h', s'.
Qed.

(** X23.  The node's read fails (a negative code): [readValues] logs the code,
    calls [close] and ends the process with the code 1.  No importer is
    called and no sample is released. *)
Theorem read_failure_closes_and_exits blocking (st st' : State) r evs c p :
  constructed st ->
  readValues E blocking st = (r, st', evs) ->
  In (EvRead (Returns c) p) evs ->
  (c < 0)%Z ->
  r = Abort (Exit 1) /\
  (exists pre,
     Forall busy_read pre /\
     evs = pre ++ EvRead (Returns c) p ::
           EvLog Error
             "Fatal error: failed to read sample from InterfaceVillas. Read returned code {}"
             [ArgInt c] :: (close E st).2) /\
  (forall i x, ~ In (EvImport i x) evs) /\
  (forall a, ~ In (EvDecref a) evs).
Proof.
  intros Hnode Hrun Hin Hc.
  destruct (readValues_cases _ _ _ _ _ Hnode Hrun)
    as [_ [(_ & Hbusy)|[(pre & w & p' & Hpre & -> & _)|[(pre & c' & p' & Hpre & Hc' & -> & -> & _)
       |[(pre & c' & calls0 & tail & Hpre & Hc' & -> & Htail & _)
        |(pre & c' & a & b & h' & s' & calls & thr & Hpre & Hc' & _ & _ & _ & _ & -> & _)]]]]].
  - apply (busy_read_not _ _ _ Hbusy) in Hin. lia.
  - exfalso. apply in_app_or in Hin as [Hin|Hin].
    { apply (busy_read_not _ _ _ Hpre) in Hin. lia. }
    destruct p'; by repeat destruct Hin as [Hin|Hin].
  - assert (c' = c /\ p' = p) as [-> ->].
    { apply in_app_or in Hin as [Hin|Hin].
      { apply (busy_read_not _ _ _ Hpre) in Hin. lia. }
      destruct Hin as [[= -> ->]|[|Hin]]; [done|done|].
      by apply close_events in Hin as [? _]. }
    split; [done|]. split; [by exists pre|]. split.
    + intros i x Hi. apply in_app_or in Hi as [Hi|Hi].
      { by apply (busy_read_only _ _ Hpre) in Hi as [? ?]. }
      destruct Hi as [|[|Hi]]; [done|done|].
      by apply close_events in Hi as (_ & ? & _).
    + intros a Ha. apply in_app_or in Ha as [Ha|Ha].
      { by apply (busy_read_only _ _ Hpre) in Ha as [? ?]. }
      destruct Ha as [|[|Ha]]; [done|done|].
      by apply close_events in Ha as (_ & _ & ?).
  - exfalso. apply in_app_or in Hin as [Hin|Hin].
    { apply (busy_read_not _ _ _ Hpre) in Hin. lia. }
    destruct Hin as [[= -> _]|Hin]; [lia|].
    apply in_app_or in Hin as [Hin|Hin]; [by in_events Hin|].
    destruct Htail as [->|[e ->]]; by repeat destruct Hin as [Hin|Hin].
  - exfalso. apply in_app_or in Hin as [Hin|Hin].
    { apply (busy_read_not _ _ _ Hpre) in Hin. lia. }
    destruct Hin as [[= -> _]|Hin]; [lia|].
    apply in_app_or in Hin as [Hin|Hin]; [by in_events Hin|].
    destruct thr as [[]|]; by repeat destruct Hin as [Hin|Hin].
Qed.

(** X24.  The node's read raises: no importer is called; the handler releases
    the sample if the node had handed one over, and throws a copy of the
    static type [std::exception], not the node's exception.  The members
    and the host's state are as before. *)
Theorem read_exception_is_rethrown_as_a_copy blocking (st st' : State) r evs w p :
  constructed st ->
  readValues E blocking st = (r, st', evs) ->
  In (EvRead (Throws w) p) evs ->
  r = Abort (Throw std_exception) /\
  (exists pre,
     Forall busy_read pre /\
     evs = pre ++ EvRead (Throws w) p :: EvCatch (NodeError w) ::
           match p with Some a => [EvDecref a] | None => [] end) /\
  (forall i x, ~ In (EvImport i x) evs) /\
  this st' = this st /\
  host (world st') = host (world st).
Proof.
  intros Hnode Hrun Hin.
  assert (forall pre, Forall busy_read pre -> ~ In (EvRead (Throws w) p) pre) as Hbusy.
  { intros pre Hpre Hp. by apply (busy_read_only _ _ Hpre) in Hp as [? ?]. }
  destruct (readValues_cases _ _ _ _ _ Hnode Hrun)
    as [_ [(_ & Hpre)|[(pre & w' & p' & Hpre & -> & -> & Hthis & Hhost)
       |[(pre & c' & p' & Hpre & Hc' & -> & -> & _)
       |[(pre & c' & calls0 & tail & Hpre & Hc' & -> & Htail & _)
        |(pre & c' & a & b & h' & s' & calls & thr & Hpre & Hc' & _ & _ & _ & _ & -> & _)]]]]].
  - by apply Hbusy in Hin.
  - assert (w' = w /\ p' = p) as [-> ->].
    { apply in_app_or in Hin as [Hin|Hin]; [by apply Hbusy in Hin|].
      destruct Hin as [[= -> ->]|Hin]; [done|].
      destruct p'; by repeat destruct Hin as [Hin|Hin]. }
    split; [done|]. split; [by exists pre|]. split; [|done].
    intros i x Hi. apply in_app_or in Hi as [Hi|Hi].
    { by apply (busy_read_only _ _ Hpre) in Hi as [? ?]. }
    destruct p; by repeat destruct Hi as [Hi|Hi].
  - exfalso. apply in_app_or in Hin as [Hin|Hin]; [by apply Hbusy in Hin|].
    destruct Hin as [|[|Hin]]; [done|done|].
    by apply close_events in Hin as [? _].
  - exfalso. apply in_app_or in Hin as [Hin|Hin]; [by apply Hbusy in Hin|].
    destruct Hin as [|Hin]; [done|].
    apply in_app_or in Hin as [Hin|Hin]; [by in_events Hin|].
    destruct Htail as [->|[e ->]]; by repeat destruct Hin as [Hin|Hin].
  - exfalso. apply in_app_or in Hin as [Hin|Hin]; [by apply Hbusy in Hin|].
    destruct Hin as [|Hin]; [done|].
    apply in_app_or in Hin as [Hin|Hin]; [by in_events Hin|].
    destruct thr as [[]|]; by repeat destruct Hin as [Hin|Hin].
Qed.

(** X25.  [readValues] leaves the sending side alone: it takes no block from
    the pool, calls no exporter and writes nothing to the node; the
    counter, the last-good pointer, the registries and the node are as
    before, and so is every block that the sample memory held before the
    call, the last-good sample among them. *)
Theorem readValues_leaves_the_sending_side_alone blocking (st st' : State) r evs :
  constructed st ->
  readValues E blocking st = (r, st', evs) ->
  Forall (fun e => no_send e = true) evs /\
  mSequence (this st') = mSequence (this st) /\
  mLastSample (this st') = mLastSample (this st) /\
  mExports (this st') = mExports (this st) /\
  mImports (this st') = mImports (this st) /\
  mNode (this st') = mNode (this st) /\
  (forall x, x < length (heap (world st)) -> heap (world st') !! x = heap (world st) !! x) /\
  (is_Some (content st (mLastSample (this st))) ->
   content st' (mLastSample (this st')) = content st (mLastSample (this st))).
Proof.
  intros Hnode Hrun.
  assert (emits (fun e => no_send e = true) (readValues E blocking : M unit)) as Hemits
    by (unfold readValues; emits_auto).
  assert (keeps (fun t => (mSequence t, mLastSample t, mExports t, mImports t, mNode t))
            (readValues E blocking : M unit)) as Hkeeps
    by (unfold readValues; repeat keeps_step).
  apply Hkeeps in Hrun as Hmembers. injection Hmembers as -> Hl -> -> ->.
  destruct (readValues_cases _ _ _ _ _ Hnode Hrun) as [Hold _].
  split; [by eapply Hemits|]. do 5 (split; [done|]). split; [done|].
  rewrite Hl. unfold content. destruct (mLastSample (this st)) as [l|]; [|by intros [? ?]].
  cbn. intros [s Hs]. rewrite Hold; [done|].
  destruct (heap (world st) !! l) as [lb|] eqn:Hlb; [|done]. by eapply lookup_lt_Some.
Qed.

(** The loop on a node that is busy [k] times and then hands over a
    sample. *)
Lemma read_loop_answered k : forall fuel (st : State) c s rest,
  ret (locals st) = 0%Z ->
  sample (locals st) = None ->
  constructed st ->
  node_reads (world st) =
    replicate k {| rd_response := Returns 0; rd_sample := None |} ++
    {| rd_response := Returns c; rd_sample := Some s |} :: rest ->
  c <> 0%Z ->
  S k < fuel ->
  exists st1,
    while fuel (r ← get_ret; mret (r =? 0)%Z) (r ← node_read; put_ret r) st =
      (Val tt, st1,
       replicate k (EvRead (Returns 0) None) ++
       [EvRead (Returns c) (Some (length (heap (world st))))]) /\
    this st1 = this st /\
    host (world st1) = host (world st) /\
    heap (world st1) =
      heap (world st) ++ [{| refcnt := 1; owner := FromTransport; smp := s |}] /\
    sample (locals st1) = Some (length (heap (world st))) /\
    ret (locals st1) = c /\
    node_reads (world st1) = rest.
Proof.
  induction k as [|k IH]; intros fuel st c s rest Hret Hsmp [n Hn] Hreads Hc Hfuel;
    (destruct fuel as [|fuel]; [lia|]);
    unfold while; fold (@while H); rewrite run_assoc, run_get_ret, run_ret; cbn beta;
    rewrite Hret; change (0 =? 0)%Z with true; cbn iota;
    rewrite run_assoc, run_bind; unfold node_read at 1; rewrite Hn, Hreads;
    cbn [replicate app rd_response rd_sample bind_res].
  - rewrite run_put_ret. destruct fuel as [|fuel]; [lia|].
    unfold while; fold (@while H). rewrite run_assoc, run_get_ret, run_ret.
    cbn [with_locals locals set_ret ret].
    destruct (Z.eqb_spec c 0) as [?|_]; [done|]. cbn. by eexists.
  - rewrite run_put_ret.
    edestruct (IH fuel (with_locals (set_ret 0) (with_world (set_node_reads
                 (replicate k {| rd_response := Returns 0; rd_sample := None |} ++
                  {| rd_response := Returns c; rd_sample := Some s |} :: rest)) st)) c s rest)
      as (st1 & Hrun & Hthis & Hhost & Hheap & Hsample & Hret1 & Hrest);
      [done|done|by exists n|done|done|lia|].
    rewrite Hrun. cbn. rewrite Hsmp. by exists st1.
Qed.

(** X26.  [readValues] returns as soon as a sample arrives.  When the node's
    read answers [k] times with the code 0 and then hands over a sample
    with a positive code, and no importer raises, the call returns: every
    importer was called once on the sample, in the order of registration,
    the sample was released, and the answers after these are left for the
    next call. *)
Theorem readValues_returns_once_a_sample_arrives
    blocking (st : State) k c s rest h' s' calls :
  constructed st ->
  node_reads (world st) =
    replicate k {| rd_response := Returns 0; rd_sample := None |} ++
    {| rd_response := Returns c; rd_sample := Some s |} :: rest ->
  (0 < c)%Z ->
  run_hooks (mImports (this st)) (host (world st)) s = (h', s', calls, None) ->
  exists st',
    readValues E blocking st =
      (Val tt, st',
       replicate k (EvRead (Returns 0) None) ++
       EvRead (Returns c) (Some (length (heap (world st)))) ::
       hook_events EvImport 0 (replicate (length (mImports (this st))) None) ++
       [EvDecref (length (heap (world st)))]) /\
    this st' = this st /\
    host (world st') = h' /\
    node_reads (world st') = rest /\
    heap (world st') !! length (heap (world st)) =
      Some {| refcnt := 0; owner := FromTransport; smp := s' |}.
Proof.
  intros Hnode Hreads Hc Hhooks.
  pose proof (run_hooks_all_called _ _ _ _ _ _ Hhooks) as ->.
  unfold readValues. rewrite run_put_sample, run_put_ret, run_try_catch.
  rewrite run_gets. cbn beta. rewrite run_bind.
  set (st0 := with_locals (set_ret 0) (with_locals (set_sample None) st)).
  destruct (read_loop_answered k (S (length (node_reads (world st0)))) st0 c s rest)
    as (st1 & Hrun & Hthis & Hhost & Hheap & Hsmp & Hret1 & Hrest);
    [done|done|done|done|lia| |].
  { cbn. rewrite Hreads, length_app, length_replicate. simpl. lia. }
  rewrite Hrun. cbn [bind_res]. cbn in Hthis, Hhost, Hheap, Hsmp.
  rewrite catch_res_with_events, run_get_ret. cbn beta. rewrite Hret1.
  destruct (Z.ltb_spec c 0) as [?|_]; [lia|]. cbn [when].
  rewrite run_ret, run_gets. cbn beta.
  set (a := length (heap (world st))) in *.
  set (b := {| refcnt := 1; owner := FromTransport; smp := s |}) in *.
  assert (heap (world st1) !! a = Some b) as Hb.
  { rewrite Hheap, lookup_app_r by done. by rewrite Nat.sub_diag. }
  assert (a < length (heap (world st1))) as Hlt by (by eapply lookup_lt_Some).
  rewrite run_bind, (for_hooks_run _ _ _ _ a b Hsmp Hb).
  rewrite Hthis, Hhost. cbn [smp b]. rewrite Hhooks.
  cbn [hooks_outcome bind_res].
  rewrite run_get_sample. cbn [hooked with_world locals sample]. rewrite Hsmp.
  unfold sample_decref. rewrite run_deref.
  cbn [hooked with_world world heap set_heap].
  rewrite list_lookup_insert_eq by done. cbn beta iota.
  unfold store. rewrite run_modify, run_emit.
  cbn [set_smp refcnt owner b].
  change (1 - 1 =? 0)%Z with true. cbn.
  eexists. split; [by rewrite <- ?app_assoc|]. cbn.
  do 3 (split; [done|]).
  by rewrite list_lookup_insert_eq by (by rewrite length_insert).
Qed.

End Properties.

(** * The properties on the loopback instance *)

Lemma sequence_numbers_count_up_witness :
  mSequence (this Demo.run_open.1.2) = 0%Z /\
  (forall k evs, [Demo.tick1.2; Demo.tick2.2; Demo.tick3.2] !! k = Some evs ->
     writes_of evs <> [] /\
     forall p s resp, In (EvWrite p s resp) evs ->
       exists x, s = Some x /\ node.sequence x = Z.of_nat k) /\
  mSequence (this Demo.tick3.1.2) = (Z.of_nat 3 mod 2 ^ 64)%Z.
Proof.
  apply (sequence_numbers_count_up (Demo.env 0 0)
           Demo.before_open Demo.run_open.1.2 Demo.tick3.1.2 Demo.run_open.2
           [Demo.tick1.2; Demo.tick2.2; Demo.tick3.2]).
  - vm_compute. reflexivity.
  - apply one_more_write with (st1 := Demo.tick1.1.2); [vm_compute; reflexivity ..|].
    apply read_between with (st1 := Demo.read1.1.2) (blocking := true) (evs := Demo.read1.2);
      [vm_compute; reflexivity|].
    apply one_more_write with (st1 := Demo.tick2.1.2); [vm_compute; reflexivity ..|].
    apply one_more_write with (st1 := Demo.tick3.1.2); [vm_compute; reflexivity ..|].
    apply no_write.
  - vm_compute. discriminate.
Defined.

Lemma demo_last_sample_held (st : @State nat) l q :
  mLastSample (this st) = Some l ->
  node.pool_queue (mSamplePool (this st)) = q ->
  forallb (fun x => negb (x =? l)) q = true ->
  last_sample_held st.
Proof.
  intros Hl Hq Hall l' Hl' Hin. rewrite Hl in Hl'. injection Hl' as <-.
  rewrite Hq in Hin. apply list_elem_of_In in Hin.
  apply (proj1 (forallb_forall _ _) Hall) in Hin.
  by rewrite Nat.eqb_refl in Hin.
Qed.



Lemma importer_failure_stops_dispatch_witness :
  let caught := Demo.failing_import in
  let uncaught := Demo.foreign_import in
  let null := Demo.null_import in
  (imports_of caught.2 = hook_events EvImport 0 (replicate 1 None ++ [Some "boom"]) /\
   1 < length (mImports (this Demo.before_failing_import)) /\
   (forall j c, In (EvImport j c) caught.2 -> j <= 1) /\
   (exists before after,
      caught.2 = before ++ EvImport 1 (Some "boom") :: after /\
      ((exists a, after = [EvCatch (HookError "boom"); EvDecref a] /\
                  caught.1.1 = Abort (Throw std_exception)) \/
       (after = [EvCatch (HookError "boom")] /\
        (forall resp a, ~ In (EvRead resp (Some a)) caught.2) /\
        caught.1.1 = Abort (Throw std_exception)) \/
       (after = [] /\ caught.1.1 = Abort (Throw (Foreign "boom")))))) /\
  (imports_of uncaught.2 = hook_events EvImport 0 (replicate 1 None ++ [Some "boom"]) /\
   1 < length (mImports (this Demo.before_foreign_import)) /\
   (forall j c, In (EvImport j c) uncaught.2 -> j <= 1) /\
   (exists before after,
      uncaught.2 = before ++ EvImport 1 (Some "boom") :: after /\
      ((exists a, after = [EvCatch (HookError "boom"); EvDecref a] /\
                  uncaught.1.1 = Abort (Throw std_exception)) \/
       (after = [EvCatch (HookError "boom")] /\
        (forall resp a, ~ In (EvRead resp (Some a)) uncaught.2) /\
        uncaught.1.1 = Abort (Throw std_exception)) \/
       (after = [] /\ uncaught.1.1 = Abort (Throw (Foreign "boom")))))) /\
  (imports_of null.2 = hook_events EvImport 0 (replicate 1 None ++ [Some "boom"]) /\
   1 < length (mImports (this Demo.before_null_import)) /\
   (forall j c, In (EvImport j c) null.2 -> j <= 1) /\
   (exists before after,
      null.2 = before ++ EvImport 1 (Some "boom") :: after /\
      ((exists a, after = [EvCatch (HookError "boom"); EvDecref a] /\
                  null.1.1 = Abort (Throw std_exception)) \/
       (after = [EvCatch (HookError "boom")] /\
        (forall resp a, ~ In (EvRead resp (Some a)) null.2) /\
        null.1.1 = Abort (Throw std_exception)) \/
       (after = [] /\ null.1.1 = Abort (Throw (Foreign "boom")))))).
Proof.
  intros caught uncaught null. split; [|split].
  - apply (importer_failure_stops_dispatch (Demo.env 0 0) true
             Demo.before_failing_import caught.1.2).
    + vm_compute. reflexivity.
    + vm_compute. auto 10.
  - apply (importer_failure_stops_dispatch (Demo.env 0 0) true
             Demo.before_foreign_import uncaught.1.2).
    + vm_compute. reflexivity.
    + vm_compute. auto 10.
  - apply (importer_failure_stops_dispatch (Demo.env 0 0) true
             Demo.before_null_import null.1.2).
    + vm_compute. reflexivity.
    + vm_compute. auto 10.
Defined.


Lemma malformed_json_raises_json_error_witness :
  let run := construct (H:=nat) (Demo.env 0 0) "dpsim" "loopback" "{" 5 2 1 (Demo.world0 [] []) in
  run.1.1 = Abort (Throw (JsonError None Demo.parse_error)) /\
  mNode (this run.1.2) = Some {| node.type_name := "loopback" |} /\
  run.2 = [EvNodeNew "loopback"] /\
  node.pool_state (mSamplePool (this run.1.2)) = node.Uninitialized /\
  world run.1.2 = Demo.world0 [] [].
Proof.
  apply (malformed_json_raises_json_error (Demo.env 0 0)
           "dpsim" "loopback" "{" 5 2 1 (Demo.world0 [] []) {| node.type_name := "loopback" |}
           Demo.parse_error);
    vm_compute; reflexivity.
Defined.

Lemma memory_init_failure_raises_runtime_error_witness :
  let run := construct (H:=nat) (Demo.env 1 0) "dpsim" "loopback" "{}" 5 2 1 (Demo.world0 [] []) in
  run.1.1 = Abort (Throw (RuntimeError "Error: VillasNode failed to initialize memory system" [])) /\
  (forall level fmt args, ~ In (EvLog level fmt args) run.2) /\
  node.pool_state (mSamplePool (this run.1.2)) = node.Uninitialized.
Proof.
  apply (memory_init_failure_raises_runtime_error (Demo.env 1 0)
           "dpsim" "loopback" "{}" 5 2 1 (Demo.world0 [] []) {| node.type_name := "loopback" |} "{}");
    vm_compute; try reflexivity; discriminate.
Defined.

(** ** Where the code departs from what is said of it *)


(** C10: an importer raises an object that is not a [std::exception].  It
    reaches the caller, and the sample has not been released. *)
Lemma foreign_importer_exception_skips_the_release :
  ~ (forall (E : Env) blocking (st st' : @State nat) r evs i what,
       readValues E blocking st = (r, st', evs) ->
       In (EvImport i (Some what)) evs ->
       (forall j c, In (EvImport j c) evs -> j <= i) /\
       (exists a, In (EvDecref a) evs) /\
       exists e, r = Abort (Throw e)).
Proof.
  intros Hclaim.
  destruct (Hclaim (Demo.env 0 0) true Demo.before_foreign_import Demo.foreign_import.1.2
              Demo.foreign_import.1.1 Demo.foreign_import.2 1 "boom") as (_ & [a Ha] & _).
  - vm_compute. reflexivity.
  - vm_compute. auto 10.
  - revert Ha. vm_compute. intuition discriminate.
Qed.

(** C6: when the configuration does not parse, the node has been made. *)
Lemma malformed_json_node_already_made :
  ~ (forall (E : Env) name nodeType nodeConfig q len d (w : @World nat) r st evs,
       is_Some (node_type_lookup E nodeType) ->
       (exists error, json_loads E nodeConfig = inl error) ->
       construct E name nodeType nodeConfig q len d w = (r, st, evs) ->
       (exists error, r = Abort (Throw (JsonError None error))) /\
       mNode (this st) = None /\
       node.pool_state (mSamplePool (this st)) = node.Uninitialized).
Proof.
  intros Hclaim.
  destruct (Hclaim (Demo.env 0 0) "dpsim" "loopback" "{" 5 2 1 (Demo.world0 [] []) _ _ _
              ltac:(by eexists) ltac:(by eexists) eq_refl) as (_ & Hnode & _).
  vm_compute in Hnode. discriminate.
Qed.


(** C8: a failing memory system is not logged and does not end the
    process. *)
Lemma memory_init_failure_does_not_exit :
  ~ (forall (E : Env) name nodeType nodeConfig q len d (w : @World nat) config r st evs,
       is_Some (node_type_lookup E nodeType) ->
       json_loads E nodeConfig = inr config ->
       (0 <= node_parse E config (uuid_generate_random E))%Z ->
       (0 <= node_check E)%Z ->
       memory_init E 100 <> 0%Z ->
       construct E name nodeType nodeConfig q len d w = (r, st, evs) ->
       r = Abort (Exit 1) /\ exists fmt args, In (EvLog Error fmt args) evs).
Proof.
  intros Hclaim.
  destruct (Hclaim (Demo.env 1 0) "dpsim" "loopback" "{}" 5 2 1 (Demo.world0 [] []) "{}" _ _ _
              ltac:(by eexists) eq_refl ltac:(by vm_compute) ltac:(by vm_compute)
              ltac:(by vm_compute) eq_refl) as [Hexit _].
  vm_compute in Hexit. discriminate.
Qed.


(** C2: [writeValues] takes a sample from the pool and never releases it.
    With a pool of two samples (one is the last-good sample) the first call
    returns with the fresh sample still referenced and the pool empty, and
    the second call dereferences the null pointer. *)
Theorem writeValues_leaks_fresh_sample :
  Demo.leak.1.1 = Val tt /\
  In (EvAlloc (Some 1)) Demo.leak.2 /\
  List.filter is_decref Demo.leak.2 = [] /\
  refcnt <$> heap (world Demo.leak.1.2) !! 1 = Some 1%Z /\
  node.pool_queue (mSamplePool (this Demo.leak.1.2)) = [] /\
  (writeValues (Demo.env 0 0) Demo.leak.1.2).1.1 = Abort Crash.
Proof. vm_compute. repeat split; auto. Qed.

(** C4: the node refuses the sample with the code -1; the refused sample
    is copied to the last-good sample all the same. *)
Theorem refused_sample_becomes_last_sample :
  let before := Demo.before_refused_write in
  let after := Demo.refused_write.1.2 in
  Demo.refused_write.1.1 = Val tt /\
  (exists old s,
     content before (mLastSample (this before)) = Some old /\
     writes_of Demo.refused_write.2 = [EvWrite (Some 1) (Some s) (Returns (-1))] /\
     content after (mLastSample (this after)) = Some (copy_fields old s) /\
     copy_fields old s <> old) /\
  (exists fmt args, In (EvLog Error fmt args) Demo.refused_write.2) /\
  mLastSample (this after) = mLastSample (this before).
Proof.
  cbv zeta. split; [by vm_compute|]. split.
  - eexists _, _. split; [vm_compute; reflexivity|]. split; [vm_compute; reflexivity|].
    split; [vm_compute; reflexivity|]. vm_compute. discriminate.
  - split; [|by vm_compute]. eexists _, _. vm_compute. auto 10.
Qed.

(** C5: on the first tick an exporter raises; the sample sent is the
    last-good sample as [open] left it, and its flags do not have
    [HAS_DATA]. *)
Theorem first_fallback_sample_has_no_data_flag :
  exists s,
    writes_of Demo.failing_export.2 =
      [EvWrite (Some 0) (Some s) (Returns 0); EvWrite (Some 0) (Some s) (Returns 1)] /\
    has_flag (node.flags s) (HAS_DATA (Demo.env 0 0)) = false /\
    Demo.failing_export.1.1 = Val tt.
Proof. vm_compute. by eexists. Qed.

(** * Construction, [open] and [close] on the loopback instance *)

Lemma construct_makes_node_and_pool_witness :
  exists st : @State nat,
    construct (Demo.env 0 0) "dpsim" "loopback" "{}" 5 2 1 (Demo.world0 [] []) =
      (Val tt, st,
       [EvNodeNew "loopback"; EvNodeParse 0; EvNodeCheck 0; EvMemoryInit 0;
        EvPoolInit 0; EvNodePrepare 0]) /\
    mNode (this st) = Some {| node.type_name := "loopback" |} /\
    mImports (this st) = [] /\
    mExports (this st) = [] /\
    node.pool_state (mSamplePool (this st)) = node.Initialized /\
    node.pool_capacity (mSamplePool (this st)) = 2 /\
    node.pool_queue (mSamplePool (this st)) = seq 0 5 /\
    (forall a, a < 0 -> heap (world st) !! a = @nil Block !! a) /\
    (forall a, a ∈ node.pool_queue (mSamplePool (this st)) ->
       exists b, heap (world st) !! a = Some b /\ refcnt b = 0%Z /\
                 owner b = FromSamplePool /\ length (node.data (smp b)) = 2).
Proof.
  apply (construct_makes_node_and_pool (H:=nat) (Demo.env 0 0)
           "dpsim" "loopback" "{}" 5 2 1 (Demo.world0 [] [])
           {| node.type_name := "loopback" |} "{}");
    vm_compute; try reflexivity; discriminate.
Defined.

Lemma construct_returns_only_after_every_step_witness :
  exists t config,
    node_type_lookup (Demo.env 0 0) "loopback" = Some t /\
    json_loads (Demo.env 0 0) "{}" = inr config /\
    (0 <= node_parse (Demo.env 0 0) config (uuid_generate_random (Demo.env 0 0)))%Z /\
    (0 <= node_check (Demo.env 0 0))%Z /\
    memory_init (Demo.env 0 0) 100 = 0%Z /\
    (0 <= pool_init (Demo.env 0 0) 5 2)%Z /\
    (0 <= node_prepare (Demo.env 0 0))%Z.
Proof.
  apply (construct_returns_only_after_every_step (H:=nat) (Demo.env 0 0)
           "dpsim" "loopback" "{}" 5 2 1 (Demo.world0 [] [])
           (construct (Demo.env 0 0) "dpsim" "loopback" "{}" 5 2 1 (Demo.world0 [] [])).1.2
           (construct (H:=nat) (Demo.env 0 0) "dpsim" "loopback" "{}" 5 2 1 (Demo.world0 [] [])).2).
  vm_compute. reflexivity.
Defined.

Lemma constructor_logs_only_before_exit_witness :
  let run := construct (H:=nat) (Demo.env_codes 0 (-3) 0 0 0 0 0)
               "dpsim" "loopback" "{}" 5 2 1 (Demo.world0 [] []) in
  (forall level fmt args, In (EvLog level fmt args) run.2 ->
     level = Error /\ run.1.1 = Abort (Exit 1)) /\
  (forall c, run.1.1 = Abort (Exit c) ->
     c = 1%Z /\ exists pre fmt args, run.2 = pre ++ [EvLog Error fmt args]).
Proof.
  intros run.
  apply (constructor_logs_only_before_exit (H:=nat) (Demo.env_codes 0 (-3) 0 0 0 0 0)
           "dpsim" "loopback" "{}" 5 2 1 (Demo.world0 [] []) run.1.1 run.1.2 run.2).
  vm_compute. reflexivity.
Defined.

Lemma unknown_node_type_exits_witness :
  exists st : @State nat,
    construct (Demo.env 0 0) "dpsim" "mqtt" "{}" 5 2 1 (Demo.world0 [] []) =
      (Abort (Exit 1), st,
       [EvLog Error "Error: NodeType {} is not known to VILLASnode!" [ArgStr "mqtt"]]) /\
    mNode (this st) = None /\
    node.pool_state (mSamplePool (this st)) = node.Uninitialized /\
    world st = Demo.world0 [] [].
Proof.
  apply (unknown_node_type_exits (H:=nat) (Demo.env 0 0)
           "dpsim" "mqtt" "{}" 5 2 1 (Demo.world0 [] [])).
  vm_compute. reflexivity.
Defined.

Lemma rejected_configuration_exits_witness :
  let run := construct (H:=nat) (Demo.env_codes 0 (-3) 0 0 0 0 0)
               "dpsim" "loopback" "{}" 5 2 1 (Demo.world0 [] []) in
  run.1.1 = Abort (Exit 1) /\
  (exists pre fmt c,
     run.2 = EvNodeNew "loopback" :: pre ++ [EvLog Error fmt [ArgInt c]] /\
     (c < 0)%Z /\
     (pre = [EvNodeParse c] \/ pre = [EvNodeParse 0; EvNodeCheck c])) /\
  node.pool_state (mSamplePool (this run.1.2)) = node.Uninitialized /\
  world run.1.2 = Demo.world0 [] [].
Proof.
  intros run.
  apply (rejected_configuration_exits (H:=nat) (Demo.env_codes 0 (-3) 0 0 0 0 0)
           "dpsim" "loopback" "{}" 5 2 1 (Demo.world0 [] [])
           {| node.type_name := "loopback" |} "{}" run.1.1 run.1.2 run.2).
  - vm_compute. reflexivity.
  - vm_compute. reflexivity.
  - right. vm_compute. reflexivity.
  - vm_compute. reflexivity.
Defined.

Lemma pool_init_failure_exits_witness :
  exists st : @State nat,
    construct (Demo.env_codes 0 0 (-1) 0 0 0 0) "dpsim" "loopback" "{}" 5 2 1 (Demo.world0 [] []) =
      (Abort (Exit 1), st,
       [EvNodeNew "loopback"; EvNodeParse 0; EvNodeCheck 0; EvMemoryInit 0; EvPoolInit (-1);
        EvLog Error "Error: InterfaceVillas failed to init sample pool. pool_init returned code {}"
          [ArgInt (-1)]]) /\
    node.pool_state (mSamplePool (this st)) = node.Uninitialized /\
    node.pool_queue (mSamplePool (this st)) = [] /\
    world st = Demo.world0 [] [].
Proof.
  apply (pool_init_failure_exits (H:=nat) (Demo.env_codes 0 0 (-1) 0 0 0 0)
           "dpsim" "loopback" "{}" 5 2 1 (Demo.world0 [] [])
           {| node.type_name := "loopback" |} "{}");
    vm_compute; try reflexivity; discriminate.
Defined.

Lemma prepare_failure_exits_with_pool_witness :
  exists st : @State nat,
    construct (Demo.env_codes 0 0 0 (-2) 0 0 0) "dpsim" "loopback" "{}" 5 2 1 (Demo.world0 [] []) =
      (Abort (Exit 1), st,
       [EvNodeNew "loopback"; EvNodeParse 0; EvNodeCheck 0; EvMemoryInit 0; EvPoolInit 0;
        EvNodePrepare (-2);
        EvLog Error "Error: Node in InterfaceVillas failed to prepare. Prepare returned code {}"
          [ArgInt (-2)]]) /\
    node.pool_state (mSamplePool (this st)) = node.Initialized /\
    length (node.pool_queue (mSamplePool (this st))) = 5.
Proof.
  apply (prepare_failure_exits_with_pool (H:=nat) (Demo.env_codes 0 0 0 (-2) 0 0 0)
           "dpsim" "loopback" "{}" 5 2 1 (Demo.world0 [] [])
           {| node.type_name := "loopback" |} "{}");
    vm_compute; try reflexivity; discriminate.
Defined.

Lemma close_stops_node_then_destroys_pool_witness :
  let E := Demo.env 0 0 in
  let st := Demo.before_leak in
  let run := close E st in
  (run.1.1 = Val tt \/ run.1.1 = Abort (Exit 1)) /\
  (run.1.1 = Val tt <-> (0 <= node_stop E)%Z /\ (0 <= pool_destroy E)%Z) /\
  (run.1.1 = Val tt ->
     mOpened (this run.1.2) = false /\
     node.pool_state (mSamplePool (this run.1.2)) = node.Destroyed /\
     node.pool_queue (mSamplePool (this run.1.2)) = []) /\
  ((node_stop E < 0)%Z -> this run.1.2 = this st /\ forall c, ~ In (EvPoolDestroy c) run.2) /\
  ((0 <= node_stop E)%Z ->
     In (EvPoolDestroy (pool_destroy E)) run.2 /\ mOpened (this run.1.2) = false) /\
  world run.1.2 = world st /\
  mLastSample (this run.1.2) = mLastSample (this st) /\
  mSequence (this run.1.2) = mSequence (this st) /\
  (forall a, ~ In (EvDecref a) run.2).
Proof.
  intros E st run.
  apply (close_stops_node_then_destroys_pool E st run.1.2 run.1.1 run.2).
  - vm_compute. by eexists.
  - vm_compute. reflexivity.
Defined.

Lemma open_takes_last_sample_from_pool_witness :
  let E := Demo.env 0 0 in
  let st0 := Demo.before_open in
  let st := Demo.run_open.1.2 in
  exists t l q lb,
    mNode (this st0) = Some t /\
    node_type_start E t = 0%Z /\
    (0 <= node_start E)%Z /\
    Demo.run_open.2 = [EvLog Info "Opening InterfaceVillas..." []; EvTypeStart 0;
                       EvNodeStart (node_start E); EvAlloc (Some l)] /\
    node.pool_queue (mSamplePool (this st0)) = l :: q /\
    node.pool_queue (mSamplePool (this st)) = q /\
    mLastSample (this st) = Some l /\
    mOpened (this st) = true /\
    mSequence (this st) = 0%Z /\
    heap (world st) !! l = Some lb /\
    refcnt lb = 1%Z /\
    node.sequence (smp lb) = 0%Z /\
    node.ts_origin (smp lb) = {| node.tv_sec := 0; node.tv_nsec := 0 |} /\
    node.length (smp lb) = 0 /\
    node.capacity (smp lb) = node.pool_capacity (mSamplePool (this st0)) /\
    node.signals (smp lb) = Some (getInputSignals E) /\
    take (node.capacity (smp lb)) (node.data (smp lb)) = replicate (node.capacity (smp lb)) 0%Z /\
    (forall a, a <> l -> heap (world st) !! a = heap (world st0) !! a).
Proof.
  apply (open_takes_last_sample_from_pool (Demo.env 0 0) Demo.before_open
           Demo.run_open.1.2 Demo.run_open.2).
  vm_compute. reflexivity.
Defined.

Lemma node_start_failure_closes_and_exits_witness :
  let E := Demo.env_codes 0 0 0 0 (-1) 0 0 in
  let st := Demo.before_failing_start in
  let run := open E st in
  run.1.1 = Abort (Exit 1) /\
  (exists cevs,
     run.2 = [EvLog Info "Opening InterfaceVillas..." []; EvTypeStart 0;
              EvNodeStart (node_start E);
              EvLog Error "Fatal error: failed to start node in InterfaceVillas. Start returned code {}"
                [ArgInt (node_start E)]] ++ cevs /\
     (close E st).2 = cevs) /\
  In (EvNodeStop (node_stop E)) run.2 /\
  (forall p, ~ In (EvAlloc p) run.2) /\
  mSequence (this run.1.2) = mSequence (this st) /\
  mLastSample (this run.1.2) = mLastSample (this st) /\
  world run.1.2 = world st.
Proof.
  intros E st run.
  apply (node_start_failure_closes_and_exits E st run.1.2 run.1.1 run.2
           {| node.type_name := "loopback" |});
    vm_compute; reflexivity.
Defined.

Lemma open_without_free_block_crashes_witness :
  let E := Demo.env 0 0 in
  exists st' : @State nat,
    open E Demo.before_empty_pool =
      (Abort Crash, st',
       [EvLog Info "Opening InterfaceVillas..." []; EvTypeStart 0;
        EvNodeStart (node_start E); EvAlloc None]) /\
    mOpened (this st') = true /\
    mSequence (this st') = 0%Z /\
    mLastSample (this st') = None /\
    world st' = world Demo.before_empty_pool.
Proof.
  apply (open_without_free_block_crashes (Demo.env 0 0) Demo.before_empty_pool
           {| node.type_name := "loopback" |});
    vm_compute; try reflexivity; discriminate.
Defined.

(** * The ticks on the loopback instance *)

Lemma writeValues_takes_one_block_for_good_witness :
  let st := Demo.before_leak in
  let st' := Demo.leak.1.2 in
  node.pool_queue (mSamplePool (this st')) = tail (node.pool_queue (mSamplePool (this st))) /\
  (forall a, ~ In (EvDecref a) Demo.leak.2) /\
  In (EvAlloc (head (node.pool_queue (mSamplePool (this st))))) Demo.leak.2 /\
  node.pool_state (mSamplePool (this st')) = node.pool_state (mSamplePool (this st)) /\
  node.pool_capacity (mSamplePool (this st')) = node.pool_capacity (mSamplePool (this st)) /\
  mLastSample (this st') = mLastSample (this st) /\
  mImports (this st') = mImports (this st) /\
  mExports (this st') = mExports (this st) /\
  mNode (this st') = mNode (this st) /\
  mOpened (this st') = mOpened (this st).
Proof.
  apply (writeValues_takes_one_block_for_good (Demo.env 0 0) Demo.before_leak
           Demo.leak.1.2 Demo.leak.1.1 Demo.leak.2).
  vm_compute. reflexivity.
Defined.

Lemma demo_configured : configured (Demo.env 0 0) Demo.before_open.
Proof.
  apply (after_addImport (Demo.env 0 0)
           (Demo.built (Demo.env 0 0) "{}" 5 [Demo.export_tick] []
              [Returns 0; Returns 1; Returns 1; Returns 1]
              [{| rd_response := Returns 1; rd_sample := Some Demo.arrived |}]).1.2
           Demo.before_open [] Demo.import_tick); [|vm_compute; reflexivity].
  apply (after_addExport (Demo.env 0 0)
           (Demo.built (Demo.env 0 0) "{}" 5 [] []
              [Returns 0; Returns 1; Returns 1; Returns 1]
              [{| rd_response := Returns 1; rd_sample := Some Demo.arrived |}]).1.2
           _ [] Demo.export_tick); [|vm_compute; reflexivity].
  apply (after_construct (Demo.env 0 0) "dpsim" "loopback" "{}" 5 2 1
           (Demo.world0 [Returns 0; Returns 1; Returns 1; Returns 1]
              [{| rd_response := Returns 1; rd_sample := Some Demo.arrived |}])
           _ [EvNodeNew "loopback"; EvNodeParse 0; EvNodeCheck 0; EvMemoryInit 0;
              EvPoolInit 0; EvNodePrepare 0]).
  vm_compute. reflexivity.
Defined.

Lemma pool_bounds_the_number_of_sends_witness :
  let cs := [CallWriteValues; CallReadValues true; CallWriteValues; CallWriteValues] in
  length (List.filter is_send cs) < mQueueLenght (this Demo.before_open) /\
  length (node.pool_queue (mSamplePool (this Demo.tick3.1.2))) =
    mQueueLenght (this Demo.before_open) - 1 - length (List.filter is_send cs).
Proof.
  apply (pool_bounds_the_number_of_sends (Demo.env 0 0) Demo.before_open
           Demo.run_open.1.2 Demo.tick3.1.2 Demo.run_open.2).
  - exact demo_configured.
  - vm_compute. reflexivity.
  - apply one_more_tick with (st1 := Demo.tick1.1.2) (evs := Demo.tick1.2);
      [reflexivity|vm_compute; reflexivity|].
    apply one_more_tick with (st1 := Demo.read1.1.2) (evs := Demo.read1.2);
      [reflexivity|vm_compute; reflexivity|].
    apply one_more_tick with (st1 := Demo.tick2.1.2) (evs := Demo.tick2.2);
      [reflexivity|vm_compute; reflexivity|].
    apply one_more_tick with (st1 := Demo.tick3.1.2) (evs := Demo.tick3.2);
      [reflexivity|vm_compute; reflexivity|].
    apply no_tick.
Defined.

Lemma writeValues_without_free_block_crashes_witness :
  exists st' : @State nat,
    writeValues (Demo.env 0 0) Demo.leak.1.2 = (Abort Crash, st', [EvAlloc None]) /\
    this st' = this Demo.leak.1.2 /\
    world st' = world Demo.leak.1.2.
Proof.
  apply (writeValues_without_free_block_crashes (Demo.env 0 0) Demo.leak.1.2).
  - vm_compute. by eexists.
  - vm_compute. reflexivity.
Defined.

Lemma exporters_run_in_order_before_the_write_witness :
  let E := Demo.env 0 0 in
  let st := Demo.run_open.1.2 in
  exists a b h' s' rest,
    head (node.pool_queue (mSamplePool (this st))) = Some a /\
    heap (world st) !! a = Some b /\
    run_hooks (mExports (this st)) (host (world st))
      (fresh_sample E (node.pool_capacity (mSamplePool (this st))) (smp b)) =
      (h', s', replicate (length (mExports (this st))) None, None) /\
    Demo.tick1.2 = EvAlloc (Some a) ::
          hook_events EvExport 0 (replicate (length (mExports (this st))) None) ++ rest /\
    (forall i c, ~ In (EvExport i c) rest) /\
    (Demo.tick1.1.1 = Val tt -> host (world Demo.tick1.1.2) = h').
Proof.
  apply (exporters_run_in_order_before_the_write (Demo.env 0 0) Demo.run_open.1.2
           Demo.tick1.1.2 Demo.tick1.1.1 Demo.tick1.2
           (Some 1) (Some (Demo.held Demo.tick1 1)) (Returns 1)).
  - vm_compute. by eexists.
  - vm_compute. reflexivity.
  - intros i what. vm_compute. intros Hin. by repeat destruct Hin as [Hin|Hin].
  - vm_compute. auto 10.
Defined.

Lemma written_sample_is_framed_witness :
  let E := Demo.env 0 0 in
  let st := Demo.run_open.1.2 in
  let st' := Demo.tick1.1.2 in
  exists a b h' s' x,
    head (node.pool_queue (mSamplePool (this st))) = Some a /\
    heap (world st) !! a = Some b /\
    run_hooks (mExports (this st)) (host (world st))
      (fresh_sample E (node.pool_capacity (mSamplePool (this st))) (smp b)) =
      (h', s', replicate (length (mExports (this st))) None, None) /\
    Some 1 = Some a /\
    Some (Demo.held Demo.tick1 1) = Some x /\
    node.sequence x = mSequence (this st) /\
    node.ts_origin x = clock_realtime E (ticks (world st)) /\
    node.flags x = Z.lor (node.flags s') (HAS_DATA E) /\
    has_flag (node.flags x) (HAS_DATA E) = true /\
    node.length x = node.length s' /\
    node.data x = node.data s' /\
    node.signals x = node.signals s' /\
    (Demo.tick1.1.1 = Val tt ->
       ticks (world st') = S (ticks (world st)) /\
       mSequence (this st') = next_sequence (mSequence (this st))).
Proof.
  apply (written_sample_is_framed (Demo.env 0 0) Demo.run_open.1.2
           Demo.tick1.1.2 Demo.tick1.1.1 Demo.tick1.2
           (Some 1) (Some (Demo.held Demo.tick1 1)) (Returns 1)).
  - vm_compute. by eexists.
  - vm_compute. reflexivity.
  - intros i what. vm_compute. intros Hin. by repeat destruct Hin as [Hin|Hin].
  - vm_compute. auto 10.
Defined.

Lemma accepted_sample_becomes_last_sample_witness :
  let st := Demo.before_late_export in
  let st' := Demo.accepted.1.2 in
  let x := Demo.held Demo.accepted 1 in
  let old := default Demo.zeroed (content st (Some 0)) in
  Demo.accepted.1.1 = Val tt /\
  mLastSample (this st') = Some 0 /\
  Some 1 <> Some 0 /\
  content st' (Some 0) = Some (copy_fields old x) /\
  node.sequence (copy_fields old x) = node.sequence x /\
  node.ts_origin (copy_fields old x) = node.ts_origin x /\
  node.flags (copy_fields old x) = node.flags x /\
  node.capacity (copy_fields old x) = node.capacity old /\
  node.length (copy_fields old x) = min (node.length x) (node.capacity old) /\
  (node.length x <= length (node.data x) ->
   take (node.length (copy_fields old x)) (node.data (copy_fields old x)) =
   take (node.length (copy_fields old x)) (node.data x)).
Proof.
  intros st st' x old.
  apply (accepted_sample_becomes_last_sample (Demo.env 0 0) st st'
           Demo.accepted.1.1 Demo.accepted.2 (Some 1) x 1 0 old).
  - vm_compute. by eexists.
  - apply demo_last_sample_held with (l := 0) (q := [1; 2; 3; 4]); vm_compute; reflexivity.
  - vm_compute. reflexivity.
  - intros e. vm_compute. intros Hin. by repeat destruct Hin as [Hin|Hin].
  - vm_compute. auto 10.
  - lia.
  - vm_compute. reflexivity.
  - vm_compute. reflexivity.
Defined.

Lemma fallback_resends_the_accepted_sample_witness :
  let x := Demo.held Demo.accepted 1 in
  let old := default Demo.zeroed (content Demo.before_late_export (Some 0)) in
  Some 0 = Some 0 /\
  Some (Demo.held Demo.late_export 0) = Some (copy_fields old x) /\
  node.sequence (copy_fields old x) = node.sequence x /\
  node.ts_origin (copy_fields old x) = node.ts_origin x /\
  node.flags (copy_fields old x) = node.flags x.
Proof.
  intros x old.
  apply (fallback_resends_the_accepted_sample (Demo.env 0 0) Demo.before_late_export
           Demo.accepted.1.2 Demo.late_export.1.2 Demo.accepted.2
           Demo.late_export.1.1 Demo.late_export.2 (Some 1) x 1 0 old 0 "late"
           (Some 0) (Some (Demo.held Demo.late_export 0)) (Returns 1)).
  - vm_compute. by eexists.
  - apply demo_last_sample_held with (l := 0) (q := [1; 2; 3; 4]); vm_compute; reflexivity.
  - vm_compute. reflexivity.
  - vm_compute. reflexivity.
  - vm_compute. reflexivity.
  - intros e. vm_compute. intros Hin. by repeat destruct Hin as [Hin|Hin].
  - vm_compute. auto 10.
  - lia.
  - vm_compute. reflexivity.
  - vm_compute. auto 10.
  - vm_compute. auto 10.
Defined.


Lemma refused_write_is_logged_not_raised_witness :
  Demo.refused_write.1.1 = Val tt /\
  exists pre,
    Demo.refused_write.2 =
      pre ++ [EvWrite (Some 1) (Some (Demo.held Demo.refused_write 1)) (Returns (-1));
              EvLog Error "Failed to write samples to InterfaceVillas. Write returned code {}"
                [ArgInt (-1)]].
Proof.
  apply (refused_write_is_logged_not_raised (Demo.env 0 0) Demo.before_refused_write
           Demo.refused_write.1.2 Demo.refused_write.1.1 Demo.refused_write.2
           (Some 1) (Some (Demo.held Demo.refused_write 1)) (-1)).
  - vm_compute. by eexists.
  - apply demo_last_sample_held with (l := 0) (q := [1; 2; 3; 4]); vm_compute; reflexivity.
  - vm_compute. by eexists.
  - vm_compute. reflexivity.
  - vm_compute. auto 10.
  - lia.
Defined.

Lemma readValues_delivers_the_sample_to_every_importer_witness :
  let st := Demo.tick1.1.2 in
  let st' := Demo.read1.1.2 in
  exists pre c a b h' s',
    Forall busy_read pre /\
    (0 < c)%Z /\
    Demo.read1.2 = pre ++ EvRead (Returns c) (Some a) ::
          hook_events EvImport 0 (replicate (length (mImports (this st))) None) ++
          [EvDecref a] /\
    length (heap (world st)) <= a /\
    run_hooks (mImports (this st)) (host (world st)) (smp b) =
      (h', s', replicate (length (mImports (this st))) None, None) /\
    host (world st') = h' /\
    heap (world st') !! a = Some (set_refcnt 0 (set_smp s' b)) /\
    this st' = this st /\
    (forall x, x < length (heap (world st)) -> heap (world st') !! x = heap (world st) !! x).
Proof.
  apply (readValues_delivers_the_sample_to_every_importer (Demo.env 0 0) true
           Demo.tick1.1.2 Demo.read1.1.2 Demo.read1.2).
  - vm_compute. by eexists.
  - vm_compute. reflexivity.
Defined.

Lemma read_failure_closes_and_exits_witness :
  Demo.failing_read.1.1 = Abort (Exit 1) /\
  (exists pre,
     Forall busy_read pre /\
     Demo.failing_read.2 =
       pre ++ EvRead (Returns (-1)) None ::
         EvLog Error
           "Fatal error: failed to read sample from InterfaceVillas. Read returned code {}"
           [ArgInt (-1)] :: (close (Demo.env 0 0) Demo.before_failing_read).2) /\
  (forall i x, ~ In (EvImport i x) Demo.failing_read.2) /\
  (forall a, ~ In (EvDecref a) Demo.failing_read.2).
Proof.
  apply (read_failure_closes_and_exits (Demo.env 0 0) true Demo.before_failing_read
           Demo.failing_read.1.2 Demo.failing_read.1.1 Demo.failing_read.2 (-1) None).
  - vm_compute. by eexists.
  - vm_compute. reflexivity.
  - vm_compute. auto 10.
  - lia.
Defined.

Lemma read_exception_is_rethrown_as_a_copy_witness :
  Demo.raising_read.1.1 = Abort (Throw std_exception) /\
  (exists pre,
     Forall busy_read pre /\
     Demo.raising_read.2 =
       pre ++ EvRead (Throws "down") (Some 5) :: EvCatch (NodeError "down") :: [EvDecref 5]) /\
  (forall i x, ~ In (EvImport i x) Demo.raising_read.2) /\
  this Demo.raising_read.1.2 = this Demo.before_raising_read /\
  host (world Demo.raising_read.1.2) = host (world Demo.before_raising_read).
Proof.
  apply (read_exception_is_rethrown_as_a_copy (Demo.env 0 0) true Demo.before_raising_read
           Demo.raising_read.1.2 Demo.raising_read.1.1 Demo.raising_read.2 "down" (Some 5)).
  - vm_compute. by eexists.
  - vm_compute. reflexivity.
  - vm_compute. auto 10.
Defined.

Lemma readValues_leaves_the_sending_side_alone_witness :
  let st := Demo.tick1.1.2 in
  let st' := Demo.read1.1.2 in
  Forall (fun e => no_send e = true) Demo.read1.2 /\
  mSequence (this st') = mSequence (this st) /\
  mLastSample (this st') = mLastSample (this st) /\
  mExports (this st') = mExports (this st) /\
  mImports (this st') = mImports (this st) /\
  mNode (this st') = mNode (this st) /\
  (forall x, x < length (heap (world st)) -> heap (world st') !! x = heap (world st) !! x) /\
  (is_Some (content st (mLastSample (this st))) ->
   content st' (mLastSample (this st')) = content st (mLastSample (this st))).
Proof.
  apply (readValues_leaves_the_sending_side_alone (Demo.env 0 0) true
           Demo.tick1.1.2 Demo.read1.1.2 Demo.read1.1.1 Demo.read1.2).
  - vm_compute. by eexists.
  - vm_compute. reflexivity.
Defined.

Lemma writeValues_returns_once_the_node_answers_witness :
  exists (st' : @State nat) evs p s,
    writeValues (Demo.env 0 0) Demo.run_open.1.2 = (Val tt, st', evs) /\
    writes_of evs = replicate 1 (EvWrite p s (Returns 0)) ++ [EvWrite p s (Returns 1)] /\
    node_writes (world st') = [Returns 1; Returns 1].
Proof.
  apply (writeValues_returns_once_the_node_answers (Demo.env 0 0) Demo.run_open.1.2
           1 [2; 3; 4] (Demo.block Demo.run_open.1.2 1) 1 1 [Returns 1; Returns 1]).
  - vm_compute. by eexists.
  - apply demo_last_sample_held with (l := 0) (q := [1; 2; 3; 4]); vm_compute; reflexivity.
  - vm_compute. by eexists.
  - vm_compute. reflexivity.
  - vm_compute. reflexivity.
  - intros h' s' calls what. vm_compute. discriminate.
  - vm_compute. reflexivity.
  - discriminate.
Defined.

Lemma readValues_returns_once_a_sample_arrives_witness :
  let st := Demo.tick1.1.2 in
  exists st' : @State nat,
    readValues (Demo.env 0 0) true st =
      (Val tt, st',
       replicate 0 (EvRead (Returns 0) None) ++
       EvRead (Returns 1) (Some (length (heap (world st)))) ::
       hook_events EvImport 0 (replicate (length (mImports (this st))) None) ++
       [EvDecref (length (heap (world st)))]) /\
    this st' = this st /\
    host (world st') = 2 /\
    node_reads (world st') = [] /\
    heap (world st') !! length (heap (world st)) =
      Some {| refcnt := 0; owner := FromTransport; smp := Demo.arrived |}.
Proof.
  apply (readValues_returns_once_a_sample_arrives (Demo.env 0 0) true Demo.tick1.1.2
           0 1 Demo.arrived [] 2 Demo.arrived [None]).
  - vm_compute. by eexists.
  - vm_compute. reflexivity.
  - lia.
  - vm_compute. reflexivity.
Defined.
